(** * Expense tracker: amount codec, ledger persistence, table widths, summary

    A shallow embedding of [Tracker copy/pythonscript.py].

    Python [str] values are lists of Unicode code points, Python [float]
    values are IEEE-754 binary64 numbers ([spec_float] with precision 53 and
    maximal exponent 1024), exceptions are an explicit result type, and the
    tracker object together with its backing file is threaded explicitly.
    A file is the text it holds: writing encodes the text as UTF-8, which
    fails for a lone surrogate; a file whose bytes are no UTF-8 text, for
    which reading raises [UnicodeDecodeError], is not represented. *)

From Stdlib Require Import String Ascii.
From Stdlib Require Import ZArith NArith PArith List Bool Lia.
From Stdlib Require Import Floats.SpecFloat.
Import ListNotations.

Set Implicit Arguments.
Local Open Scope N_scope.

(** ** Strings *)

Definition char := N.
Definition str := list char.

(** An ASCII literal as a Python string. *)
Definition lit (s : string) : str :=
  List.map N_of_ascii (list_ascii_of_string s).

Definition EURO : char := 8364.  (* "€" *)
Definition NBSP : char := 160.   (* "\xa0" *)

Fixpoint str_eqb (a b : str) : bool :=
  match a, b with
  | [], [] => true
  | x :: a', y :: b' => (x =? y) && str_eqb a' b'
  | _, _ => false
  end.

(** [str.isspace] on one code point (Py_UNICODE_ISSPACE). *)
Definition isspace (c : char) : bool :=
  ((9 <=? c) && (c <=? 13)) || ((28 <=? c) && (c <=? 32))
  || (c =? 133) || (c =? 160) || (c =? 5760)
  || ((8192 <=? c) && (c <=? 8202))
  || (c =? 8232) || (c =? 8233) || (c =? 8239) || (c =? 8287)
  || (c =? 12288).

Fixpoint dropwhile (p : char -> bool) (s : str) : str :=
  match s with
  | [] => []
  | c :: r => if p c then dropwhile p r else s
  end.

Definition lstrip_by (p : char -> bool) (s : str) : str := dropwhile p s.
Definition rstrip_by (p : char -> bool) (s : str) : str :=
  rev (dropwhile p (rev s)).

(** [s.strip()] *)
Definition strip (s : str) : str := rstrip_by isspace (lstrip_by isspace s).

(** [s.replace(c, by)] for a one-character pattern [c]. *)
Definition replace (c : char) (by_ : str) (s : str) : str :=
  flat_map (fun x => if x =? c then by_ else [x]) s.

(** [c in s] for a one-character [c]. *)
Definition contains (c : char) (s : str) : bool := existsb (N.eqb c) s.

Definition DOT : char := 46.
Definition COMMA : char := 44.
Definition SPACE : char := 32.
Definition MINUS : char := 45.
Definition PLUS : char := 43.
Definition UNDERSCORE : char := 95.
Definition QUESTION : char := 63.

(** ** Exceptions *)

(** How a call ends when it gives no value: the exception it raises.
    [NoneText] is no exception: there the source goes on, with a record one
    of whose texts is [None]; such a record is no [Expense] of this
    development, which does not follow the source further. *)
Inductive exn :=
| ValueError | KeyError | TypeError | CsvError | UnicodeEncodeError
| NoneText.

Inductive result (A : Type) :=
| Ok (a : A)
| Raise (e : exn).
Arguments Ok {A} a.
Arguments Raise {A} e.

Definition bind {A B} (r : result A) (k : A -> result B) : result B :=
  match r with
  | Ok a => k a
  | Raise e => Raise e
  end.

Notation "x <- r ;; k" := (bind r (fun x => k))
  (at level 61, r at next level, right associativity).

(** ** Floats: binary64 *)

Definition prec : Z := 53.
Definition emax : Z := 1024.

Definition float := spec_float.

Definition isnan (x : float) : bool :=
  match x with S754_nan => true | _ => false end.

Definition isfinite (x : float) : bool :=
  match x with S754_zero _ | S754_finite _ _ _ => true | _ => false end.

Definition fsign (x : float) : bool :=
  match x with
  | S754_zero s | S754_infinity s | S754_finite s _ _ => s
  | S754_nan => false
  end.

Definition fneg : float -> float := SFopp.
Definition fabs : float -> float := SFabs.
Definition fadd : float -> float -> float := SFadd prec emax.

(** [x > y] *)
Definition fgt (x y : float) : bool := SFltb y x.

Definition fzero : float := S754_zero false.

(** The float nearest (ties to even) to [(-1)^neg * M * 10^E], as the
    correctly rounded string-to-double conversion produces it. *)
Definition dec2float (neg : bool) (M : N) (E : Z) : float :=
  match M with
  | N0 => S754_zero neg
  | Npos m =>
      match E with
      | Zneg k =>
          let '(q, e, l) :=
            SFdiv_core_binary prec emax (Zpos m) 0 (Zpos (10 ^ k)) 0 in
          binary_round_aux prec emax neg q e l
      | _ => binary_round prec emax neg (m * Z.to_pos (10 ^ E)) 0
      end
  end.

(** [float_is x n d]: [x] is finite and its exact value is [n / d]. *)
Definition float_is (x : float) (n : Z) (d : positive) : bool :=
  match x with
  | S754_zero _ => (n =? 0)%Z
  | S754_finite s m e =>
      let sm := if s then Zneg m else Zpos m in
      match e with
      | Zneg k => (sm * Zpos d =? n * Zpos (2 ^ k))%Z
      | _ => (sm * 2 ^ e * Zpos d =? n)%Z
      end
  | _ => false
  end.

(** *** [float(s)] for a [str] argument *)

Definition is_digit (c : char) : bool := (48 <=? c) && (c <=? 57).

(** Py_ISSPACE: the ASCII white space of the C locale. *)
Definition c_isspace (c : char) : bool :=
  ((9 <=? c) && (c <=? 13)) || (c =? 32).

Definition lower (c : char) : char :=
  if (65 <=? c) && (c <=? 90) then c + 32 else c.

Fixpoint span_digits (s : str) : list N * str :=
  match s with
  | [] => ([], [])
  | c :: r =>
      if is_digit c
      then let '(ds, r') := span_digits r in ((c - 48) :: ds, r')
      else ([], s)
  end.

(** Value of a big-endian list of decimal digits. *)
Definition digits_val (ds : list N) : N :=
  fold_left (fun acc d => 10 * acc + d) ds 0.

Definition parse_sign (s : str) : bool * str :=
  match s with
  | c :: r => if c =? MINUS then (true, r)
              else if c =? PLUS then (false, r)
              else (false, s)
  | [] => (false, s)
  end.

(** The optional exponent part; everything left must be consumed. *)
Definition parse_exponent (s : str) : option Z :=
  match s with
  | [] => Some 0%Z
  | c :: r =>
      if (c =? 101) || (c =? 69) then
        let '(neg, r1) := parse_sign r in
        let '(ds, r2) := span_digits r1 in
        match ds, r2 with
        | _ :: _, [] =>
            Some (if neg then (- Z.of_N (digits_val ds))%Z
                  else Z.of_N (digits_val ds))
        | _, _ => None
        end
      else None
  end.

(** Decimal numeral: digits, optional point and digits, optional exponent.
    Returns the sign, the integer mantissa and the decimal exponent. *)
Definition parse_decimal (s : str) : option (bool * N * Z) :=
  let '(neg, s1) := parse_sign s in
  let '(ip, r) := span_digits s1 in
  let '(fp, r') :=
    match r with
    | c :: r1 => if c =? DOT then span_digits r1 else ([], r)
    | [] => ([], r)
    end in
  match ip ++ fp with
  | [] => None
  | _ :: _ =>
      match parse_exponent r' with
      | Some e =>
          Some (neg, digits_val (ip ++ fp), (e - Z.of_nat (List.length fp))%Z)
      | None => None
      end
  end.

(** "inf", "infinity" and "nan", in any letter case, with an optional sign. *)
Definition parse_inf_or_nan (s : str) : option float :=
  let '(neg, r) := parse_sign s in
  let l := List.map lower r in
  if str_eqb l (lit "inf") || str_eqb l (lit "infinity")
  then Some (S754_infinity neg)
  else if str_eqb l (lit "nan") then Some S754_nan
  else None.

Definition strtod (s : str) : option float :=
  match parse_decimal s with
  | Some (neg, M, E) => Some (dec2float neg M E)
  | None => parse_inf_or_nan s
  end.

(** Underscores are allowed between two digits only; they are removed. *)
Fixpoint strip_underscores (prev : char) (s : str) : option str :=
  match s with
  | [] => if prev =? UNDERSCORE then None else Some []
  | c :: r =>
      if c =? UNDERSCORE then
        if is_digit prev then strip_underscores c r else None
      else if (prev =? UNDERSCORE) && negb (is_digit c) then None
      else option_map (cons c) (strip_underscores c r)
  end.

(** A digit table without non-ASCII digits, for closed examples. *)
Definition ascii_digits_only : char -> option N := fun _ => None.

Section PyFloat.

(** A proof depends on the tables its statement mentions, and on no
    other. *)
Set Default Proof Using "Type".

(** The decimal-digit property of the Unicode database
    (Py_UNICODE_TODECIMAL); it is consulted for non-ASCII code points only. *)
Variable todecimal : char -> option N.

(** White space becomes a space and decimal digits become ASCII digits; the
    first other non-ASCII code point becomes "?" and ends the text. *)
Fixpoint to_ascii (s : str) : str :=
  match s with
  | [] => []
  | c :: r =>
      if c <? 127 then c :: to_ascii r
      else if isspace c then SPACE :: to_ascii r
      else match todecimal c with
           | Some d => (48 + d) :: to_ascii r
           | None => [QUESTION]
           end
  end.

Definition transform_decimal_and_space (s : str) : str :=
  if forallb (fun c => c <? 128) s then s else to_ascii s.

(** [float(s)] *)
Definition float_of_str (s : str) : result float :=
  let a := transform_decimal_and_space s in
  let t := rstrip_by c_isspace (lstrip_by c_isspace a) in
  let u := if contains UNDERSCORE t then strip_underscores 0 t else Some t in
  match u with
  | Some u =>
      match strtod u with
      | Some x => Ok x
      | None => Raise ValueError
      end
  | None => Raise ValueError
  end.

(** ** AmountCodec *)

(** [ExpenseTracker.parse_amount] *)
Definition parse_amount (s : option str) : result float :=
  match s with
  | None => Raise ValueError
  | Some s =>
      let s := strip s in
      let s := replace NBSP [] (replace SPACE [] (replace EURO [] s)) in
      if match s with [] => true | _ => false end then Raise ValueError
      else
        let s :=
          if contains DOT s && contains COMMA s
          then replace COMMA [DOT] (replace DOT [] s)
          else if contains COMMA s && negb (contains DOT s)
               then replace COMMA [DOT] s
               else s in
        float_of_str s
  end.

(** [format(amount, ".2f")] and [format(amount, ",.2f")] *)

(** Nearest integer to [a / b], ties to even. *)
Definition round_half_even_div (a b : N) : N :=
  let q := a / b in
  let r := a mod b in
  match 2 * r ?= b with
  | Lt => q
  | Gt => q + 1
  | Eq => if N.even q then q else q + 1
  end.

(** [|x| * 100] rounded to an integer: the digits that ".2f" prints. *)
Definition cents (x : float) : N :=
  match x with
  | S754_finite _ m (Zneg k) => round_half_even_div (Npos m * 100) (Npos (2 ^ k))
  | S754_finite _ m e => Npos m * 100 * 2 ^ Z.to_N e
  | _ => 0
  end.

(** Decimal digits of [n], least significant first. *)
Fixpoint digits_le (fuel : nat) (n : N) : list N :=
  match fuel with
  | O => []
  | S f => if n <? 10 then [n] else (n mod 10) :: digits_le f (n / 10)
  end.

Definition digit_char (d : N) : char := 48 + d.

(** [str(n)] for a natural number [n] *)
Definition str_of_N (n : N) : str :=
  rev (List.map digit_char (digits_le (S (N.to_nat (N.log2 n))) n)).

(** A separator after every third digit, counted from the right; the text is
    given least significant digit first. *)
Fixpoint group3_le (sep : char) (ds : str) : str :=
  match ds with
  | a :: b :: c :: ((_ :: _) as r) => a :: b :: c :: sep :: group3_le sep r
  | _ => ds
  end.

Definition fmt_fixed2 (grouped : bool) (x : float) : str :=
  match x with
  | S754_nan => lit "nan"
  | S754_infinity s => (if s then [MINUS] else []) ++ lit "inf"
  | _ =>
      let c := cents x in
      let ip := rev (str_of_N (c / 100)) in
      (if fsign x then [MINUS] else [])
        ++ rev (if grouped then group3_le COMMA ip else ip)
        ++ [DOT; digit_char ((c mod 100) / 10); digit_char (c mod 10)]
  end.

(** [ExpenseTracker.format_amount] *)
Definition format_amount (amount : float) : str :=
  let s := fmt_fixed2 true amount in
  let s := replace 88 [DOT] (replace DOT [COMMA] (replace COMMA [88] s)) in
  s ++ [EURO].

(** ** Data model *)

Record Expense := {
  date : str;
  category : str;
  description : str;
  amount : float
}.

(** A [dict] with [str] keys: an association list in insertion order. *)
Definition dict (V : Type) := list (str * V).

Fixpoint dict_get {V} (k : str) (d : dict V) : option V :=
  match d with
  | [] => None
  | (k', v) :: r => if str_eqb k k' then Some v else dict_get k r
  end.

(** [d[k] = v]: an existing key keeps its place. *)
Fixpoint dict_set {V} (k : str) (v : V) (d : dict V) : dict V :=
  match d with
  | [] => [(k, v)]
  | (k', v') :: r =>
      if str_eqb k k' then (k', v) :: r else (k', v') :: dict_set k v r
  end.

(** [Expense.to_dict] *)
Definition to_dict (e : Expense) : dict str :=
  dict_set (lit "amount") (fmt_fixed2 false (amount e))
    (dict_set (lit "description") (description e)
       (dict_set (lit "category") (category e)
          (dict_set (lit "date") (date e) []))).

(** ** The csv module, dialect "excel" *)

Definition QUOTE : char := 34.
Definition CR : char := 13.
Definition LF : char := 10.

Definition special (c : char) : bool :=
  (c =? COMMA) || (c =? QUOTE) || (c =? CR) || (c =? LF).

(** One field as the writer emits it under QUOTE_MINIMAL. *)
Definition csv_field (f : str) : str :=
  if existsb special f
  then QUOTE :: replace QUOTE [QUOTE; QUOTE] f ++ [QUOTE]
  else f.

Fixpoint join_fields (fs : list str) : str :=
  match fs with
  | [] => []
  | [f] => csv_field f
  | f :: r => csv_field f ++ COMMA :: join_fields r
  end.

(** [writer.writerow(fields)]: the text written to the file. *)
Definition csv_writerow (fs : list str) : str :=
  let rec := join_fields fs in
  match fs, rec with
  | _ :: _, [] => [QUOTE; QUOTE; CR; LF]
  | _, _ => rec ++ [CR; LF]
  end.

Definition fieldnames : list str :=
  [lit "date"; lit "category"; lit "description"; lit "amount"].

(** [DictWriter.writerow(rowdict)] *)
Definition dict_writerow (names : list str) (d : dict str) : result str :=
  if forallb (fun kv => existsb (str_eqb (fst kv)) names) d
  then Ok (csv_writerow
             (List.map (fun k => match dict_get k d with
                                 | Some v => v
                                 | None => []
                                 end) names))
  else Raise ValueError.

(** Iterating over a text file opened with [newline=""]: lines end at
    "\n", "\r" or "\r\n" and keep their ending. *)
Fixpoint lines_from (cur : str) (s : str) : list str :=
  match s with
  | [] => match cur with [] => [] | _ :: _ => [rev cur] end
  | c :: r =>
      if c =? LF then rev (c :: cur) :: lines_from [] r
      else if c =? CR then
        match r with
        | c2 :: r2 =>
            if c2 =? LF then rev (c2 :: c :: cur) :: lines_from [] r2
            else rev (c :: cur) :: lines_from [] r
        | [] => [rev (c :: cur)]
        end
      else lines_from (c :: cur) r
  end.

Definition file_lines (s : str) : list str := lines_from [] s.

Inductive parser_state :=
| START_RECORD | START_FIELD | IN_FIELD | IN_QUOTED_FIELD
| QUOTE_IN_QUOTED_FIELD | EAT_CRNL.

(** The reader: its state, the field being collected (last character
    first) with its length, and the fields of the current record (last
    field first). *)
Record reader := {
  state : parser_state;
  field : str;
  field_len : N;
  fields : list str
}.

Definition parse_reset : reader :=
  {| state := START_RECORD; field := []; field_len := 0; fields := [] |}.

Definition parse_save_field (r : reader) (st : parser_state) : reader :=
  {| state := st; field := []; field_len := 0;
     fields := rev (field r) :: fields r |}.

(** [csv.field_size_limit()]: the reader refuses to add a character to a
    field that has this many. *)
Definition FIELD_LIMIT : N := 131072.

Definition parse_add_char (r : reader) (c : char) (st : parser_state)
  : option reader :=
  if FIELD_LIMIT <=? field_len r then None
  else Some {| state := st; field := c :: field r;
               field_len := field_len r + 1; fields := fields r |}.

Definition set_state (r : reader) (st : parser_state) : reader :=
  {| state := st; field := field r; field_len := field_len r;
     fields := fields r |}.

Definition is_nl (c : char) : bool := (c =? LF) || (c =? CR).

Definition after_eol (c : option char) : parser_state :=
  match c with None => START_RECORD | Some _ => EAT_CRNL end.

Definition is_eol_or_nl (c : option char) : bool :=
  match c with None => true | Some c => is_nl c end.

Definition start_field (r : reader) (c : option char) : option reader :=
  match c with
  | None => Some (parse_save_field r START_RECORD)
  | Some ch =>
      if is_nl ch then Some (parse_save_field r EAT_CRNL)
      else if ch =? QUOTE then Some (set_state r IN_QUOTED_FIELD)
      else if ch =? COMMA then Some (parse_save_field r START_FIELD)
      else parse_add_char r ch IN_FIELD
  end.

(** [parse_process_char]; [None] as character is the end-of-line mark, [None]
    as result is [csv.Error]. *)
Definition parse_process_char (r : reader) (c : option char) : option reader :=
  match state r with
  | START_RECORD =>
      match c with
      | None => Some r
      | Some ch => if is_nl ch then Some (set_state r EAT_CRNL)
                   else start_field r c
      end
  | START_FIELD => start_field r c
  | IN_FIELD =>
      match c with
      | None => Some (parse_save_field r START_RECORD)
      | Some ch =>
          if is_nl ch then Some (parse_save_field r EAT_CRNL)
          else if ch =? COMMA then Some (parse_save_field r START_FIELD)
          else parse_add_char r ch IN_FIELD
      end
  | IN_QUOTED_FIELD =>
      match c with
      | None => Some r
      | Some ch =>
          if ch =? QUOTE then Some (set_state r QUOTE_IN_QUOTED_FIELD)
          else parse_add_char r ch IN_QUOTED_FIELD
      end
  | QUOTE_IN_QUOTED_FIELD =>
      match c with
      | None => Some (parse_save_field r START_RECORD)
      | Some ch =>
          if ch =? QUOTE then parse_add_char r ch IN_QUOTED_FIELD
          else if ch =? COMMA then Some (parse_save_field r START_FIELD)
          else if is_nl ch then Some (parse_save_field r EAT_CRNL)
          else parse_add_char r ch IN_FIELD
      end
  | EAT_CRNL =>
      match c with
      | None => Some (set_state r START_RECORD)
      | Some ch => if is_nl ch then Some r else None
      end
  end.

Fixpoint process_chars (r : reader) (l : str) : option reader :=
  match l with
  | [] => Some r
  | c :: l' =>
      match parse_process_char r (Some c) with
      | Some r' => process_chars r' l'
      | None => None
      end
  end.

Definition process_line (r : reader) (l : str) : option reader :=
  match process_chars r l with
  | Some r' => parse_process_char r' None
  | None => None
  end.

(** What a loop over the reader gets: the rows in order and, after them,
    either the end of the input ([true]) or [csv.Error] ([false]).  The
    rows before the error are handed out before it is raised. *)
Definition rows_read : Type := list (list str) * bool.

Definition push (row : list str) (p : rows_read) : rows_read :=
  (row :: fst p, snd p).

(** The end of the input: when it comes inside a record, what was collected
    so far is the last row. *)
Definition end_of_input (r : reader) : rows_read :=
  match field r, state r with
  | [], (START_RECORD | START_FIELD | IN_FIELD | QUOTE_IN_QUOTED_FIELD
         | EAT_CRNL) => ([], true)
  | _, _ => ([rev (fields (parse_save_field r (state r)))], true)
  end.

(** The rows of the reader, which is consumed to its end or to its error. *)
Fixpoint read_rows (r : reader) (lines : list str) : rows_read :=
  match lines with
  | [] => end_of_input r
  | l :: ls =>
      match process_line r l with
      | None => ([], false)
      | Some r' =>
          match state r' with
          | START_RECORD => push (rev (fields r')) (read_rows parse_reset ls)
          | _ => read_rows r' ls
          end
      end
  end.

(** [dict(zip(fieldnames, row))], with [None] for the cells a short row
    lacks; a later duplicate of a key replaces the earlier value. *)
Fixpoint dict_zip (names : list str) (row : list str) (d : dict (option str))
  : dict (option str) :=
  match names with
  | [] => d
  | n :: ns =>
      match row with
      | v :: vs => dict_zip ns vs (dict_set n (Some v) d)
      | [] => dict_zip ns [] (dict_set n None d)
      end
  end.

(** The rows a [DictReader] yields: the first row gives the field names and
    empty rows are skipped. *)
Definition dict_reader (rows : list (list str)) : list (dict (option str)) :=
  match rows with
  | [] => []
  | names :: rest =>
      List.map (fun row => dict_zip names row [])
        (filter (fun row => match row with [] => false | _ => true end) rest)
  end.

(** [r[k]]: the cell, which is [None] when the row was too short for it. *)
Definition cell (r : dict (option str)) (k : str) : result (option str) :=
  match dict_get k r with
  | None => Raise KeyError
  | Some v => Ok v
  end.

(** [float(v)] for a cell *)
Definition float_of_cell (v : option str) : result float :=
  match v with
  | None => Raise TypeError
  | Some a => float_of_str a
  end.

(** [Expense(r["date"], r["category"], r["description"], float(r["amount"]))].
    The constructor takes what it is given: a text that is [None] is kept.
    The fields of [Expense] are strings here, and the result [None] stands
    for a record one of whose texts is [None]. *)
Definition expense_of_row (r : dict (option str)) : result (option Expense) :=
  d <- cell r (lit "date") ;;
  c <- cell r (lit "category") ;;
  ds <- cell r (lit "description") ;;
  a <- cell r (lit "amount") ;;
  x <- float_of_cell a ;;
  Ok (match d, c, ds with
      | Some d, Some c, Some ds =>
          Some {| date := d; category := c; description := ds; amount := x |}
      | _, _, _ => None
      end).

(** The records, when none of them holds [None]. *)
Fixpoint all_records (l : list (option Expense)) : option (list Expense) :=
  match l with
  | [] => Some []
  | Some e :: r => option_map (cons e) (all_records r)
  | None :: _ => None
  end.

Fixpoint mapM {A B} (f : A -> result B) (l : list A) : result (list B) :=
  match l with
  | [] => Ok []
  | a :: r => b <- f a ;; bs <- mapM f r ;; Ok (b :: bs)
  end.

(** ** Ledger *)

(** The tracker object; the backing file is [None] while it does not exist
    and [Some text] otherwise. *)
Record ExpenseTracker := {
  filename : str;
  expenses : list Expense
}.

Definition disk := option str.

(** A lone surrogate, which UTF-8 does not encode. *)
Definition is_surrogate (c : char) : bool := (55296 <=? c) && (c <=? 57343).

Definition encodable (s : str) : bool :=
  forallb (fun c => negb (is_surrogate c)) s.

(** [f.write(s)] on a file opened with [encoding="utf-8"]: the text is
    encoded when it is written. *)
Definition file_write (s : str) : result str :=
  if encodable s then Ok s else Raise UnicodeEncodeError.

(** [ExpenseTracker.save_expenses]: returns the new file.  The writer hands
    every line to the file when it is made; when a line cannot be encoded
    the call ends there, and the file, which was emptied on opening, is left
    with the lines before it. *)
Definition save_expenses (t : ExpenseTracker) : result disk :=
  header <- dict_writerow fieldnames (List.map (fun k => (k, k)) fieldnames) ;;
  header <- file_write header ;;
  rows <- mapM (fun e => line <- dict_writerow fieldnames (to_dict e) ;;
                         file_write line) (expenses t) ;;
  Ok (Some (header ++ concat rows)).

(** [ExpenseTracker.load_expenses].  The records are made while the rows
    are read: an exception for a row comes before [csv.Error] for a later
    line. *)
Definition load_expenses (t : ExpenseTracker) (f : disk)
  : result ExpenseTracker :=
  match f with
  | None => Ok t
  | Some text =>
      let rows := read_rows parse_reset (file_lines text) in
      es <- mapM expense_of_row (dict_reader (fst rows)) ;;
      if snd rows then
        match all_records es with
        | Some es => Ok {| filename := filename t; expenses := es |}
        | None => Raise NoneText
        end
      else Raise CsvError
  end.

(** [ExpenseTracker.__init__] *)
Definition new_tracker (name : str) (f : disk) : result ExpenseTracker :=
  load_expenses {| filename := name; expenses := [] |} f.

(** [ExpenseTracker.add_expense] *)
Definition add_expense (t : ExpenseTracker) (e : Expense)
  : result (ExpenseTracker * disk) :=
  let t' := {| filename := filename t; expenses := expenses t ++ [e] |} in
  f <- save_expenses t' ;;
  Ok (t', f).

(** [del l[i]] for an index [0 <= i < len(l)] *)
Definition del_at {A} (i : nat) (l : list A) : list A :=
  firstn i l ++ skipn (S i) l.

(** [ExpenseTracker.delete_entry]: the returned flag, the tracker and the
    file afterwards. *)
Definition delete_entry (t : ExpenseTracker) (f : disk) (index : Z)
  : result (bool * ExpenseTracker * disk) :=
  if ((index <? 1) || (index >? Z.of_nat (List.length (expenses t))))%Z
  then Ok (false, t, f)
  else
    let t' := {| filename := filename t;
                 expenses := del_at (Z.to_nat (index - 1)) (expenses t) |} in
    f' <- save_expenses t' ;;
    Ok (true, t', f').

(** [ExpenseTracker.get_total]: additions from left to right, from 0. *)
Definition get_total (t : ExpenseTracker) : float :=
  fold_left fadd (List.map amount (expenses t)) fzero.

(** ** TableRenderer *)

Definition len (s : str) : N := N.of_nat (List.length s).

(** [max(values, default=d)] *)
Definition max_default (d : N) (l : list N) : N :=
  match l with
  | [] => d
  | x :: r => fold_left N.max r x
  end.

Record widths := {
  nr_w : N; date_w : N; cat_w : N; desc_w : N; amt_w : N;
  total_width : N
}.

(** The labels of the header line of [view_expenses]. *)
Definition header_labels : list str :=
  [lit "Nr."; lit "Datum"; lit "Kategorie"; lit "Beschreibung"; lit "Betrag"].

(** The column widths of [ExpenseTracker.view_expenses]; [None] when the
    ledger is empty and only the notice is printed. *)
Definition view_widths (t : ExpenseTracker) : option widths :=
  match expenses t with
  | [] => None
  | _ :: _ =>
      let es := expenses t in
      let nr_w := N.max (len (lit "Nr.")) (len (str_of_N (N.of_nat (List.length es)))) in
      let date_w := N.max 10 (max_default 10 (List.map (fun e => len (date e)) es)) in
      let cat_w := N.max (len (lit "Kategorie"))
                     (max_default 8 (List.map (fun e => len (category e)) es)) in
      let desc_w := N.max (len (lit "Beschreibung"))
                      (max_default 30 (List.map (fun e => len (description e)) es)) in
      let all_amounts :=
        List.map (fun e => format_amount (amount e)) es
          ++ [format_amount (get_total t)] in
      let amt_w := N.max (len (lit "Betrag"))
                     (max_default 12 (List.map len all_amounts)) in
      Some {| nr_w := nr_w; date_w := date_w; cat_w := cat_w;
              desc_w := desc_w; amt_w := amt_w;
              total_width :=
                nr_w + 3 + date_w + 3 + cat_w + 3 + desc_w + 3 + amt_w |}
  end.

(** ** SummaryAggregator *)

Inductive plot :=
| NoData                 (* "No data to plot." *)
| NoPositive             (* "Keine positiven Beträge zum Darstellen." *)
| Pie (totals : list float) (labels : list str).

(** One round of the loop of [plot_summary]. *)
Definition tally (d : dict float) (e : Expense) : dict float :=
  let amt := amount e in
  if isnan amt then d
  else dict_set (category e)
         (fadd (match dict_get (category e) d with
                | Some v => v
                | None => fzero
                end) amt) d.

Definition category_totals (es : list Expense) : dict float :=
  fold_left tally es [].

Definition filtered (totals : dict float) : dict float :=
  filter (fun kv => negb (isnan (snd kv)) && fgt (snd kv) fzero) totals.

(** [ExpenseTracker.plot_summary]: what reaches the chart, or the notice. *)
Definition plot_summary (t : ExpenseTracker) : plot :=
  match expenses t with
  | [] => NoData
  | _ :: _ =>
      let f := filtered (category_totals (expenses t)) in
      match f with
      | [] => NoPositive
      | _ :: _ => Pie (List.map snd f) (List.map fst f)
      end
  end.

(** ** Entry construction in [main_menu] *)

(** The keys of the [TEXTS] table, in source order; the messages themselves
    are only printed. *)
Definition TEXTS : list str :=
  List.map lit
    ["title"; "opt1"; "opt2"; "opt3"; "opt4"; "opt5"; "opt6"; "opt7";
     "choose"; "enter_date"; "invalid_date"; "enter_category";
     "enter_description"; "enter_amount"; "invalid_amount"; "saved";
     "press_enter"; "goodbye"; "delete_prompt"; "admin_pw_prompt";
     "pw_wrong"; "delete_success"; "delete_invalid"; "login_user";
     "login_pw"; "login_fail";
     "select_sign"; "income_label"; "expense_label"]%string.

(** [TEXTS[key]] *)
Definition texts (key : str) : result unit :=
  if existsb (str_eqb key) TEXTS then Ok tt else Raise KeyError.

(** The amount of the new entry from the parsed amount and the answer to the
    "+ / -" prompt. *)
Definition entry_amount (amount : float) (sign : str) : result float :=
  let sign := strip sign in
  sign <- (if negb (str_eqb sign (lit "+") || str_eqb sign (lit "-"))
           then _ <- texts (lit "sign_invalid") ;; Ok (lit "-")
           else Ok sign) ;;
  Ok (if str_eqb sign (lit "-") then fneg (fabs amount) else fabs amount).

(** [datetime.datetime.strptime(date, "%Y-%m-%d")] succeeds. *)
Variable valid_date : str -> bool.

(** Choice "1" of [main_menu]: the tracker and the file afterwards.  An
    invalid date or amount prints a message and changes nothing. *)
Definition menu_add (t : ExpenseTracker) (f : disk)
    (date category description amount_input sign : str)
  : result (ExpenseTracker * disk) :=
  let date := strip date in
  if negb (valid_date date) then Ok (t, f)
  else
    let category := strip category in
    let description := strip description in
    let amount_input := strip amount_input in
    match parse_amount (Some amount_input) with
    | Raise _ => Ok (t, f)
    | Ok amount =>
        amount <- entry_amount amount sign ;;
        add_expense t {| date := date; category := category;
                         description := description; amount := amount |}
    end.

(** ** Values and notions used in the statements *)

(** 1.5 and 1234.5 as binary64 numbers. *)
Definition F1_5 : float := S754_finite false 6755399441055744 (-52).
Definition F1234_5 : float := S754_finite false 5429388417957888 (-42).

(** The text [parse_amount] interprets: trimmed, without currency marker
    and spaces. *)
Definition clean (s : str) : str :=
  replace NBSP [] (replace SPACE [] (replace EURO [] (strip s))).

Definition count (c : char) (s : str) : nat := count_occ N.eq_dec s c.

(** The lines [save_expenses] writes. *)
Definition header_text : str := csv_writerow fieldnames.

Definition row_fields (e : Expense) : list str :=
  [date e; category e; description e; fmt_fixed2 false (amount e)].

Definition file_text (es : list Expense) : str :=
  header_text ++ List.concat (List.map (fun e => csv_writerow (row_fields e)) es).


(** [is_max w l]: [w] is the greatest element of [l]. *)
Definition is_max (w : N) (l : list N) : Prop :=
  In w l /\ forall x, In x l -> x <= w.

(** The cells of the number column: the positions 1 .. n. *)
Definition nr_cells (n : nat) : list str :=
  List.map (fun i => str_of_N (N.of_nat i)) (seq 1 n).

(** The cells of the amount column: every amount and the total. *)
Definition amount_cells (t : ExpenseTracker) : list str :=
  List.map (fun e => format_amount (amount e)) (expenses t)
    ++ [format_amount (get_total t)].


(** [counted c e]: the record [e] adds to the total of category [c]. *)
Definition counted (c : str) (e : Expense) : bool :=
  str_eqb (category e) c && negb (isnan (amount e)).

(** The sum of the amounts of category [c], in ledger order. *)
Definition cat_sum (c : str) (es : list Expense) : float :=
  fold_left fadd (List.map amount (filter (counted c) es)) fzero.

(** Category [c] has a record and its sum is a number greater than zero. *)
Definition survives (es : list Expense) (c : str) : Prop :=
  existsb (counted c) es = true /\
  isnan (cat_sum c es) = false /\ fgt (cat_sum c es) fzero = true.

(** The chart is drawn and shows category [c] with the value [v]. *)
Definition charted (t : ExpenseTracker) (c : str) (v : float) : Prop :=
  exists totals labels,
    plot_summary t = Pie totals labels /\ In (c, v) (combine labels totals).


(** The rewriting the specification describes for a text with both
    separators: the last comma becomes the decimal point and the commas
    before it are dropped, *)
Fixpoint spec_last_comma (s : str) : str :=
  match s with
  | [] => []
  | c :: r =>
      if c =? COMMA
      then if contains COMMA r then spec_last_comma r else DOT :: r
      else c :: spec_last_comma r
  end.

(** after all periods were removed. *)
Definition spec_both (s : str) : str := spec_last_comma (replace DOT [] s).

(** Characters that occur in no decimal numeral apart from the point. *)
Definition notnum (c : char) : bool :=
  negb (is_digit c || (c =? PLUS) || (c =? MINUS) || (c =? 101) || (c =? 69)).


(** The text begins with an ASCII digit. *)
Definition starts_with_digit (s : str) : bool :=
  match s with
  | c :: _ => is_digit c
  | [] => false
  end.


(** [x] rounded to two fractional digits, as a float: the float nearest to
    [cents x / 100] with the sign of [x]. *)
Definition round2 (x : float) : float := dec2float (fsign x) (cents x) (-2).

(** [c] is an integer nearest to [|x| * 100]. *)
Definition nearest_cents (x : float) (c : N) : Prop :=
  match x with
  | S754_zero _ => c = 0
  | S754_finite _ m (Zneg k) =>
      (2 * Z.abs (Z.of_N c * Zpos (2 ^ k) - 100 * Zpos m) <= Zpos (2 ^ k))%Z
  | S754_finite _ m e => Z.of_N c = (100 * Zpos m * 2 ^ e)%Z
  | _ => False
  end.

(** The decimal digits of [n], least significant first. *)
Definition digits_of (n : N) : list N :=
  digits_le (S (N.to_nat (N.log2 n))) n.


(** What a record's amount is after it was written with two decimals and
    read again. *)
Definition stored (x : float) : float :=
  if isfinite x then round2 x else x.

(** Replacing one character by another. *)
Definition sub_char (c b : char) (x : char) : char := if x =? c then b else x.

(** The characters of a formatted finite amount. *)
Definition numeric_char (c : char) : bool :=
  is_digit c || (c =? DOT) || (c =? COMMA) || (c =? MINUS).

Definition sign_text (x : float) : str := if fsign x then [MINUS] else [].

(** The digits before the point, least significant first, and the two
    digits after it. *)
Definition int_digits (x : float) : str :=
  List.map digit_char (digits_of (cents x / 100)).

Definition frac_digits (x : float) : str :=
  [digit_char ((cents x mod 100) / 10); digit_char (cents x mod 10)].


(** *** The reader seen character by character

    The lines of a file, each followed by the end-of-line mark, form one
    sequence of marks and characters; [tokens] produces it directly from the
    text.  The state says where in the current line the text stands. *)
Inductive line_state := AtStart | Mid | AfterCR.

Fixpoint tokens (ls : line_state) (s : str) : list (option char) :=
  match s with
  | [] => match ls with AtStart => [] | _ => [None] end
  | c :: r =>
      (match ls with
       | AfterCR => if c =? LF then [] else [None]
       | _ => []
       end)
        ++ Some c
        :: (if c =? LF then None :: tokens AtStart r
            else if c =? CR then tokens AfterCR r
            else tokens Mid r)
  end.

Fixpoint feed (r : reader) (ts : list (option char)) : rows_read :=
  match ts with
  | [] => end_of_input r
  | Some c :: ts' =>
      match parse_process_char r (Some c) with
      | Some r' => feed r' ts'
      | None => ([], false)
      end
  | None :: ts' =>
      match parse_process_char r None with
      | Some r' =>
          match state r' with
          | START_RECORD => push (rev (fields r')) (feed parse_reset ts')
          | _ => feed r' ts'
          end
      | None => ([], false)
      end
  end.

(** The reader in the state [st] that has collected [acc] and holds the
    fields [flds]. *)
Definition rd (st : parser_state) (acc : str) (flds : list str) : reader :=
  {| state := st; field := acc; field_len := len acc; fields := flds |}.

(** Where the text stands after the characters [cur] of a line. *)
Definition line_state_of (cur : str) : line_state :=
  match cur with [] => AtStart | _ :: _ => Mid end.

(** The record as it is read back from the file. *)
Definition stored_record (e : Expense) : Expense :=
  {| date := date e; category := category e; description := description e;
     amount := stored (amount e) |}.

(** Appending the records one after the other. *)
Fixpoint append_all (t : ExpenseTracker) (f : disk) (es : list Expense)
  : result (ExpenseTracker * disk) :=
  match es with
  | [] => Ok (t, f)
  | e :: es' => r <- add_expense t e ;; append_all (fst r) (snd r) es'
  end.

(** A ledger of one record, for closed examples. *)
Definition one_record (d c ds : string) (a : float) : ExpenseTracker :=
  {| filename := lit "expenses.csv";
     expenses := [ {| date := lit d; category := lit c;
                      description := lit ds; amount := a |} ] |}.


(** ** The remaining functions of the script *)

(** *** Text layout *)

(** [f"{s:<{w}}"] and [f"{s:>{w}}"]: padding with spaces, never cutting. *)
Definition ljust (w : N) (s : str) : str :=
  s ++ repeat SPACE (N.to_nat (w - len s)).

Definition rjust (w : N) (s : str) : str :=
  repeat SPACE (N.to_nat (w - len s)) ++ s.

(** [Expense.__str__] *)
Definition Expense_str (e : Expense) : str :=
  date e ++ lit " | " ++ ljust 15 (category e) ++ lit " | "
    ++ ljust 30 (description e) ++ lit " | $"
    ++ rjust 8 (fmt_fixed2 false (amount e)).

(** The ANSI colour sequences. *)
Definition ESC : char := 27.
Definition RESET : str := ESC :: lit "[0m".
Definition GREEN : str := ESC :: lit "[92m".
Definition YELLOW : str := ESC :: lit "[93m".
Definition BLUE : str := ESC :: lit "[94m".
Definition PURPLE : str := ESC :: lit "[95m".
Definition ORANGE : str := ESC :: lit "[38;5;214m".

Definition SEP : str := lit " | ".

(** One table line of [view_expenses] for the record [exp] at position [i]. *)
Definition view_row (w : widths) (i : N) (exp : Expense) : str :=
  (PURPLE ++ ljust (nr_w w) (str_of_N i) ++ RESET) ++ SEP
    ++ (PURPLE ++ ljust (date_w w) (date exp) ++ RESET) ++ SEP
    ++ (GREEN ++ ljust (cat_w w) (category exp) ++ RESET) ++ SEP
    ++ (BLUE ++ ljust (desc_w w) (description exp) ++ RESET) ++ SEP
    ++ (ORANGE ++ rjust (amt_w w) (format_amount (amount exp)) ++ RESET).

(** [enumerate(l, start=i)] mapped with [f]. *)
Fixpoint map_enumerate {A B} (f : N -> A -> B) (i : N) (l : list A) : list B :=
  match l with
  | [] => []
  | a :: r => f i a :: map_enumerate f (i + 1) r
  end.

(** [ExpenseTracker.view_expenses]: the printed lines, one per [print]. *)
Definition view_expenses (t : ExpenseTracker) : list str :=
  match view_widths t with
  | None => [lit "Noch keine Ausgaben erfasst."]
  | Some w =>
      let header :=
        ljust (nr_w w) (lit "Nr.") ++ SEP
          ++ ljust (date_w w) (lit "Datum") ++ SEP
          ++ ljust (cat_w w) (lit "Kategorie") ++ SEP
          ++ ljust (desc_w w) (lit "Beschreibung") ++ SEP
          ++ rjust (amt_w w) (lit "Betrag") in
      let rule := repeat MINUS (N.to_nat (total_width w)) in
      let total_label_width :=
        nr_w w + 3 + date_w w + 3 + cat_w w + 3 + desc_w w in
      [LF :: header; rule]
        ++ map_enumerate (view_row w) 1 (expenses t)
        ++ [rule;
            YELLOW ++ ljust total_label_width (lit "Gesamteinahmen:")
              ++ RESET ++ [SPACE] ++ ORANGE
              ++ rjust (amt_w w) (format_amount (get_total t)) ++ RESET]
  end.

(** *** Searching *)

(** [str.lower], which follows the Unicode case tables. *)
Variable str_lower : str -> str.

Definition category_matches (t : ExpenseTracker) (name : str)
  : list Expense :=
  filter (fun exp => str_eqb (str_lower (category exp)) (str_lower name))
         (expenses t).

Definition date_matches (t : ExpenseTracker) (day : str) : list Expense :=
  filter (fun exp => str_eqb (date exp) day) (expenses t).

Definition print_results (results : list Expense) : list str :=
  List.map Expense_str results
    ++ match results with
       | [] => [lit "No matching expenses found."]
       | _ :: _ => []
       end.

(** [ExpenseTracker.search_by_category]: the printed lines. *)
Definition search_by_category (t : ExpenseTracker) (name : str) : list str :=
  (LF :: lit "Expenses in category '" ++ name ++ lit "':")
    :: print_results (category_matches t name).

(** [ExpenseTracker.search_by_date]: the printed lines. *)
Definition search_by_date (t : ExpenseTracker) (day : str) : list str :=
  (LF :: lit "Expenses on date '" ++ day ++ lit "':")
    :: print_results (date_matches t day).


(** *** Login *)

(** What [get_password_masked] does with the keys pressed so far: it
    returns the text and leaves the keys after Enter, it is interrupted
    by Ctrl-C, or it waits for more keys. *)
Inductive pw_result :=
| Entered (pw : str) (rest : list char)
| Interrupted
| Waiting.

(** The erase keys: "\x08" under Windows, "\x7f" and "\b" elsewhere. *)
Definition is_erase (windows : bool) (ch : char) : bool :=
  if windows then ch =? 8 else (ch =? 127) || (ch =? 8).

(** The loop of [get_password_masked]; [pw_chars] holds the characters
    typed so far, the last one first. *)
Fixpoint read_password (windows : bool) (pw_chars : str) (keys : list char)
  : pw_result :=
  match keys with
  | [] => Waiting
  | ch :: keys' =>
      if (ch =? CR) || (ch =? LF) then Entered (rev pw_chars) keys'
      else if ch =? 3 then Interrupted
      else if is_erase windows ch then
        match pw_chars with
        | [] => read_password windows pw_chars keys'
        | _ :: pw_chars' => read_password windows pw_chars' keys'
        end
      else read_password windows (ch :: pw_chars) keys'
  end.

(** [get_password_masked] *)
Definition get_password_masked (windows : bool) (keys : list char)
  : pw_result :=
  read_password windows [] keys.


(** [r.get(k) or ""] *)
Definition get_or_empty (r : dict (option str)) (k : str) : str :=
  match dict_get k r with
  | Some (Some v) => v
  | _ => []
  end.

(** The file [load_users] creates when there is none. *)
Definition default_users_text : str :=
  lit "username,password" ++ [LF] ++ lit "admin,1234" ++ [LF]
    ++ lit "user,userpass" ++ [LF].

(** One round of the loop of [load_users]. *)
Definition add_user (users : dict str) (r : dict (option str)) : dict str :=
  let u := strip (get_or_empty r (lit "username")) in
  let p := strip (get_or_empty r (lit "password")) in
  match u with
  | [] => users
  | _ :: _ => dict_set u p users
  end.

(** [load_users]: the table and the file afterwards.  The file is given
    by the text it holds; a file whose bytes are no UTF-8 text is no [disk]
    value (the source raises [UnicodeDecodeError] for it). *)
Definition load_users (f : disk) : result (dict str * disk) :=
  let text := match f with Some text => text | None => default_users_text end in
  let rows := read_rows parse_reset (file_lines text) in
  let users := fold_left add_user (dict_reader (fst rows)) [] in
  if snd rows then Ok (users, Some text) else Raise CsvError.

(** *** Deleting from the menu *)

(** [str.isdigit] on one character, from the Unicode tables, and [int(s)]. *)
Variable isdigit : char -> bool.
Variable int_of_str : str -> result Z.

Definition str_isdigit (s : str) : bool :=
  match s with
  | [] => false
  | _ :: _ => forallb isdigit s
  end.

(** The text choice "7" compares the typed one with. *)
Definition DELETE_KEY : str := lit "654321!".

(** Choice "7" of [main_menu] with the line typed as number and the
    text that [get_password_masked] returned: the tracker and the file
    afterwards. *)
Definition menu_delete (t : ExpenseTracker) (f : disk) (num_input pw : str)
  : result (ExpenseTracker * disk) :=
  let num_input := strip num_input in
  if negb (str_isdigit num_input) then Ok (t, f)
  else
    num <- int_of_str num_input ;;
    if negb (str_eqb pw DELETE_KEY) then Ok (t, f)
    else
      r <- delete_entry t f num ;;
      Ok (snd (fst r), snd r).


(** A key that [get_password_masked] takes as a character of the text. *)
Definition plain_key (windows : bool) (ch : char) : bool :=
  negb ((ch =? CR) || (ch =? LF) || (ch =? 3) || is_erase windows ch).



(** *** Files that were not written by the script *)

(** A row of four cells, the amount still as text. *)
Record raw_row := {
  raw_date : str;
  raw_category : str;
  raw_description : str;
  raw_amount : str
}.

Definition raw_fields (r : raw_row) : list str :=
  [raw_date r; raw_category r; raw_description r; raw_amount r].

(** The file with the header line and one line per row. *)
Definition raw_file (rows : list raw_row) : str :=
  header_text
    ++ List.concat (List.map (fun r => csv_writerow (raw_fields r)) rows).

(** [float(a)] succeeds. *)
Definition is_float (a : str) : bool :=
  match float_of_str a with
  | Ok _ => true
  | Raise _ => false
  end.

(** The record of a row whose amount is a float. *)
Definition expense_of_raw (r : raw_row) : Expense :=
  {| date := raw_date r; category := raw_category r;
     description := raw_description r;
     amount := match float_of_str (raw_amount r) with
               | Ok x => x
               | Raise _ => fzero
               end |}.

(** White space and the currency sign. *)
Definition blank_char (c : char) : bool := isspace c || (c =? EURO).


(** *** The limits of the reader *)

(** A text that every reader takes as a field: it is within
    [FIELD_LIMIT] and has no NUL character, which the reader refuses before
    Python 3.11 and takes as any other character since; the reader above
    is the later one. *)
Definition plain_text (s : str) : bool :=
  (len s <=? FIELD_LIMIT) && forallb (fun c => negb (c =? 0)) s.

(** The four cells written for a record are such texts. *)
Definition plain_record (e : Expense) : bool :=
  forallb plain_text (row_fields e).

(** The texts of a record can be written to the file. *)
Definition encodable_record (e : Expense) : bool :=
  encodable (date e) && encodable (category e) && encodable (description e).

Definition plain_row (r : raw_row) : bool := forallb plain_text (raw_fields r).

Definition plain_file (f : disk) : bool :=
  match f with
  | Some text => plain_text text
  | None => true
  end.


(** *** The boxes of the login screen and of the menu *)

Definition CYAN : str := ESC :: lit "[96m".
Definition MAGENTA : str := ESC :: lit "[95m".

(** [s.center(w)]: spaces on both sides, never cutting; of an odd number
    of spaces the left side gets the greater half when [w] is odd. *)
Definition center (w : N) (s : str) : str :=
  if w <=? len s then s
  else
    let marg := w - len s in
    let left := marg / 2 + N.land (N.land marg w) 1 in
    repeat SPACE (N.to_nat left) ++ s ++ repeat SPACE (N.to_nat (marg - left)).

(** [str(z)] for an integer [z] *)
Definition str_of_Z (z : Z) : str :=
  match z with
  | Zneg p => MINUS :: str_of_N (Npos p)
  | _ => str_of_N (Z.to_N z)
  end.

Fixpoint is_prefix (p s : str) : bool :=
  match p, s with
  | [], _ => true
  | x :: p', y :: s' => (x =? y) && is_prefix p' s'
  | _ :: _, [] => false
  end.

(** [s.replace(pat, by)] for a pattern [pat] that is not empty: the
    occurrences are taken from left to right and do not overlap; [skip]
    counts the characters of the current occurrence still to pass over. *)
Fixpoint replace_sub (pat by_ : str) (skip : nat) (s : str) : str :=
  match s with
  | [] => []
  | c :: r =>
      match skip with
      | S k => replace_sub pat by_ k r
      | O =>
          if is_prefix pat s
          then by_ ++ replace_sub pat by_ (List.length pat - 1) r
          else c :: replace_sub pat by_ 0 r
      end
  end.

Definition replace_str (pat by_ s : str) : str := replace_sub pat by_ 0 s.

(** The entries of [TEXTS] that the two boxes print, for "de" and "en". *)
Definition both (de en : str) : dict str := [(lit "de", de); (lit "en", en)].

Definition MESSAGES : dict (dict str) :=
  [ (lit "title",
     both (lit "Personal Expense Tracker") (lit "Personal Expense Tracker"));
    (lit "opt1",
     both (lit "Neuen Eintrag hinzuf" ++ [252] ++ lit "gen")
          (lit "Add new expense"));
    (lit "opt2", both (lit "Alle Ausgaben anzeigen") (lit "View all expenses"));
    (lit "opt3", both (lit "Nach Kategorie suchen") (lit "Search by category"));
    (lit "opt4", both (lit "Nach Datum suchen") (lit "Search by date"));
    (lit "opt5",
     both (lit "Sprache w" ++ [228] ++ lit "hlen (Deutsch / English)")
          (lit "Choose language (Deutsch / English)"));
    (lit "opt6", both (lit "Beenden") (lit "Exit"));
    (lit "opt7",
     both (lit "Eintrag l" ++ [246] ++ lit "schen") (lit "Delete entry"));
    (lit "login_user", both (lit "Benutzername:") (lit "Username:"));
    (lit "login_pw", both (lit "Passwort:") (lit "Password:")) ].

(** [TEXTS[key][lang]] for these entries *)
Definition message (key lang : str) : result str :=
  _ <- texts key ;;
  match dict_get key MESSAGES with
  | None => Raise KeyError
  | Some d =>
      match dict_get lang d with
      | None => Raise KeyError
      | Some v => Ok v
      end
  end.

Definition known_lang (lang : str) : bool :=
  str_eqb lang (lit "de") || str_eqb lang (lit "en").

(** The box of [show_login_screen] for the three texts: the printed
    lines. *)
Definition login_lines (title login_user login_pw : str)
    (attempts : option Z) : list str :=
  [title]
    ++ match attempts with
       | Some a => [lit "Versuche verbleibend: " ++ str_of_Z a]
       | None => []
       end
    ++ [[]; ljust 20 login_user; ljust 20 login_pw; []].

Definition login_border (width : N) : str :=
  CYAN ++ lit "+" ++ repeat MINUS (N.to_nat width) ++ lit "+" ++ RESET.

Definition login_row (width : N) (l : str) : str :=
  CYAN ++ lit "|" ++ RESET ++ lit " " ++ center (width - 2) l ++ lit " "
    ++ CYAN ++ lit "|" ++ RESET.

Definition login_box (title login_user login_pw : str)
    (attempts : option Z) : list str :=
  let lines := login_lines title login_user login_pw attempts in
  let width := N.max 60 (max_default 0 (List.map len lines)) + 8 in
  [LF :: login_border width]
    ++ List.map (login_row width) lines
    ++ [login_border width].

(** [show_login_screen]: the printed lines. *)
Definition show_login_screen (lang : str) (attempts : option Z)
  : result (list str) :=
  title <- message (lit "title") lang ;;
  login_user <- message (lit "login_user") lang ;;
  login_pw <- message (lit "login_pw") lang ;;
  Ok (login_box title login_user login_pw attempts).

(** The line "Angemeldet: ..." of the menu, when a user is given and the
    name is not empty. *)
Definition logged_in (user : option str) : option str :=
  match user with
  | Some (c :: u) => Some (lit "Angemeldet: " ++ c :: u)
  | _ => None
  end.

Definition menu_border (width : N) : str :=
  MAGENTA ++ lit "+" ++ repeat MINUS (N.to_nat width) ++ lit "+" ++ RESET.

Definition menu_row (inner : str) : str :=
  MAGENTA ++ lit "|" ++ RESET ++ inner ++ MAGENTA ++ lit "|" ++ RESET.

(** The text of an option as it is measured. *)
Definition option_text (nt : str * str) : str :=
  lit "  " ++ fst nt ++ lit ". " ++ snd nt.

(** The coloured line of an option, filled up to [width]. *)
Definition option_row (width : N) (nt : str * str) : str :=
  let line := lit "  " ++ GREEN ++ fst nt ++ RESET ++ lit ". " ++ snd nt in
  let padding :=
    repeat SPACE
      (N.to_nat (width - len (replace_str RESET [] (replace_str GREEN [] line)))) in
  menu_row (line ++ padding).

Definition menu_width (title : str) (options : list (str * str))
    (user : option str) : N :=
  N.max (N.max (len title)
               (match logged_in user with
                | Some l => len l
                | None => 0
                end))
        (max_default 0 (List.map (fun nt => len (option_text nt)) options))
    + 6.

Definition menu_box (title : str) (options : list (str * str))
    (user : option str) : list str :=
  let width := menu_width title options user in
  [LF :: menu_border width;
   menu_row (center width title);
   menu_row (repeat MINUS (N.to_nat width))]
    ++ match logged_in user with
       | Some l => [menu_row (center width l);
                    menu_row (repeat MINUS (N.to_nat width))]
       | None => []
       end
    ++ List.map (option_row width) options.

(** [show_main_menu]: the printed lines. *)
Definition show_main_menu (user : option str) (lang : str)
  : result (list str) :=
  title <- message (lit "title") lang ;;
  options <- mapM (fun nk : str * str =>
                     t <- message (snd nk) lang ;; Ok (fst nk, t))
                  [(lit "1", lit "opt1"); (lit "2", lit "opt2");
                   (lit "3", lit "opt3"); (lit "4", lit "opt4");
                   (lit "5", lit "opt5"); (lit "6", lit "opt6");
                   (lit "7", lit "opt7")] ;;
  Ok (menu_box title options user).




(** * Properties *)

Unset Implicit Arguments.

(** ** Basic facts *)

Lemma str_eqb_eq a b : str_eqb a b = true <-> a = b.
Proof.
  revert b; induction a as [|x a IH]; intros [|y b]; simpl; split;
    try discriminate; try reflexivity; intro H.
  - apply andb_true_iff in H as [H1 H2].
    apply N.eqb_eq in H1. apply IH in H2. congruence.
  - injection H as -> ->. rewrite N.eqb_refl. simpl. now apply IH.
Qed.

Lemma str_eqb_refl a : str_eqb a a = true.
Proof. now apply str_eqb_eq. Qed.

Lemma str_eqb_neq a b : str_eqb a b = false <-> a <> b.
Proof.
  split.
  - intros H E. apply str_eqb_eq in E. congruence.
  - intro H. destruct (str_eqb a b) eqn:E; [|reflexivity].
    apply str_eqb_eq in E. contradiction.
Qed.

Lemma mapM_ok {A B} (f : A -> result B) (g : A -> B) l :
  (forall a, In a l -> f a = Ok (g a)) -> mapM f l = Ok (List.map g l).
Proof.
  induction l as [|a l IH]; intro H; simpl; [reflexivity|].
  rewrite (H a (or_introl eq_refl)). simpl.
  rewrite IH by (intros; apply H; now right). reflexivity.
Qed.

Lemma len_app (a b : str) : len (a ++ b) = len a + len b.
Proof. unfold len. rewrite length_app. lia. Qed.

Lemma len_cons (c : char) (a : str) : len (c :: a) = 1 + len a.
Proof. unfold len. cbn [List.length]. lia. Qed.

Lemma len_repeat (c : char) (n : N) : len (repeat c (N.to_nat n)) = n.
Proof. unfold len. rewrite repeat_length. lia. Qed.

Lemma mapM_all_or_nothing {A B} (f : A -> result B) (ok : A -> bool)
    (g : A -> B) (e : exn) (l : list A) :
  (forall a, f a = if ok a then Ok (g a) else Raise e) ->
  mapM f l = if forallb ok l then Ok (List.map g l) else Raise e.
Proof.
  intro H. induction l as [|a l IH]; [reflexivity|].
  cbn [mapM forallb List.map]. rewrite H.
  destruct (ok a); cbn [bind andb]; [|reflexivity].
  rewrite IH. destruct (forallb ok l); reflexivity.
Qed.

(** ** C1 *)

(** C1: the four example inputs of [parse_amount] give 1.5, 1234.5, 1234.5
    and 1234.5. *)
Theorem C1_parse_examples :
  parse_amount (Some (lit "1,50")) = Ok F1_5 /\
  parse_amount (Some (lit "1.234,50")) = Ok F1234_5 /\
  parse_amount (Some (lit "1234.50")) = Ok F1234_5 /\
  parse_amount (Some (EURO :: lit " 1.234,50")) = Ok F1234_5 /\
  float_is F1_5 3 2 = true /\
  float_is F1234_5 2469 2 = true.
Proof. repeat split; vm_compute; reflexivity. Qed.

(** ** C8 *)

Lemma entry_amount_invalid (m : float) (sign : str) :
  str_eqb (strip sign) (lit "-") = false ->
  str_eqb (strip sign) (lit "+") = false ->
  entry_amount m sign = Raise KeyError.
Proof.
  intros Hm Hp. unfold entry_amount. rewrite Hm, Hp. reflexivity.
Qed.

(** C8: the stored amount is [|m|] for "+" and [-|m|] for "-"; for any other
    answer the lookup of the missing text "sign_invalid" raises [KeyError]
    before the default is applied, so nothing is stored. *)
Theorem C8_entry_amount (m : float) (sign : str) :
  entry_amount m sign =
    if str_eqb (strip sign) (lit "-") then Ok (fneg (fabs m))
    else if str_eqb (strip sign) (lit "+") then Ok (fabs m)
    else Raise KeyError.
Proof.
  unfold entry_amount.
  destruct (str_eqb (strip sign) (lit "-")) eqn:Em.
  - rewrite orb_true_r. simpl. rewrite Em. reflexivity.
  - destruct (str_eqb (strip sign) (lit "+")) eqn:Ep; simpl.
    + rewrite Em. reflexivity.
    + reflexivity.
Qed.

(** With a valid date and amount, an answer other than "+" and "-" ends
    choice "1" with [KeyError]: no record is appended. *)
Lemma menu_add_invalid_sign t f d c ds a sign m :
  valid_date (strip d) = true ->
  parse_amount (Some (strip a)) = Ok m ->
  str_eqb (strip sign) (lit "-") = false ->
  str_eqb (strip sign) (lit "+") = false ->
  menu_add t f d c ds a sign = Raise KeyError.
Proof.
  intros Hd Ha Hm Hp. unfold menu_add.
  rewrite Hd, Ha. simpl. rewrite entry_amount_invalid by assumption.
  reflexivity.
Qed.


(** ** C7 *)

Lemma fold_max_is_max (r : list N) (x : N) :
  is_max (fold_left N.max r x) (x :: r).
Proof.
  revert x; induction r as [|y r IH]; intro x; simpl.
  - split; [now left|]. intros z [<-|[]]. lia.
  - destruct (IH (N.max x y)) as [Hin Hub]. split.
    + destruct Hin as [E|Hin].
      * rewrite <- E. destruct (N.max_spec x y) as [[_ ->]|[_ ->]];
          [right; now left | now left].
      * right; now right.
    + intros z [<-|[<-|Hz]].
      * specialize (Hub (N.max x y) (or_introl eq_refl)). lia.
      * specialize (Hub (N.max x y) (or_introl eq_refl)). lia.
      * apply Hub. now right.
Qed.

Lemma max_default_is_max (h d : N) (l : list N) :
  l <> [] -> is_max (N.max h (max_default d l)) (h :: l).
Proof.
  destruct l as [|x r]; [congruence|]. intros _. simpl max_default.
  destruct (fold_max_is_max r x) as [Hin Hub]. split.
  - destruct (N.max_spec h (fold_left N.max r x)) as [[_ ->]|[_ ->]].
    + now right.
    + now left.
  - intros z [<-|Hz]; [lia|]. specialize (Hub z Hz). lia.
Qed.

Lemma digits_le_length (fuel : nat) (n : N) :
  n < 2 ^ N.of_nat fuel -> fuel <> O ->
  let k := List.length (digits_le fuel n) in
  (1 <= k)%nat /\ n < 10 ^ N.of_nat k /\
  (10 <= n -> 10 ^ (N.of_nat k - 1) <= n) /\ (n < 10 -> k = 1%nat).
Proof.
  revert n; induction fuel as [|f IH]; intros n Hn Hf; [congruence|].
  cbn [digits_le]. destruct (n <? 10) eqn:E.
  - apply N.ltb_lt in E. cbn. repeat split; lia.
  - apply N.ltb_ge in E.
    assert (Hq : n / 10 < 2 ^ N.of_nat f).
    { apply N.Div0.div_lt_upper_bound.
      rewrite Nat2N.inj_succ, N.pow_succ_r' in Hn. lia. }
    assert (Hf' : f <> O).
    { intros ->. simpl in Hq.
      assert (n / 10 = 0) by lia.
      apply N.div_small_iff in H; lia. }
    destruct (IH (n / 10) Hq Hf') as (H1 & H2 & H3 & H4).
    cbn [List.length]. set (k := List.length (digits_le f (n / 10))) in *.
    assert (Hdm := N.div_mod n 10 ltac:(lia)).
    assert (Hm := N.mod_lt n 10 ltac:(lia)).
    repeat split.
    + lia.
    + rewrite Nat2N.inj_succ, N.pow_succ_r'. lia.
    + intros _. replace (N.of_nat (S k) - 1) with (N.of_nat k) by lia.
      destruct (N.lt_ge_cases (n / 10) 10) as [Hs|Hb].
      * rewrite (H4 Hs). simpl. lia.
      * specialize (H3 Hb).
        replace (N.of_nat k) with (N.succ (N.of_nat k - 1)) by lia.
        rewrite N.pow_succ_r'.
        set (P := 10 ^ (N.of_nat k - 1)) in *. clearbody P.
        clear - H3 Hdm.
        set (q := n / 10) in *. set (r := n mod 10) in *. clearbody q r. lia.
    + lia.
Qed.

Lemma str_of_N_len_spec (n : N) :
  let k := List.length (str_of_N n) in
  (1 <= k)%nat /\ n < 10 ^ N.of_nat k /\
  (10 <= n -> 10 ^ (N.of_nat k - 1) <= n) /\ (n < 10 -> k = 1%nat).
Proof.
  unfold str_of_N. rewrite length_rev, length_map.
  apply digits_le_length; [|discriminate].
  rewrite Nat2N.inj_succ, N2Nat.id.
  destruct n as [|p]; [reflexivity|].
  apply N.log2_spec. lia.
Qed.

Lemma str_of_N_len_mono (a b : N) :
  a <= b -> len (str_of_N a) <= len (str_of_N b).
Proof.
  intro Hab. unfold len.
  destruct (str_of_N_len_spec a) as (A1 & A2 & A3 & A4).
  destruct (str_of_N_len_spec b) as (B1 & B2 & B3 & B4).
  set (ka := List.length (str_of_N a)) in *.
  set (kb := List.length (str_of_N b)) in *.
  destruct (Nat.le_gt_cases ka kb) as [H|H]; [lia|].
  exfalso.
  destruct (N.lt_ge_cases a 10) as [Hs|Hb]; [specialize (A4 Hs); lia|].
  specialize (A3 Hb).
  assert (10 ^ N.of_nat kb <= 10 ^ (N.of_nat ka - 1))
    by (apply N.pow_le_mono_r; lia).
  lia.
Qed.

Lemma nr_cells_is_max (n : nat) :
  n <> O ->
  is_max (N.max (len (lit "Nr.")) (len (str_of_N (N.of_nat n))))
         (len (lit "Nr.") :: List.map len (nr_cells n)).
Proof.
  intro Hn. unfold nr_cells. rewrite map_map. split.
  - destruct (N.max_spec (len (lit "Nr.")) (len (str_of_N (N.of_nat n))))
      as [[_ ->]|[_ ->]]; [|now left].
    right. apply in_map_iff. exists n. split; [reflexivity|].
    apply in_seq. lia.
  - intros z [<-|Hz]; [lia|].
    apply in_map_iff in Hz as (i & <- & Hi). apply in_seq in Hi.
    assert (len (str_of_N (N.of_nat i)) <= len (str_of_N (N.of_nat n)))
      by (apply str_of_N_len_mono; lia).
    lia.
Qed.

(** C7 (as the code has it): for a non-empty ledger every column is as wide
    as its widest entry, where the entries are the header label and the
    formatted cells (for the amount column also the formatted total); the
    date column counts the constant 10 in place of its label "Datum". *)
Theorem C7_view_widths (t : ExpenseTracker) :
  expenses t <> [] ->
  exists w,
    view_widths t = Some w /\
    is_max (nr_w w)
      (len (lit "Nr.") :: List.map len (nr_cells (List.length (expenses t)))) /\
    is_max (date_w w) (10 :: List.map (fun e => len (date e)) (expenses t)) /\
    is_max (cat_w w)
      (len (lit "Kategorie")
         :: List.map (fun e => len (category e)) (expenses t)) /\
    is_max (desc_w w)
      (len (lit "Beschreibung")
         :: List.map (fun e => len (description e)) (expenses t)) /\
    is_max (amt_w w) (len (lit "Betrag") :: List.map len (amount_cells t)) /\
    total_width w =
      nr_w w + 3 + date_w w + 3 + cat_w w + 3 + desc_w w + 3 + amt_w w.
Proof.
  intro Hne. unfold view_widths.
  destruct (expenses t) as [|e es] eqn:E; [congruence|].
  eexists. split; [reflexivity|]. cbn [nr_w date_w cat_w desc_w amt_w total_width].
  refine (conj _ (conj _ (conj _ (conj _ (conj _ eq_refl))))).
  - apply nr_cells_is_max. discriminate.
  - apply max_default_is_max. discriminate.
  - apply max_default_is_max. discriminate.
  - apply max_default_is_max. discriminate.
  - unfold amount_cells. rewrite E. apply max_default_is_max.
    destruct es; discriminate.
Qed.


(** ** C6 *)

Lemma dict_get_set {V} (k c : str) (v : V) (d : dict V) :
  dict_get c (dict_set k v d) = if str_eqb c k then Some v else dict_get c d.
Proof.
  induction d as [|[k' v'] d IH]; simpl.
  - reflexivity.
  - destruct (str_eqb k k') eqn:E; simpl.
    + apply str_eqb_eq in E. subst k'.
      destruct (str_eqb c k); reflexivity.
    + destruct (str_eqb c k') eqn:E'.
      * apply str_eqb_eq in E'. subst k'.
        destruct (str_eqb c k) eqn:E2; [|reflexivity].
        apply str_eqb_eq in E2. subst. rewrite str_eqb_refl in E. discriminate.
      * exact IH.
Qed.

Lemma dict_set_keys {V} (k : str) (v : V) (d : dict V) :
  List.map fst (dict_set k v d) =
    if existsb (str_eqb k) (List.map fst d) then List.map fst d
    else List.map fst d ++ [k].
Proof.
  induction d as [|[k' v'] d IH]; simpl; [reflexivity|].
  destruct (str_eqb k k'); simpl; [reflexivity|].
  rewrite IH. destruct (existsb (str_eqb k) (List.map fst d)); reflexivity.
Qed.

Lemma dict_set_NoDup {V} (k : str) (v : V) (d : dict V) :
  NoDup (List.map fst d) -> NoDup (List.map fst (dict_set k v d)).
Proof.
  intro H. rewrite dict_set_keys.
  destruct (existsb (str_eqb k) (List.map fst d)) eqn:E; [exact H|].
  apply NoDup_app; [exact H | constructor; [intros []| constructor] |].
  intros x Hx [<-|[]].
  assert (existsb (str_eqb k) (List.map fst d) = true).
  { apply existsb_exists. exists k. split; [exact Hx | apply str_eqb_refl]. }
  congruence.
Qed.

Lemma dict_get_In {V} (c : str) (v : V) (d : dict V) :
  NoDup (List.map fst d) -> (In (c, v) d <-> dict_get c d = Some v).
Proof.
  induction d as [|[k' v'] d IH]; simpl; intro H.
  - split; [intros [] | discriminate].
  - inversion H as [|? ? Hn Hd]; subst.
    destruct (str_eqb c k') eqn:E.
    + apply str_eqb_eq in E. subst k'. split.
      * intros [E|Hin]; [congruence|].
        exfalso. apply Hn. apply in_map_iff. now exists (c, v).
      * intros [= ->]. now left.
    + apply str_eqb_neq in E. rewrite <- (IH Hd). split.
      * intros [[= -> ->]|Hin]; [congruence | exact Hin].
      * intro. now right.
Qed.

Lemma cat_sum_none c es : existsb (counted c) es = false -> cat_sum c es = fzero.
Proof.
  intro H. unfold cat_sum.
  replace (filter (counted c) es) with (@nil Expense); [reflexivity|].
  symmetry. induction es as [|e es IH]; simpl in *; [reflexivity|].
  apply orb_false_iff in H as [-> H]. now apply IH.
Qed.

Lemma cat_sum_snoc c es e :
  cat_sum c (es ++ [e]) =
    if counted c e then fadd (cat_sum c es) (amount e) else cat_sum c es.
Proof.
  unfold cat_sum. rewrite filter_app. cbn [filter].
  destruct (counted c e).
  - rewrite map_app, fold_left_app. reflexivity.
  - rewrite app_nil_r. reflexivity.
Qed.

Lemma existsb_snoc {A} (p : A -> bool) l a :
  existsb p (l ++ [a]) = existsb p l || p a.
Proof. rewrite existsb_app. simpl. now rewrite orb_false_r. Qed.

(** The dictionary built by the loop of [plot_summary]. *)
Lemma category_totals_spec (es : list Expense) :
  NoDup (List.map fst (category_totals es)) /\
  forall c, dict_get c (category_totals es) =
            if existsb (counted c) es then Some (cat_sum c es) else None.
Proof.
  unfold category_totals.
  induction es as [|e es [IHn IHg]] using rev_ind.
  - split; [constructor | reflexivity].
  - rewrite fold_left_app. cbn [fold_left].
    set (D := fold_left tally es []) in *. unfold tally. cbv zeta.
    destruct (isnan (amount e)) eqn:En.
    + split; [exact IHn|]. intro c. rewrite IHg.
      assert (Hc : counted c e = false)
        by (unfold counted; rewrite En; apply andb_false_r).
      rewrite existsb_snoc, cat_sum_snoc, Hc, orb_false_r. reflexivity.
    + split; [now apply dict_set_NoDup|]. intro c.
      rewrite dict_get_set, existsb_snoc, cat_sum_snoc.
      destruct (str_eqb c (category e)) eqn:E.
      * apply str_eqb_eq in E. subst c.
        assert (Hc : counted (category e) e = true)
          by (unfold counted; rewrite En, str_eqb_refl; reflexivity).
        rewrite Hc, orb_true_r. do 2 f_equal.
        rewrite IHg. destruct (existsb (counted (category e)) es) eqn:Ex.
        -- reflexivity.
        -- symmetry. now apply cat_sum_none.
      * assert (Hc : counted c e = false).
        { unfold counted. apply andb_false_iff. left.
          apply str_eqb_neq. apply str_eqb_neq in E. congruence. }
        rewrite Hc, orb_false_r. apply IHg.
Qed.

Lemma combine_fst_snd {A B} (l : list (A * B)) :
  combine (List.map fst l) (List.map snd l) = l.
Proof. induction l as [|[a b] l IH]; simpl; congruence. Qed.

Lemma filtered_In es c v :
  In (c, v) (filtered (category_totals es)) <->
  survives es c /\ v = cat_sum c es.
Proof.
  destruct (category_totals_spec es) as [Hn Hg].
  unfold filtered. rewrite filter_In. cbn [snd].
  rewrite (@dict_get_In _ c v _ Hn), Hg. unfold survives.
  destruct (existsb (counted c) es); split.
  - intros [[= <-] H]. apply andb_true_iff in H as [H1 H2].
    apply negb_true_iff in H1. auto.
  - intros [(_ & H1 & H2) ->]. split; [reflexivity|].
    rewrite H1, H2. reflexivity.
  - intros [H _]. discriminate.
  - intros [(H & _) _]. discriminate.
Qed.

Lemma charted_iff t c v :
  charted t c v <-> survives (expenses t) c /\ v = cat_sum c (expenses t).
Proof.
  rewrite <- filtered_In. unfold charted, plot_summary.
  destruct (expenses t) as [|e es].
  - split; [intros (? & ? & H & _); discriminate | intros []].
  - destruct (filtered (category_totals (e :: es))) as [|kv F'].
    + split; [intros (? & ? & H & _); discriminate | intros []].
    + split.
      * intros (totals & labels & [= <- <-] & Hin).
        rewrite <- (combine_fst_snd (kv :: F')). exact Hin.
      * intro Hin. eexists _, _. split; [reflexivity|].
        rewrite <- (combine_fst_snd (kv :: F')) in Hin. exact Hin.
Qed.

(** C6 (as the code has it): the chart shows exactly the categories that
    have a record and whose sum, taken over the records of the category in
    ledger order, is not NaN and greater than zero, with that sum as value;
    when no category is left the notice is given and no chart is drawn; the
    entries Food:-20 and Food:-5 give no chart. *)
Theorem C6_plot_summary (t : ExpenseTracker) :
  (forall c v, charted t c v <->
               survives (expenses t) c /\ v = cat_sum c (expenses t)) /\
  ((forall c, ~ survives (expenses t) c) ->
   plot_summary t = NoData \/ plot_summary t = NoPositive) /\
  plot_summary t <> Pie [] [] /\
  (forall fn d1 d2 ds1 ds2,
     plot_summary
       {| filename := fn;
          expenses :=
            [ {| date := d1; category := lit "Food"; description := ds1;
                 amount := dec2float true 20 0 |};
              {| date := d2; category := lit "Food"; description := ds2;
                 amount := dec2float true 5 0 |} ] |} = NoPositive).
Proof.
  split; [intros c v; apply charted_iff|]. split; [|split].
  - intro Hno.
    destruct (plot_summary t) as [| |totals labels] eqn:E; auto.
    exfalso. unfold plot_summary in E.
    destruct (expenses t) as [|e es] eqn:Ee; [discriminate|].
    destruct (filtered (category_totals (e :: es))) as [|[c v] F'] eqn:EF;
      [discriminate|].
    apply (Hno c).
    assert (Hin : In (c, v) (filtered (category_totals (e :: es))))
      by (rewrite EF; now left).
    apply filtered_In in Hin. apply Hin.
  - unfold plot_summary. destruct (expenses t); [discriminate|].
    destruct (filtered _); discriminate.
  - intros. vm_compute. reflexivity.
Qed.


(** ** Counting characters *)

Lemma count_cons c x s :
  count c (x :: s) = ((if (x =? c)%N then 1 else 0) + count c s)%nat.
Proof.
  unfold count. simpl. destruct (N.eq_dec x c) as [->|n].
  - now rewrite N.eqb_refl.
  - apply N.eqb_neq in n. now rewrite n.
Qed.

Lemma count_nil c : count c [] = 0%nat.
Proof. reflexivity. Qed.

Lemma count_app c a b : count c (a ++ b) = (count c a + count c b)%nat.
Proof. apply count_occ_app. Qed.

Lemma count_rev c s : count c (rev s) = count c s.
Proof. apply count_occ_rev. Qed.

Lemma contains_count c s : contains c s = negb (Nat.eqb (count c s) 0).
Proof.
  induction s as [|x s IH]; [reflexivity|].
  simpl contains. rewrite count_cons, IH, (N.eqb_sym c x).
  destruct (x =? c); simpl; [reflexivity|].
  destruct (count c s); reflexivity.
Qed.

Lemma contains_false_count c s : contains c s = false <-> count c s = 0%nat.
Proof.
  rewrite contains_count, negb_false_iff. apply Nat.eqb_eq.
Qed.

Lemma contains_true_count c s : contains c s = true <-> (1 <= count c s)%nat.
Proof.
  rewrite contains_count, negb_true_iff, Nat.eqb_neq. lia.
Qed.

Lemma count_dropwhile (p : char -> bool) c s :
  p c = false -> count c (dropwhile p s) = count c s.
Proof.
  intro Hp. induction s as [|x s IH]; [reflexivity|].
  cbn [dropwhile]. destruct (p x) eqn:E; [|reflexivity].
  rewrite count_cons, IH.
  destruct (x =? c) eqn:Ex; [|reflexivity].
  apply N.eqb_eq in Ex. congruence.
Qed.

Lemma count_rstrip (p : char -> bool) c s :
  p c = false -> count c (rstrip_by p s) = count c s.
Proof.
  intro Hp. unfold rstrip_by.
  now rewrite count_rev, count_dropwhile, count_rev.
Qed.

Lemma count_replace_other c d b s :
  c <> d -> count c b = 0%nat -> count c (replace d b s) = count c s.
Proof.
  intros Hcd Hb. unfold replace.
  induction s as [|x s IH]; [reflexivity|].
  cbn [flat_map]. rewrite count_app, IH, count_cons.
  destruct (x =? d) eqn:E.
  - apply N.eqb_eq in E. subst x. rewrite Hb.
    replace (d =? c) with false; [reflexivity|].
    symmetry. apply N.eqb_neq. congruence.
  - rewrite count_cons, count_nil. lia.
Qed.

Lemma count_replace_into c d s :
  c <> d -> count c (replace d [c] s) = (count c s + count d s)%nat.
Proof.
  intros Hcd. unfold replace.
  induction s as [|x s IH]; [reflexivity|].
  cbn [flat_map]. rewrite count_app, IH, !count_cons.
  destruct (x =? d) eqn:E.
  - apply N.eqb_eq in E. subst x. rewrite count_cons, count_nil, N.eqb_refl.
    replace (d =? c) with false; [lia|].
    symmetry. apply N.eqb_neq. congruence.
  - rewrite count_cons, count_nil. lia.
Qed.

Lemma count_replace_gone c b s :
  count c b = 0%nat -> count c (replace c b s) = 0%nat.
Proof.
  intro Hb. unfold replace.
  induction s as [|x s IH]; [reflexivity|].
  cbn [flat_map]. rewrite count_app, IH.
  destruct (x =? c) eqn:E; [lia|].
  rewrite count_cons, count_nil, E. reflexivity.
Qed.

Lemma replace_absent c b s : count c s = 0%nat -> replace c b s = s.
Proof.
  unfold replace. induction s as [|x s IH]; [reflexivity|].
  rewrite count_cons. cbn [flat_map].
  destruct (x =? c); [discriminate|]. intro H. simpl. f_equal. now apply IH.
Qed.


(** ** What [float] rejects *)

Lemma span_digits_count s ds r c :
  span_digits s = (ds, r) -> is_digit c = false -> count c s = count c r.
Proof.
  intros H Hc. revert ds r H.
  induction s as [|x s IH]; intros ds r H; cbn [span_digits] in H.
  - now injection H as <- <-.
  - destruct (is_digit x) eqn:Ex.
    + destruct (span_digits s) as [ds' r'] eqn:Es. injection H as <- <-.
      rewrite count_cons, (IH _ _ eq_refl).
      destruct (x =? c) eqn:E; [|reflexivity].
      apply N.eqb_eq in E. congruence.
    + now injection H as <- <-.
Qed.

Lemma parse_sign_count s b r c :
  parse_sign s = (b, r) -> c <> PLUS -> c <> MINUS -> count c s = count c r.
Proof.
  intros H Hp Hm. destruct s as [|x s]; cbn [parse_sign] in H.
  - now injection H as <- <-.
  - destruct (x =? MINUS) eqn:E1; [|destruct (x =? PLUS) eqn:E2].
    + injection H as <- <-. rewrite count_cons.
      apply N.eqb_eq in E1. subst x.
      replace (MINUS =? c) with false; [reflexivity|].
      symmetry. apply N.eqb_neq. congruence.
    + injection H as <- <-. rewrite count_cons.
      apply N.eqb_eq in E2. subst x.
      replace (PLUS =? c) with false; [reflexivity|].
      symmetry. apply N.eqb_neq. congruence.
    + now injection H as <- <-.
Qed.

Lemma notnum_inv c :
  notnum c = true ->
  is_digit c = false /\ c <> PLUS /\ c <> MINUS /\ c <> 101 /\ c <> 69.
Proof.
  unfold notnum. rewrite negb_true_iff, !orb_false_iff.
  intros ((((H1 & H2) & H3) & H4) & H5).
  repeat split; try assumption; now apply N.eqb_neq.
Qed.

Lemma parse_exponent_count s e c :
  parse_exponent s = Some e -> notnum c = true -> count c s = 0%nat.
Proof.
  intros H Hc. apply notnum_inv in Hc as (Hd & Hp & Hm & He & HE).
  destruct s as [|x s]; [reflexivity|]. cbn [parse_exponent] in H.
  destruct ((x =? 101) || (x =? 69)) eqn:Ex; [|discriminate].
  destruct (parse_sign s) as [neg r1] eqn:Es.
  destruct (span_digits r1) as [ds r2] eqn:Ed.
  destruct ds as [|d ds]; [discriminate|].
  destruct r2; [|discriminate].
  rewrite count_cons, (parse_sign_count _ _ _ _ Es Hp Hm),
    (span_digits_count _ _ _ _ Ed Hd), count_nil.
  replace (x =? c) with false; [reflexivity|].
  symmetry. apply N.eqb_neq. intros ->.
  apply orb_true_iff in Ex as [E|E]; apply N.eqb_eq in E; congruence.
Qed.

Lemma parse_decimal_count s x c :
  parse_decimal s = Some x -> notnum c = true ->
  (count c s <= if (c =? DOT)%N then 1 else 0)%nat.
Proof.
  intros H Hc. pose proof (notnum_inv _ Hc) as (Hd & Hp & Hm & _).
  unfold parse_decimal in H.
  destruct (parse_sign s) as [neg s1] eqn:Es.
  destruct (span_digits s1) as [ip r] eqn:Ei.
  rewrite (parse_sign_count _ _ _ _ Es Hp Hm), (span_digits_count _ _ _ _ Ei Hd).
  destruct r as [|c0 r1].
  - rewrite count_nil. lia.
  - destruct (c0 =? DOT) eqn:E0.
    + destruct (span_digits r1) as [fp r'] eqn:Ef.
      destruct (ip ++ fp); [discriminate|].
      destruct (parse_exponent r') as [e|] eqn:Ee; [|discriminate].
      rewrite count_cons, (span_digits_count _ _ _ _ Ef Hd),
        (parse_exponent_count _ _ _ Ee Hc).
      apply N.eqb_eq in E0. subst c0. rewrite (N.eqb_sym c DOT).
      destruct (DOT =? c); lia.
    + destruct (ip ++ []); [discriminate|].
      destruct (parse_exponent (c0 :: r1)) as [e|] eqn:Ee; [|discriminate].
      rewrite (parse_exponent_count _ _ _ Ee Hc). lia.
Qed.

Lemma lower_letter x : 97 <= lower x -> 65 <= x.
Proof.
  unfold lower. destruct ((65 <=? x) && (x <=? 90)) eqn:E; [|lia].
  apply andb_true_iff in E as [E _]. apply N.leb_le in E. lia.
Qed.

Lemma count_letters r c :
  forallb (fun y => 97 <=? y) (List.map lower r) = true -> c < 65 ->
  count c r = 0%nat.
Proof.
  intros H Hc. induction r as [|x r IH]; [reflexivity|].
  cbn [List.map forallb] in H. apply andb_true_iff in H as [Hx Hr].
  rewrite count_cons, (IH Hr). apply N.leb_le, lower_letter in Hx.
  replace (x =? c) with false; [reflexivity|].
  symmetry. apply N.eqb_neq. lia.
Qed.

Lemma parse_inf_or_nan_count s x c :
  parse_inf_or_nan s = Some x -> c < 65 -> c <> PLUS -> c <> MINUS ->
  count c s = 0%nat.
Proof.
  intros H Hc Hp Hm. unfold parse_inf_or_nan in H.
  destruct (parse_sign s) as [neg r] eqn:Es.
  rewrite (parse_sign_count _ _ _ _ Es Hp Hm).
  apply count_letters; [|exact Hc].
  destruct (str_eqb (List.map lower r) (lit "inf")) eqn:E1;
    [apply str_eqb_eq in E1; now rewrite E1|].
  destruct (str_eqb (List.map lower r) (lit "infinity")) eqn:E2;
    [apply str_eqb_eq in E2; now rewrite E2|].
  destruct (str_eqb (List.map lower r) (lit "nan")) eqn:E3;
    [apply str_eqb_eq in E3; now rewrite E3|].
  discriminate.
Qed.

Lemma strtod_count u x :
  strtod u = Some x ->
  (count DOT u <= 1)%nat /\ count QUESTION u = 0%nat.
Proof.
  unfold strtod. intro H.
  destruct (parse_decimal u) as [[[neg M] E]|] eqn:Ep.
  - split.
    + apply (parse_decimal_count _ _ DOT Ep). reflexivity.
    + pose proof (parse_decimal_count _ _ QUESTION Ep eq_refl) as Hq.
      simpl in Hq. lia.
  - split.
    + rewrite (parse_inf_or_nan_count _ _ DOT H); [lia | reflexivity | |];
        discriminate.
    + apply (parse_inf_or_nan_count _ _ QUESTION H);
        [reflexivity | |]; discriminate.
Qed.

Lemma strip_underscores_count prev s u c :
  strip_underscores prev s = Some u -> c <> UNDERSCORE ->
  count c u = count c s.
Proof.
  intros H Hc. revert prev u H.
  induction s as [|x s IH]; intros prev u H; cbn [strip_underscores] in H.
  - destruct (prev =? UNDERSCORE); [discriminate|]. now injection H as <-.
  - destruct (x =? UNDERSCORE) eqn:Ex.
    + destruct (is_digit prev); [|discriminate].
      rewrite (IH _ _ H), count_cons.
      apply N.eqb_eq in Ex. subst x.
      replace (UNDERSCORE =? c) with false; [reflexivity|].
      symmetry. apply N.eqb_neq. congruence.
    + destruct ((prev =? UNDERSCORE) && negb (is_digit x)); [discriminate|].
      destruct (strip_underscores x s) as [u'|] eqn:Eu; [|discriminate].
      injection H as <-. rewrite !count_cons, (IH _ _ Eu). reflexivity.
Qed.

Lemma to_ascii_count s :
  (1 <= count QUESTION (to_ascii s))%nat \/
  count DOT (to_ascii s) = count DOT s.
Proof.
  induction s as [|c r IH]; [now right|]. cbn [to_ascii].
  destruct (c <? 127) eqn:Ec.
  - destruct IH as [IH|IH].
    + left. rewrite count_cons. lia.
    + right. rewrite !count_cons. lia.
  - apply N.ltb_ge in Ec.
    assert (Hc : (c =? DOT) = false) by (apply N.eqb_neq; unfold DOT; lia).
    destruct (isspace c).
    + destruct IH as [IH|IH].
      * left. rewrite count_cons. lia.
      * right. rewrite !count_cons, Hc, IH. reflexivity.
    + destruct (todecimal c) as [d|].
      * destruct IH as [IH|IH].
        -- left. rewrite count_cons. lia.
        -- right. rewrite !count_cons, Hc, IH.
           replace (48 + d =? DOT) with false; [reflexivity|].
           symmetry. apply N.eqb_neq. unfold DOT. lia.
      * left. reflexivity.
Qed.

(** A text with two periods is no float. *)
Lemma float_of_str_two_dots s :
  (2 <= count DOT s)%nat -> float_of_str s = Raise ValueError.
Proof.
  intro H. unfold float_of_str.
  set (a := transform_decimal_and_space s).
  assert (Ha : (1 <= count QUESTION a)%nat \/ count DOT a = count DOT s).
  { unfold a, transform_decimal_and_space.
    destruct (forallb (fun c => c <? 128) s);
      [now right | apply to_ascii_count]. }
  set (t := rstrip_by c_isspace (lstrip_by c_isspace a)).
  assert (Ht : forall c, c_isspace c = false -> count c t = count c a).
  { intros c Hc. unfold t, lstrip_by.
    now rewrite count_rstrip, count_dropwhile. }
  assert (Hu : forall u, (if contains UNDERSCORE t
                          then strip_underscores 0 t else Some t) = Some u ->
                         forall c, c <> UNDERSCORE -> count c u = count c t).
  { intros u Hu c Hc. destruct (contains UNDERSCORE t).
    - now apply (strip_underscores_count _ _ _ _ Hu).
    - now injection Hu as <-. }
  destruct (if contains UNDERSCORE t then strip_underscores 0 t else Some t)
    as [u|]; [|reflexivity].
  destruct (strtod u) as [x|] eqn:Ex; [|reflexivity].
  exfalso. apply strtod_count in Ex as [E1 E2].
  rewrite (Hu u eq_refl DOT), (Ht DOT) in E1 by (reflexivity || discriminate).
  rewrite (Hu u eq_refl QUESTION), (Ht QUESTION) in E2
    by (reflexivity || discriminate).
  lia.
Qed.


(** ** C9 and C2 *)

Lemma parse_amount_unfold s :
  parse_amount (Some s) =
    match clean s with
    | [] => Raise ValueError
    | _ :: _ =>
        float_of_str
          (if contains DOT (clean s) && contains COMMA (clean s)
           then replace COMMA [DOT] (replace DOT [] (clean s))
           else if contains COMMA (clean s) && negb (contains DOT (clean s))
                then replace COMMA [DOT] (clean s)
                else clean s)
    end.
Proof.
  unfold parse_amount. fold (clean s). destruct (clean s); reflexivity.
Qed.

(** C9: a text whose cleaned form has two or more commas and no period is
    rejected with [ValueError]: every comma becomes a period, and a text
    with several periods is no float. *)
Theorem C9_multi_comma_rejected (s : str) :
  (2 <= count COMMA (clean s))%nat ->
  contains DOT (clean s) = false ->
  parse_amount (Some s) = Raise ValueError.
Proof.
  intros Hc Hd. rewrite parse_amount_unfold.
  destruct (clean s) as [|x r] eqn:E; [reflexivity|].
  rewrite Hd. cbn [andb negb].
  assert (Hcc : contains COMMA (x :: r) = true)
    by (apply contains_true_count; lia).
  rewrite Hcc. cbn [andb].
  apply float_of_str_two_dots.
  rewrite count_replace_into by discriminate.
  apply contains_false_count in Hd. lia.
Qed.

Lemma spec_last_comma_one s :
  count COMMA s = 1%nat -> spec_last_comma s = replace COMMA [DOT] s.
Proof.
  induction s as [|c r IH]; [discriminate|].
  rewrite count_cons. cbn [spec_last_comma]. unfold replace. cbn [flat_map].
  destruct (c =? COMMA) eqn:E; intro H.
  - assert (H0 : count COMMA r = 0%nat) by lia.
    rewrite (proj2 (contains_false_count COMMA r) H0).
    fold (replace COMMA [DOT] r). rewrite replace_absent by exact H0.
    reflexivity.
  - fold (replace COMMA [DOT] r). rewrite IH by exact H. reflexivity.
Qed.

(** C2 (as the code has it): when the cleaned text has a period and a comma,
    all periods are removed and every comma becomes a period before the
    text is read as a float; with exactly one comma this is the rule of the
    specification, and with more than one comma the text is rejected. *)
Theorem C2_both_separators (s : str) :
  contains DOT (clean s) = true ->
  contains COMMA (clean s) = true ->
  parse_amount (Some s) =
    float_of_str (replace COMMA [DOT] (replace DOT [] (clean s))) /\
  (count COMMA (clean s) = 1%nat ->
   parse_amount (Some s) = float_of_str (spec_both (clean s))) /\
  ((2 <= count COMMA (clean s))%nat ->
   parse_amount (Some s) = Raise ValueError).
Proof.
  intros Hd Hc.
  assert (E : parse_amount (Some s) =
              float_of_str (replace COMMA [DOT] (replace DOT [] (clean s)))).
  { rewrite parse_amount_unfold, Hd, Hc.
    destruct (clean s); [discriminate|reflexivity]. }
  split; [exact E|]. split.
  - intro H1. rewrite E. unfold spec_both.
    rewrite spec_last_comma_one; [reflexivity|].
    rewrite count_replace_other by (discriminate || reflexivity). exact H1.
  - intro H2. rewrite E. apply float_of_str_two_dots.
    rewrite count_replace_into by discriminate.
    rewrite (count_replace_other COMMA DOT) by (discriminate || reflexivity).
    lia.
Qed.


(** ** C10 *)

Lemma binary_round_aux_neg s m e l :
  binary_round_aux prec emax (negb s) m e l =
  fneg (binary_round_aux prec emax s m e l).
Proof.
  unfold binary_round_aux.
  destruct (shr_fexp prec emax m e l) as [mrs' e'].
  destruct (shr_fexp prec emax _ e' loc_Exact) as [mrs'' e''].
  destruct (shr_m mrs''); try reflexivity.
  destruct (e'' <=? emax - prec)%Z; reflexivity.
Qed.

Lemma dec2float_neg s M E :
  dec2float (negb s) M E = fneg (dec2float s M E).
Proof.
  unfold dec2float. destruct M as [|m]; [reflexivity|].
  destruct E as [|k|k].
  - unfold binary_round. destruct (shl_align _ _ _) as [mz ez].
    apply binary_round_aux_neg.
  - unfold binary_round. destruct (shl_align _ _ _) as [mz ez].
    apply binary_round_aux_neg.
  - destruct (SFdiv_core_binary _ _ _ _ _ _) as [[q e] l].
    apply binary_round_aux_neg.
Qed.

Lemma dropwhile_snoc (p : char -> bool) l x :
  p x = false -> dropwhile p (l ++ [x]) = dropwhile p l ++ [x].
Proof.
  intro Hx. induction l as [|y l IH]; cbn [dropwhile app].
  - now rewrite Hx.
  - destruct (p y); [exact IH | reflexivity].
Qed.

Lemma rstrip_cons (p : char -> bool) x l :
  p x = false -> rstrip_by p (x :: l) = x :: rstrip_by p l.
Proof.
  intro Hx. unfold rstrip_by. cbn [rev].
  rewrite dropwhile_snoc by exact Hx. rewrite rev_app_distr. reflexivity.
Qed.

Lemma digit_cases c :
  is_digit c = true ->
  c = 48 \/ c = 49 \/ c = 50 \/ c = 51 \/ c = 52 \/
  c = 53 \/ c = 54 \/ c = 55 \/ c = 56 \/ c = 57.
Proof.
  unfold is_digit. intro H. apply andb_true_iff in H as [H1 H2].
  apply N.leb_le in H1, H2. lia.
Qed.

Ltac digit_cases H :=
  apply digit_cases in H;
  destruct H as [->|[->|[->|[->|[->|[->|[->|[->|[->| ->]]]]]]]]].

Lemma strip_digit c s : is_digit c = true ->
  strip (c :: s) = c :: rstrip_by isspace s /\
  strip (MINUS :: c :: s) = MINUS :: c :: rstrip_by isspace s.
Proof.
  intro H. unfold strip, lstrip_by.
  assert (Hs : isspace c = false) by (digit_cases H; reflexivity).
  cbn [dropwhile]. rewrite Hs. change (isspace MINUS) with false. cbv iota.
  rewrite (rstrip_cons isspace MINUS) by reflexivity.
  rewrite rstrip_cons by exact Hs. split; reflexivity.
Qed.

Lemma replace_cons_other c b x s :
  (x =? c) = false -> replace c b (x :: s) = x :: replace c b s.
Proof. intro H. unfold replace. cbn [flat_map]. now rewrite H. Qed.

Lemma clean_digit c s : is_digit c = true ->
  exists R, clean (c :: s) = c :: R /\ clean (MINUS :: c :: s) = MINUS :: c :: R.
Proof.
  intro H. unfold clean. destruct (strip_digit c s H) as [-> ->].
  exists (replace NBSP [] (replace SPACE [] (replace EURO [] (rstrip_by isspace s)))).
  rewrite !(replace_cons_other _ _ MINUS) by reflexivity.
  rewrite !(replace_cons_other _ _ c) by (digit_cases H; reflexivity).
  split; reflexivity.
Qed.

Lemma parse_decimal_minus c W : is_digit c = true ->
  parse_decimal (MINUS :: c :: W) =
    match parse_decimal (c :: W) with
    | Some (_, M, E) => Some (true, M, E)
    | None => None
    end /\
  match parse_decimal (c :: W) with
  | Some (neg, _, _) => neg = false
  | None => True
  end.
Proof.
  intro H. unfold parse_decimal.
  change (parse_sign (MINUS :: c :: W)) with (true, c :: W).
  assert (Hs : parse_sign (c :: W) = (false, c :: W))
    by (digit_cases H; reflexivity).
  rewrite Hs.
  destruct (span_digits (c :: W)) as [ip r].
  destruct (match r with
            | [] => ([], r)
            | c0 :: r1 => if c0 =? DOT then span_digits r1 else ([], r)
            end) as [fp r'].
  destruct (ip ++ fp); [split; [reflexivity | exact I]|].
  destruct (parse_exponent r'); split; reflexivity || exact I.
Qed.

Lemma parse_inf_or_nan_digit c W :
  is_digit c = true -> parse_inf_or_nan (c :: W) = None.
Proof.
  intro H. unfold parse_inf_or_nan.
  assert (Hs : parse_sign (c :: W) = (false, c :: W))
    by (digit_cases H; reflexivity).
  rewrite Hs. cbn [List.map].
  digit_cases H; reflexivity.
Qed.

Lemma strtod_minus c W v : is_digit c = true ->
  strtod (c :: W) = Some v -> strtod (MINUS :: c :: W) = Some (fneg v).
Proof.
  intros H Hv. unfold strtod in *.
  destruct (parse_decimal_minus c W H) as [-> Hn].
  destruct (parse_decimal (c :: W)) as [[[neg M] E]|].
  - subst neg. injection Hv as <-.
    now rewrite <- (dec2float_neg false).
  - rewrite parse_inf_or_nan_digit in Hv by exact H. discriminate.
Qed.

Lemma float_of_str_minus c U v : is_digit c = true ->
  float_of_str (c :: U) = Ok v ->
  float_of_str (MINUS :: c :: U) = Ok (fneg v).
Proof.
  intros H. unfold float_of_str. cbv zeta.
  assert (Ha : exists A,
             transform_decimal_and_space (c :: U) = c :: A /\
             transform_decimal_and_space (MINUS :: c :: U) = MINUS :: c :: A).
  { unfold transform_decimal_and_space. cbn [forallb].
    change (MINUS <? 128) with true. cbn [andb].
    assert (H7 : (c <? 127) = true) by (digit_cases H; reflexivity).
    destruct ((c <? 128) && forallb (fun c => c <? 128) U).
    - exists U. split; reflexivity.
    - exists (to_ascii U). cbn [to_ascii]. change (MINUS <? 127) with true.
      cbv iota. rewrite H7. split; reflexivity. }
  destruct Ha as (A & -> & ->).
  assert (Hs : c_isspace c = false) by (digit_cases H; reflexivity).
  unfold lstrip_by. cbn [dropwhile]. rewrite Hs.
  change (c_isspace MINUS) with false. cbv iota.
  rewrite (rstrip_cons c_isspace MINUS) by reflexivity.
  rewrite (rstrip_cons c_isspace c) by exact Hs.
  set (T := rstrip_by c_isspace A).
  assert (Hu : (c =? UNDERSCORE) = false) by (digit_cases H; reflexivity).
  assert (Hc : contains UNDERSCORE (MINUS :: c :: T)
               = contains UNDERSCORE (c :: T)) by reflexivity.
  rewrite Hc.
  assert (Hsu : strip_underscores 0 (MINUS :: c :: T) =
                option_map (cons MINUS) (strip_underscores 0 (c :: T))).
  { cbn [strip_underscores]. change (MINUS =? UNDERSCORE) with false.
    change (0 =? UNDERSCORE) with false. cbn [andb]. cbv iota.
    rewrite Hu. cbn [andb]. reflexivity. }
  destruct (contains UNDERSCORE (c :: T)).
  - rewrite Hsu. cbn [strip_underscores]. rewrite Hu.
    change (0 =? UNDERSCORE) with false. cbn [andb].
    destruct (strip_underscores c T) as [W|]; [|discriminate].
    cbn [option_map].
    destruct (strtod (c :: W)) as [x|] eqn:Ex; [|discriminate].
    intros [= <-]. rewrite (strtod_minus c W x H Ex). reflexivity.
  - destruct (strtod (c :: T)) as [x|] eqn:Ex; [|discriminate].
    intros [= <-]. rewrite (strtod_minus c T x H Ex). reflexivity.
Qed.

(** C10: [parse_amount] keeps a leading minus sign: when a text that begins
    with a digit parses to [v], the same text with "-" in front parses to
    [-v]; "-1.234,50" gives -1234.5. *)
Theorem C10_leading_minus (s : str) (v : float) :
  starts_with_digit s = true ->
  parse_amount (Some s) = Ok v ->
  parse_amount (Some (MINUS :: s)) = Ok (fneg v) /\
  parse_amount (Some (lit "-1.234,50")) = Ok (fneg F1234_5) /\
  fsign (fneg F1234_5) = true.
Proof.
  intros Hd Hv. split; [|split; vm_compute; reflexivity].
  destruct s as [|c s]; [discriminate|]. cbn [starts_with_digit] in Hd.
  rewrite parse_amount_unfold in *.
  destruct (clean_digit c s Hd) as (R & E1 & E2).
  rewrite E2. rewrite E1 in Hv.
  assert (HD : (c =? DOT) = false) by (digit_cases Hd; reflexivity).
  assert (HC : (c =? COMMA) = false) by (digit_cases Hd; reflexivity).
  assert (Hc1 : forall d, contains d (MINUS :: c :: R) =
                          ((d =? MINUS) || contains d (c :: R)))
    by reflexivity.
  rewrite !Hc1. change (DOT =? MINUS) with false.
  change (COMMA =? MINUS) with false. cbn [orb].
  rewrite !(replace_cons_other _ _ MINUS) by reflexivity.
  rewrite !(replace_cons_other _ _ c) in * by assumption.
  destruct (contains DOT (c :: R) && contains COMMA (c :: R)).
  - now apply float_of_str_minus.
  - destruct (contains COMMA (c :: R) && negb (contains DOT (c :: R))).
    + now apply float_of_str_minus.
    + now apply float_of_str_minus.
Qed.


(** ** Printing and reading decimal digits *)

Lemma digits_val_snoc ds d : digits_val (ds ++ [d]) = 10 * digits_val ds + d.
Proof. unfold digits_val. rewrite fold_left_app. reflexivity. Qed.

Lemma digits_le_spec (fuel : nat) (n : N) :
  n < 2 ^ N.of_nat fuel -> fuel <> O ->
  digits_val (rev (digits_le fuel n)) = n /\
  Forall (fun d => d < 10) (digits_le fuel n) /\
  digits_le fuel n <> [].
Proof.
  revert n; induction fuel as [|f IH]; intros n Hn Hf; [congruence|].
  cbn [digits_le]. destruct (n <? 10) eqn:E.
  - apply N.ltb_lt in E. split; [|split].
    + cbn [rev app]. unfold digits_val. cbn [fold_left]. lia.
    + repeat constructor. exact E.
    + discriminate.
  - apply N.ltb_ge in E.
    assert (Hdm := N.div_mod n 10 ltac:(lia)).
    assert (Hm := N.mod_lt n 10 ltac:(lia)).
    set (q := n / 10) in *. set (r := n mod 10) in *.
    assert (Hq : q < 2 ^ N.of_nat f).
    { rewrite Nat2N.inj_succ, N.pow_succ_r' in Hn. clearbody q r. lia. }
    assert (Hf' : f <> O).
    { intros ->. simpl in Hq. clearbody q r. lia. }
    destruct (IH q Hq Hf') as (H1 & H2 & H3).
    split; [|split].
    + cbn [rev]. rewrite digits_val_snoc, H1. clearbody q r. lia.
    + constructor; assumption.
    + discriminate.
Qed.

Lemma digits_of_spec (n : N) :
  digits_val (rev (digits_of n)) = n /\
  Forall (fun d => d < 10) (digits_of n) /\ digits_of n <> [].
Proof.
  apply digits_le_spec; [|discriminate].
  rewrite Nat2N.inj_succ, N2Nat.id.
  destruct n as [|p]; [reflexivity|].
  apply N.log2_spec. lia.
Qed.

Lemma str_of_N_digits n :
  str_of_N n = List.map digit_char (rev (digits_of n)).
Proof. unfold str_of_N, digits_of. now rewrite map_rev. Qed.

Lemma is_digit_digit_char d : d < 10 -> is_digit (digit_char d) = true.
Proof.
  intro H. unfold is_digit, digit_char.
  apply andb_true_iff. split; apply N.leb_le; lia.
Qed.

Lemma span_digits_app ds r :
  Forall (fun d => d < 10) ds ->
  match r with [] => True | c :: _ => is_digit c = false end ->
  span_digits (List.map digit_char ds ++ r) = (ds, r).
Proof.
  intros Hds Hr. induction Hds as [|d ds Hd _ IH]; cbn [List.map app].
  - destruct r as [|c r]; [reflexivity|]. cbn [span_digits]. now rewrite Hr.
  - cbn [span_digits]. rewrite is_digit_digit_char by exact Hd. rewrite IH.
    f_equal. f_equal. unfold digit_char. lia.
Qed.

Lemma dropwhile_head (p : char -> bool) s :
  match s with [] => True | c :: _ => p c = false end -> dropwhile p s = s.
Proof. destruct s as [|c s]; [reflexivity|]. cbn. now intros ->. Qed.

Lemma rstrip_last (p : char -> bool) s x :
  p x = false -> rstrip_by p (s ++ [x]) = s ++ [x].
Proof.
  intro H. unfold rstrip_by. rewrite rev_app_distr. cbn [rev app dropwhile].
  rewrite H. cbn [rev]. now rewrite rev_involutive.
Qed.

(** A sign, digits, the point and two digits read back as a float. *)
Lemma float_of_fixed (neg : bool) (ds : list N) (d1 d0 : N) :
  Forall (fun d => d < 10) ds -> ds <> [] -> d1 < 10 -> d0 < 10 ->
  float_of_str ((if neg then [MINUS] else [])
                  ++ List.map digit_char ds
                  ++ [DOT; digit_char d1; digit_char d0]) =
    Ok (dec2float neg (digits_val (ds ++ [d1; d0])) (-2)).
Proof.
  intros Hds Hne H1 H0.
  set (body := List.map digit_char ds ++ [DOT; digit_char d1; digit_char d0]).
  set (s := (if neg then [MINUS] else []) ++ body).
  assert (Hall : forallb (fun c => is_digit c || (c =? DOT) || (c =? MINUS)) s
                 = true).
  { unfold s, body. rewrite !forallb_app. apply andb_true_iff. split.
    - destruct neg; reflexivity.
    - apply andb_true_iff. split.
      + rewrite forallb_forall. intros c Hc.
        apply in_map_iff in Hc as (d & <- & Hd).
        rewrite Forall_forall in Hds.
        now rewrite is_digit_digit_char by (apply Hds; exact Hd).
      + cbn [forallb]. rewrite !is_digit_digit_char by assumption.
        reflexivity. }
  assert (Hcls : forall c, is_digit c || (c =? DOT) || (c =? MINUS) = true ->
                           (c <? 128) = true /\ (c =? UNDERSCORE) = false /\
                           c_isspace c = false).
  { intros c Hc. apply orb_true_iff in Hc as [Hc|Hc];
      [apply orb_true_iff in Hc as [Hc|Hc]|].
    - digit_cases Hc; repeat split.
    - apply N.eqb_eq in Hc. subst. repeat split.
    - apply N.eqb_eq in Hc. subst. repeat split. }
  rewrite forallb_forall in Hall.
  unfold float_of_str. cbv zeta.
  assert (Ht : transform_decimal_and_space s = s).
  { unfold transform_decimal_and_space.
    replace (forallb (fun c => c <? 128) s) with true; [reflexivity|].
    symmetry. apply forallb_forall. intros c Hc. now apply Hcls, Hall. }
  rewrite Ht.
  assert (Hl : lstrip_by c_isspace s = s).
  { apply dropwhile_head. destruct s as [|c s'] eqn:Es; [exact I|].
    apply Hcls, Hall. now left. }
  rewrite Hl.
  assert (Hr : rstrip_by c_isspace s = s).
  { unfold s, body.
    replace ((if neg then [MINUS] else []) ++ List.map digit_char ds
               ++ [DOT; digit_char d1; digit_char d0])
      with (((if neg then [MINUS] else []) ++ List.map digit_char ds
               ++ [DOT; digit_char d1]) ++ [digit_char d0])
      by (rewrite <- !app_assoc; reflexivity).
    apply rstrip_last.
    pose proof (is_digit_digit_char d0 H0) as Hd. digit_cases Hd; reflexivity. }
  rewrite Hr.
  assert (Hu : contains UNDERSCORE s = false).
  { unfold contains. apply not_true_is_false. intro Hx.
    apply existsb_exists in Hx as (c & Hc & Hx).
    apply N.eqb_eq in Hx. subst c.
    destruct (Hcls _ (Hall _ Hc)) as (_ & Hx & _). discriminate. }
  rewrite Hu.
  assert (Hp : parse_decimal s =
               Some (neg, digits_val (ds ++ [d1; d0]), (-2)%Z)).
  { unfold parse_decimal.
    assert (Hsg : parse_sign s = (neg, body)).
    { unfold s. destruct neg; [reflexivity|]. cbn [app]. unfold body.
      destruct ds as [|d ds']; [congruence|]. cbn [List.map app parse_sign].
      inversion Hds as [|? ? Hd _]; subst.
      pose proof (is_digit_digit_char d Hd) as Hdd.
      digit_cases Hdd; reflexivity. }
    rewrite Hsg. unfold body.
    rewrite span_digits_app by (exact Hds || reflexivity).
    change (DOT =? DOT) with true. cbv iota.
    change [digit_char d1; digit_char d0]
      with (List.map digit_char [d1; d0] ++ []).
    rewrite (span_digits_app [d1; d0] [])
      by (repeat constructor; assumption).
    destruct (ds ++ [d1; d0]) eqn:E.
    - destruct ds; discriminate.
    - rewrite <- E. reflexivity. }
  unfold strtod. rewrite Hp. reflexivity.
Qed.


(** ** The text of a formatted amount *)

Lemma fmt_fixed2_finite (g : bool) (x : float) :
  isfinite x = true ->
  fmt_fixed2 g x =
    sign_text x
      ++ rev (if g then group3_le COMMA (int_digits x) else int_digits x)
      ++ DOT :: frac_digits x.
Proof.
  intro H. unfold fmt_fixed2, sign_text, int_digits, frac_digits, str_of_N.
  fold (digits_of (cents x / 100)). rewrite rev_involutive.
  destruct x; try discriminate; reflexivity.
Qed.

Lemma cents_split (c : N) :
  (c mod 100) / 10 < 10 /\ c mod 10 < 10 /\
  100 * (c / 100) + 10 * ((c mod 100) / 10) + c mod 10 = c.
Proof.
  assert (H1 := N.div_mod c 100 ltac:(lia)).
  assert (H2 := N.mod_lt c 100 ltac:(lia)).
  set (q := c / 100) in *. set (r := c mod 100) in *.
  assert (H3 := N.div_mod r 10 ltac:(lia)).
  assert (H4 := N.mod_lt r 10 ltac:(lia)).
  set (a := r / 10) in *. set (b := r mod 10) in *.
  assert (Hb : b = c mod 10).
  { apply (N.mod_unique c 10 (10 * q + a) b); [exact H4|].
    clearbody q r a b. lia. }
  rewrite <- Hb. clearbody q r a b. lia.
Qed.

Lemma float_of_fmt_fixed2 (x : float) :
  isfinite x = true -> float_of_str (fmt_fixed2 false x) = Ok (round2 x).
Proof.
  intro H. rewrite fmt_fixed2_finite by exact H.
  unfold int_digits, frac_digits, sign_text, round2.
  rewrite <- map_rev.
  destruct (digits_of_spec (cents x / 100)) as (Hv & Hf & Hn).
  destruct (cents_split (cents x)) as (H1 & H0 & Hc).
  rewrite float_of_fixed.
  - do 2 f_equal.
    change [(cents x mod 100) / 10; cents x mod 10]
      with ([(cents x mod 100) / 10] ++ [cents x mod 10]).
    rewrite app_assoc, !digits_val_snoc, Hv.
    set (q := cents x / 100) in *. set (a := (cents x mod 100) / 10) in *.
    set (b := cents x mod 10) in *. clearbody q a b. lia.
  - now apply Forall_rev.
  - intro E. apply Hn. apply (f_equal (@rev N)) in E.
    now rewrite rev_involutive in E.
  - exact H1.
  - exact H0.
Qed.

(** A written amount reads back as the amount rounded to two decimals;
    infinities and NaN read back as themselves. *)
Lemma float_of_fmt_stored (x : float) :
  float_of_str (fmt_fixed2 false x) = Ok (stored x).
Proof.
  unfold stored. destruct (isfinite x) eqn:E.
  - now apply float_of_fmt_fixed2.
  - destruct x as [s|[|]| |]; try discriminate; vm_compute; reflexivity.
Qed.

Lemma round_half_even_div_nearest (a b : N) :
  0 < b ->
  (2 * Z.abs (Z.of_N (round_half_even_div a b) * Z.of_N b - Z.of_N a)
   <= Z.of_N b)%Z.
Proof.
  intro Hb. unfold round_half_even_div.
  assert (H1 := N.div_mod a b ltac:(lia)).
  assert (H2 := N.mod_lt a b ltac:(lia)).
  set (q := a / b) in *. set (r := a mod b) in *. clearbody q r. subst a.
  destruct (N.compare_spec (2 * r) b) as [E|E|E];
    try destruct (N.even q); lia.
Qed.

Lemma cents_nearest (x : float) : isfinite x = true -> nearest_cents x (cents x).
Proof.
  intros H. destruct x as [s| | |s m e]; try discriminate.
  - reflexivity.
  - destruct e as [|k|k]; cbn [nearest_cents cents].
    + rewrite !N2Z.inj_mul, N2Z.inj_pow, Z2N.id by lia.
      change (Z.of_N (N.pos m)) with (Z.pos m). change (Z.of_N 100) with 100%Z.
      change (Z.of_N 2) with 2%Z. ring.
    + rewrite !N2Z.inj_mul, N2Z.inj_pow, Z2N.id by lia.
      change (Z.of_N (N.pos m)) with (Z.pos m). change (Z.of_N 100) with 100%Z.
      change (Z.of_N 2) with 2%Z. ring.
    + pose proof (round_half_even_div_nearest (N.pos m * 100)
                    (N.pos (2 ^ k)) ltac:(lia)) as Hn.
      rewrite N2Z.inj_mul in Hn. cbn [Z.of_N] in Hn.
      replace (100 * Z.pos m)%Z with (Z.pos m * 100)%Z by lia. exact Hn.
Qed.


(** ** C3 *)

Lemma replace_one_map c b s : replace c [b] s = List.map (sub_char c b) s.
Proof.
  unfold replace, sub_char. induction s as [|x s IH]; [reflexivity|].
  cbn [flat_map List.map]. rewrite IH. destruct (x =? c); reflexivity.
Qed.

Lemma replace_app c b s t :
  replace c b (s ++ t) = replace c b s ++ replace c b t.
Proof. apply flat_map_app. Qed.

Lemma replace_nil_rev c s : replace c [] (rev s) = rev (replace c [] s).
Proof.
  induction s as [|x s IH]; [reflexivity|].
  cbn [rev]. rewrite replace_app, IH. unfold replace at 2 3.
  cbn [flat_map]. rewrite rev_app_distr.
  destruct (x =? c); reflexivity.
Qed.

Lemma group3_ind (P : str -> Prop) :
  P [] -> (forall a, P [a]) -> (forall a b, P [a; b]) ->
  (forall a b c, P [a; b; c]) ->
  (forall a b c d r, P (d :: r) -> P (a :: b :: c :: d :: r)) ->
  forall l, P l.
Proof.
  intros H0 H1 H2 H3 H4 l.
  assert (H : forall n l, (List.length l <= n)%nat -> P l).
  { induction n as [|n IH]; intros [|a [|b [|c [|d r]]]] Hl;
      simpl in Hl; auto; try lia.
    apply H4. apply IH. simpl. lia. }
  apply (H (List.length l)). lia.
Qed.

Lemma map_group3 (f : char -> char) sep l :
  List.map f (group3_le sep l) = group3_le (f sep) (List.map f l).
Proof.
  induction l as [| | | |a b c d r IH] using group3_ind; try reflexivity.
  cbn [group3_le List.map] in *. rewrite IH. reflexivity.
Qed.

Lemma replace_group3 sep l :
  count sep l = 0%nat -> replace sep [] (group3_le sep l) = l.
Proof.
  induction l as [| | | |a b c d r IH] using group3_ind;
    try (intro H; now apply replace_absent).
  rewrite !count_cons. intro H.
  change (group3_le sep (a :: b :: c :: d :: r))
    with (a :: b :: c :: sep :: group3_le sep (d :: r)).
  destruct (a =? sep) eqn:Ea; [discriminate|].
  destruct (b =? sep) eqn:Eb; [discriminate|].
  destruct (c =? sep) eqn:Ec; [discriminate|].
  rewrite !(replace_cons_other sep [] _ _) by assumption.
  change (sep :: group3_le sep (d :: r))
    with ([sep] ++ group3_le sep (d :: r)).
  rewrite replace_app. unfold replace at 1. cbn [flat_map].
  rewrite N.eqb_refl. cbn [app].
  rewrite IH; [reflexivity|]. rewrite count_cons. exact H.
Qed.

Lemma Forall_group3 (P : char -> Prop) sep (l : str) :
  P sep -> Forall P l -> Forall P (group3_le sep l).
Proof.
  intro Hs. induction l as [| | | |a b c d r IH] using group3_ind;
    try (intro H; exact H).
  intro H.
  change (group3_le sep (a :: b :: c :: d :: r))
    with (a :: b :: c :: sep :: group3_le sep (d :: r)).
  inversion H as [|? ? Ha H']; subst. inversion H' as [|? ? Hb H'']; subst.
  inversion H'' as [|? ? Hc H''']; subst.
  repeat constructor; try assumption. now apply IH.
Qed.

Lemma digits_are_digits (ds : list N) :
  Forall (fun d => d < 10) ds ->
  Forall (fun c => is_digit c = true) (List.map digit_char ds).
Proof.
  intro H. apply Forall_forall. intros c Hc.
  apply in_map_iff in Hc as (d & <- & Hd). rewrite Forall_forall in H.
  apply is_digit_digit_char. now apply H.
Qed.

Lemma int_digits_digits x : Forall (fun c => is_digit c = true) (int_digits x).
Proof. apply digits_are_digits. apply digits_of_spec. Qed.

Lemma frac_digits_digits x :
  Forall (fun c => is_digit c = true) (frac_digits x).
Proof.
  destruct (cents_split (cents x)) as (H1 & H0 & _).
  apply (digits_are_digits [_; _]). repeat constructor; assumption.
Qed.

Lemma map_sub_digits c b l :
  is_digit c = false -> Forall (fun x => is_digit x = true) l ->
  List.map (sub_char c b) l = l.
Proof.
  intros Hc H. induction H as [|x l Hx _ IH]; [reflexivity|].
  cbn [List.map]. rewrite IH. unfold sub_char.
  destruct (x =? c) eqn:E; [|reflexivity].
  apply N.eqb_eq in E. congruence.
Qed.

Lemma count_digits c l :
  is_digit c = false -> Forall (fun x => is_digit x = true) l ->
  count c l = 0%nat.
Proof.
  intros Hc H. induction H as [|x l Hx _ IH]; [reflexivity|].
  rewrite count_cons, IH. destruct (x =? c) eqn:E; [|reflexivity].
  apply N.eqb_eq in E. congruence.
Qed.

(** The formatted amount without the currency sign. *)
Lemma format_amount_text (x : float) :
  isfinite x = true ->
  format_amount x =
    (sign_text x ++ rev (group3_le DOT (int_digits x))
       ++ COMMA :: frac_digits x) ++ [EURO].
Proof.
  intro H. unfold format_amount. rewrite fmt_fixed2_finite by exact H.
  f_equal. rewrite !replace_one_map.
  change (DOT :: frac_digits x) with ([DOT] ++ frac_digits x).
  rewrite !map_app, !map_rev, !map_group3.
  rewrite !(map_sub_digits _ _ (int_digits x))
    by (reflexivity || apply int_digits_digits).
  rewrite !(map_sub_digits _ _ (frac_digits x))
    by (reflexivity || apply frac_digits_digits).
  unfold sign_text. destruct (fsign x); reflexivity.
Qed.

Lemma numeric_char_facts c :
  numeric_char c = true ->
  isspace c = false /\ (c =? EURO) = false /\ (c =? SPACE) = false /\
  (c =? NBSP) = false.
Proof.
  unfold numeric_char. rewrite !orb_true_iff.
  intros [[[H|H]|H]|H];
    [digit_cases H | apply N.eqb_eq in H; subst ..]; repeat split.
Qed.

Lemma amount_text_numeric (x : float) :
  Forall (fun c => numeric_char c = true)
    (sign_text x ++ rev (group3_le DOT (int_digits x))
       ++ COMMA :: frac_digits x).
Proof.
  assert (Hd : forall l, Forall (fun c => is_digit c = true) l ->
                         Forall (fun c => numeric_char c = true) l).
  { intros l. apply Forall_impl. intros c Hc. unfold numeric_char.
    now rewrite Hc. }
  apply Forall_app. split; [|apply Forall_app; split].
  - unfold sign_text. destruct (fsign x); repeat constructor.
  - apply Forall_rev. apply Forall_group3; [reflexivity|].
    apply Hd, int_digits_digits.
  - constructor; [reflexivity|]. apply Hd, frac_digits_digits.
Qed.

Lemma strip_no_space s :
  Forall (fun c => isspace c = false) s -> strip s = s.
Proof.
  intro H. unfold strip, lstrip_by, rstrip_by.
  rewrite (dropwhile_head isspace s);
    [|destruct H; [exact I | assumption]].
  apply Forall_rev in H.
  rewrite (dropwhile_head isspace (rev s));
    [|destruct H; [exact I | assumption]].
  apply rev_involutive.
Qed.

Lemma replace_absent_all c b s :
  Forall (fun x => (x =? c) = false) s -> replace c b s = s.
Proof.
  intro H. unfold replace. induction H as [|x s Hx _ IH]; [reflexivity|].
  cbn [flat_map]. rewrite Hx, IH. reflexivity.
Qed.

Lemma clean_amount_text (X : str) :
  Forall (fun c => numeric_char c = true) X -> clean (X ++ [EURO]) = X.
Proof.
  intro H. unfold clean.
  assert (Hs : Forall (fun c => isspace c = false) (X ++ [EURO])).
  { apply Forall_app. split; [|repeat constructor].
    eapply Forall_impl; [|exact H]. intros c Hc.
    now apply numeric_char_facts. }
  rewrite (strip_no_space _ Hs), replace_app.
  change (replace EURO [] [EURO]) with (@nil char). rewrite app_nil_r.
  rewrite (replace_absent_all EURO [] X), (replace_absent_all SPACE [] X),
    (replace_absent_all NBSP [] X); [reflexivity| | |];
    (eapply Forall_impl; [|exact H]); intros c Hc;
    now apply numeric_char_facts.
Qed.

(** What [parse_amount] hands to [float] for a formatted amount is the
    amount written with two decimals and no grouping. *)
Lemma rewritten_amount_text (x : float) :
  let X := sign_text x ++ rev (group3_le DOT (int_digits x))
             ++ COMMA :: frac_digits x in
  isfinite x = true ->
  contains COMMA X = true /\
  replace COMMA [DOT] (replace DOT [] X) = fmt_fixed2 false x.
Proof.
  intros X H. split.
  - apply contains_true_count. unfold X.
    rewrite !count_app, count_cons, N.eqb_refl. lia.
  - unfold X. rewrite !replace_app, replace_nil_rev.
    rewrite replace_group3
      by (apply count_digits; [reflexivity | apply int_digits_digits]).
    rewrite (replace_absent DOT [] (COMMA :: frac_digits x))
      by (rewrite count_cons; change (COMMA =? DOT) with false;
          apply count_digits; [reflexivity | apply frac_digits_digits]).
    rewrite !replace_one_map.
    change (COMMA :: frac_digits x) with ([COMMA] ++ frac_digits x).
    rewrite !map_app, map_rev.
    rewrite (map_sub_digits COMMA DOT (int_digits x))
      by (reflexivity || apply int_digits_digits).
    rewrite (map_sub_digits COMMA DOT (frac_digits x))
      by (reflexivity || apply frac_digits_digits).
    rewrite fmt_fixed2_finite by exact H.
    unfold sign_text. destruct (fsign x); reflexivity.
Qed.

(** C3: formatting a finite amount and parsing the text again gives the
    amount rounded to two fractional digits: the float nearest to
    [cents x / 100] with the sign of [x], where [cents x] is an integer
    nearest to [|x| * 100]. *)
Theorem C3_parse_format (x : float) :
  isfinite x = true ->
  parse_amount (Some (format_amount x)) = Ok (round2 x) /\
  nearest_cents x (cents x).
Proof.
  intro H. split; [|now apply cents_nearest].
  rewrite parse_amount_unfold, format_amount_text by exact H.
  rewrite clean_amount_text by apply amount_text_numeric.
  destruct (rewritten_amount_text x H) as [Hc Hr].
  set (X := sign_text x ++ rev (group3_le DOT (int_digits x))
              ++ COMMA :: frac_digits x) in *.
  rewrite Hc.
  assert (Ht : (if contains DOT X && true
                then replace COMMA [DOT] (replace DOT [] X)
                else if true && negb (contains DOT X)
                     then replace COMMA [DOT] X else X)
               = fmt_fixed2 false x).
  { destruct (contains DOT X) eqn:Ed; cbn [andb negb]; [exact Hr|].
    rewrite <- Hr. f_equal. symmetry. apply replace_absent.
    now apply contains_false_count. }
  rewrite Ht.
  destruct X as [|c X'] eqn:EX; [discriminate|].
  now apply float_of_fmt_fixed2.
Qed.


(** ** Writing the file *)

Lemma encodable_app (a b : str) :
  encodable (a ++ b) = encodable a && encodable b.
Proof. apply forallb_app. Qed.

Lemma encodable_replace_quote (f : str) :
  encodable (replace QUOTE [QUOTE; QUOTE] f) = encodable f.
Proof.
  unfold replace. induction f as [|x f IH]; [reflexivity|].
  cbn [flat_map]. rewrite encodable_app, IH.
  destruct (x =? QUOTE) eqn:E.
  - apply N.eqb_eq in E. subst x. reflexivity.
  - unfold encodable. cbn [forallb]. now rewrite andb_true_r.
Qed.

Lemma encodable_csv_field (f : str) : encodable (csv_field f) = encodable f.
Proof.
  unfold csv_field. destruct (existsb special f); [|reflexivity].
  change (encodable (QUOTE :: replace QUOTE [QUOTE; QUOTE] f ++ [QUOTE]))
    with (encodable (replace QUOTE [QUOTE; QUOTE] f ++ [QUOTE])).
  rewrite encodable_app, encodable_replace_quote. apply andb_true_r.
Qed.

Lemma encodable_digits (l : str) :
  Forall (fun c => is_digit c = true) l -> encodable l = true.
Proof.
  intro H. apply forallb_forall. intros c Hc.
  rewrite Forall_forall in H. specialize (H c Hc).
  digit_cases H; reflexivity.
Qed.

(** The text of an amount is ASCII. *)
Lemma encodable_amount (x : float) : encodable (fmt_fixed2 false x) = true.
Proof.
  destruct (isfinite x) eqn:E.
  - rewrite (fmt_fixed2_finite false x E).
    rewrite !encodable_app.
    change (encodable (DOT :: frac_digits x)) with (encodable (frac_digits x)).
    rewrite (encodable_digits (frac_digits x) (frac_digits_digits x)).
    rewrite (encodable_digits (rev (int_digits x)))
      by (apply Forall_rev, int_digits_digits).
    unfold sign_text. destruct (fsign x); reflexivity.
  - destruct x as [s|s| |s m e]; try discriminate; [destruct s|]; reflexivity.
Qed.

Lemma csv_writerow_row (e : Expense) :
  csv_writerow (row_fields e) =
    csv_field (date e) ++ COMMA :: csv_field (category e)
      ++ COMMA :: csv_field (description e)
      ++ COMMA :: csv_field (fmt_fixed2 false (amount e)) ++ [CR; LF].
Proof.
  unfold csv_writerow, row_fields. cbn [join_fields].
  destruct (csv_field (date e)) as [|c r]; cbn [app].
  - rewrite <- !app_assoc. cbn [app]. rewrite <- !app_assoc. reflexivity.
  - f_equal. rewrite <- !app_assoc. cbn [app]. rewrite <- !app_assoc.
    cbn [app]. rewrite <- !app_assoc. reflexivity.
Qed.

Lemma encodable_row (e : Expense) :
  encodable (csv_writerow (row_fields e)) = encodable_record e.
Proof.
  rewrite csv_writerow_row. unfold encodable_record.
  repeat (rewrite encodable_app;
          match goal with
          | |- context [encodable (COMMA :: ?l)] =>
              change (encodable (COMMA :: l)) with (encodable l)
          end).
  rewrite encodable_app, !encodable_csv_field, encodable_amount.
  change (encodable [CR; LF]) with true.
  now rewrite !andb_true_r, !andb_assoc.
Qed.

(** Saving writes the header and one line per record, unless a text of a
    record cannot be encoded. *)
Lemma save_expenses_cases (t : ExpenseTracker) :
  save_expenses t =
    if forallb encodable_record (expenses t)
    then Ok (Some (file_text (expenses t)))
    else Raise UnicodeEncodeError.
Proof.
  unfold save_expenses.
  change (dict_writerow fieldnames (List.map (fun k => (k, k)) fieldnames))
    with (Ok header_text).
  cbn [bind]. change (file_write header_text) with (Ok header_text).
  cbn [bind].
  rewrite (mapM_all_or_nothing _ encodable_record
             (fun e => csv_writerow (row_fields e)) UnicodeEncodeError).
  - destruct (forallb encodable_record (expenses t)); reflexivity.
  - intro e.
    change (dict_writerow fieldnames (to_dict e))
      with (Ok (csv_writerow (row_fields e))).
    cbn [bind]. unfold file_write. now rewrite encodable_row.
Qed.

Lemma save_expenses_ok (t : ExpenseTracker) :
  forallb encodable_record (expenses t) = true ->
  save_expenses t = Ok (Some (file_text (expenses t))).
Proof. intro H. now rewrite save_expenses_cases, H. Qed.

Lemma save_expenses_inv (t : ExpenseTracker) (d : disk) :
  save_expenses t = Ok d ->
  d = Some (file_text (expenses t)) /\
  forallb encodable_record (expenses t) = true.
Proof.
  rewrite save_expenses_cases.
  destruct (forallb encodable_record (expenses t)); [|discriminate].
  intros [= <-]. now split.
Qed.

(** ** C5 *)



(** ** Reading a file line by line and character by character *)

Lemma process_chars_app r l1 l2 :
  process_chars r (l1 ++ l2) =
    match process_chars r l1 with
    | Some r' => process_chars r' l2
    | None => None
    end.
Proof.
  revert r; induction l1 as [|c l1 IH]; intro r; cbn [app process_chars].
  - reflexivity.
  - destruct (parse_process_char r (Some c)); [apply IH | reflexivity].
Qed.

Lemma feed_chars r l ts :
  feed r (List.map Some l ++ ts) =
    match process_chars r l with
    | Some r' => feed r' ts
    | None => ([], false)
    end.
Proof.
  revert r; induction l as [|c l IH]; intro r;
    cbn [List.map app feed process_chars].
  - reflexivity.
  - destruct (parse_process_char r (Some c)); [apply IH | reflexivity].
Qed.

Lemma read_rows_line r line L T :
  (forall r', read_rows r' L = feed r' T) ->
  read_rows r (line :: L) = feed r (List.map Some line ++ None :: T).
Proof.
  intro H. cbn [read_rows]. rewrite feed_chars. unfold process_line.
  destruct (process_chars r line) as [r1|]; [|reflexivity].
  cbn [feed]. destruct (parse_process_char r1 None) as [r2|]; [|reflexivity].
  destruct (state r2); rewrite H; reflexivity.
Qed.

Lemma tokens_not_after_cr cur c s :
  tokens (line_state_of cur) (c :: s) =
    Some c :: (if c =? LF then None :: tokens AtStart s
               else if c =? CR then tokens AfterCR s
               else tokens Mid s).
Proof. destruct cur; reflexivity. Qed.

Lemma lines_tokens_bounded (n : nat) :
  forall s, (List.length s <= n)%nat ->
  forall cur r,
    read_rows r (lines_from cur s) =
    feed r (List.map Some (rev cur) ++ tokens (line_state_of cur) s).
Proof.
  assert (Hline : forall r line (L : list str) T X,
             (forall r', read_rows r' L = feed r' T) ->
             X = List.map Some line ++ None :: T ->
             read_rows r (line :: L) = feed r X).
  { intros r line L T X H ->. now apply read_rows_line. }
  induction n as [|n IH]; intros s Hn cur r.
  - destruct s; [|simpl in Hn; lia]. destruct cur as [|c cur].
    + reflexivity.
    + cbn [lines_from line_state_of tokens].
      apply read_rows_line. reflexivity.
  - destruct s as [|c s].
    + destruct cur as [|c cur]; [reflexivity|].
      cbn [lines_from line_state_of tokens].
      apply read_rows_line. reflexivity.
    + simpl in Hn. rewrite tokens_not_after_cr. cbn [lines_from].
      destruct (c =? LF) eqn:El.
      * apply (Hline _ _ _ (tokens AtStart s)).
        -- intro r'. rewrite (IH s ltac:(lia) [] r'). reflexivity.
        -- cbn [rev]. rewrite map_app, <- app_assoc. reflexivity.
      * destruct (c =? CR) eqn:Ec.
        -- destruct s as [|c2 s2].
           ++ cbn [tokens]. apply (Hline _ _ _ []); [reflexivity|].
              cbn [rev]. rewrite map_app, <- app_assoc. reflexivity.
           ++ cbn [tokens]. simpl in Hn. destruct (c2 =? LF) eqn:E2.
              ** apply (Hline _ _ _ (tokens AtStart s2)).
                 --- intro r'. rewrite (IH s2 ltac:(lia) [] r'). reflexivity.
                 --- cbn [rev app]. rewrite !map_app, <- !app_assoc.
                     reflexivity.
              ** apply (Hline _ _ _ (tokens AtStart (c2 :: s2))).
                 --- intro r'. rewrite (IH (c2 :: s2) ltac:(simpl; lia) [] r').
                     reflexivity.
                 --- cbn [rev app tokens]. rewrite E2.
                     rewrite !map_app, <- !app_assoc. reflexivity.
        -- rewrite (IH s ltac:(lia) (c :: cur) r).
           cbn [rev line_state_of]. rewrite map_app, <- app_assoc.
           reflexivity.
Qed.

(** Reading the lines of a file is feeding its characters and marks. *)
Lemma read_rows_tokens (text : str) (r : reader) :
  read_rows r (file_lines text) = feed r (tokens AtStart text).
Proof.
  unfold file_lines.
  apply (lines_tokens_bounded (List.length text) text (le_n _) [] r).
Qed.


(** ** What the writer wrote, the reader reads *)

Lemma special_false x :
  special x = false ->
  (x =? COMMA) = false /\ (x =? QUOTE) = false /\
  (x =? CR) = false /\ (x =? LF) = false.
Proof.
  unfold special. rewrite !orb_false_iff. intros [[[? ?] ?] ?]. auto.
Qed.

Lemma replace_cons c b x s :
  replace c b (x :: s) = (if x =? c then b else [x]) ++ replace c b s.
Proof. reflexivity. Qed.

Lemma rd_reset : parse_reset = rd START_RECORD [] [].
Proof. reflexivity. Qed.

Lemma parse_add_char_ok st acc flds c st' :
  len acc < FIELD_LIMIT ->
  parse_add_char (rd st acc flds) c st' = Some (rd st' (c :: acc) flds).
Proof.
  intro H. unfold parse_add_char, rd. cbn [field field_len fields].
  destruct (FIELD_LIMIT <=? len acc) eqn:E.
  - apply N.leb_le in E. lia.
  - rewrite len_cons, (N.add_comm (len acc) 1). reflexivity.
Qed.

Lemma feed_mark_quoted acc flds T :
  feed (rd IN_QUOTED_FIELD acc flds) (None :: T) =
  feed (rd IN_QUOTED_FIELD acc flds) T.
Proof. reflexivity. Qed.

Lemma feed_pre_quoted acc flds ls c T :
  feed (rd IN_QUOTED_FIELD acc flds)
       ((match ls with
         | AfterCR => if c =? LF then [] else [None]
         | _ => []
         end) ++ T) =
  feed (rd IN_QUOTED_FIELD acc flds) T.
Proof. destruct ls; try reflexivity. destruct (c =? LF); reflexivity. Qed.

(** Inside quotes: the doubled quotes are halved, line ends are kept. *)
Lemma quoted_body f : forall acc flds ls rest,
  len acc + len f <= FIELD_LIMIT ->
  feed (rd IN_QUOTED_FIELD acc flds)
       (tokens ls (replace QUOTE [QUOTE; QUOTE] f ++ QUOTE :: rest)) =
  feed (rd QUOTE_IN_QUOTED_FIELD (rev f ++ acc) flds) (tokens Mid rest).
Proof.
  induction f as [|x f IH]; intros acc flds ls rest Hlen.
  - cbn [replace flat_map app tokens]. rewrite feed_pre_quoted. reflexivity.
  - rewrite len_cons in Hlen.
    assert (Hroom : len acc < FIELD_LIMIT) by lia.
    assert (Hnext : len (x :: acc) + len f <= FIELD_LIMIT)
      by (rewrite len_cons; lia).
    rewrite replace_cons. destruct (x =? QUOTE) eqn:Eq.
    + apply N.eqb_eq in Eq. subst x.
      cbn [app tokens]. rewrite feed_pre_quoted.
      change (QUOTE =? LF) with false. change (QUOTE =? CR) with false.
      cbv iota. cbn [feed].
      change (parse_process_char (rd IN_QUOTED_FIELD acc flds) (Some QUOTE))
        with (Some (rd QUOTE_IN_QUOTED_FIELD acc flds)).
      cbn [app feed].
      change (parse_process_char (rd QUOTE_IN_QUOTED_FIELD acc flds)
                                 (Some QUOTE))
        with (parse_add_char (rd QUOTE_IN_QUOTED_FIELD acc flds) QUOTE
                             IN_QUOTED_FIELD).
      rewrite parse_add_char_ok by exact Hroom.
      rewrite IH by exact Hnext. cbn [rev]. rewrite <- app_assoc. reflexivity.
    + cbn [app tokens]. rewrite feed_pre_quoted. cbn [feed].
      assert (Hstep : parse_process_char (rd IN_QUOTED_FIELD acc flds)
                                         (Some x)
                      = Some (rd IN_QUOTED_FIELD (x :: acc) flds)).
      { unfold parse_process_char. cbn [state rd]. rewrite Eq.
        apply parse_add_char_ok, Hroom. }
      rewrite Hstep.
      destruct (x =? LF); [|destruct (x =? CR)];
        try rewrite feed_mark_quoted; rewrite IH by exact Hnext; cbn [rev];
        rewrite <- app_assoc; reflexivity.
Qed.

(** Outside quotes: a text without separators is taken as it is. *)
Lemma unquoted_body f : forall st acc flds ls rest,
  len acc + len f <= FIELD_LIMIT ->
  existsb special f = false -> f <> [] ->
  st = START_RECORD \/ st = START_FIELD \/ st = IN_FIELD ->
  ls <> AfterCR ->
  feed (rd st acc flds) (tokens ls (f ++ rest)) =
  feed (rd IN_FIELD (rev f ++ acc) flds) (tokens Mid rest).
Proof.
  induction f as [|x f IH]; intros st acc flds ls rest Hlen Hsp Hne Hst Hls;
    [congruence|].
  rewrite len_cons in Hlen.
  assert (Hroom : len acc < FIELD_LIMIT) by lia.
  assert (Hnext : len (x :: acc) + len f <= FIELD_LIMIT)
    by (rewrite len_cons; lia).
  cbn [existsb] in Hsp. apply orb_false_iff in Hsp as [Hx Hf].
  apply special_false in Hx as (Hc & Hq & Hcr & Hlf).
  assert (Hnl : is_nl x = false) by (unfold is_nl; now rewrite Hlf, Hcr).
  assert (Hstep : parse_process_char (rd st acc flds) (Some x)
                  = Some (rd IN_FIELD (x :: acc) flds)).
  { unfold parse_process_char, start_field. cbn [state rd].
    destruct Hst as [->|[->| ->]]; rewrite ?Hnl, ?Hq, ?Hc;
      apply parse_add_char_ok, Hroom. }
  cbn [app tokens].
  replace (match ls with
           | AfterCR => if x =? LF then [] else [None]
           | _ => []
           end) with (@nil (option char)) by (destruct ls; congruence).
  rewrite Hlf, Hcr. cbn [app feed]. rewrite Hstep.
  destruct f as [|y f'].
  - reflexivity.
  - rewrite (IH IN_FIELD (x :: acc) flds Mid rest Hnext Hf);
      [|discriminate | auto | discriminate].
    cbn [rev]. rewrite <- !app_assoc. reflexivity.
Qed.

Lemma comma_after st acc flds ls rest :
  st = QUOTE_IN_QUOTED_FIELD \/ st = IN_FIELD \/
  st = START_FIELD \/ st = START_RECORD ->
  ls <> AfterCR ->
  feed (rd st acc flds) (tokens ls (COMMA :: rest)) =
  feed (rd START_FIELD [] (rev acc :: flds)) (tokens Mid rest).
Proof.
  intros Hst Hls. cbn [tokens].
  replace (match ls with
           | AfterCR => if COMMA =? LF then [] else [None]
           | _ => []
           end) with (@nil (option char)) by (destruct ls; congruence).
  destruct Hst as [->|[->|[->| ->]]]; reflexivity.
Qed.

Lemma crlf_after st acc flds ls rest :
  st = QUOTE_IN_QUOTED_FIELD \/ st = IN_FIELD \/ st = START_FIELD ->
  ls <> AfterCR ->
  feed (rd st acc flds) (tokens ls (CR :: LF :: rest)) =
  push (rev (rev acc :: flds)) (feed parse_reset (tokens AtStart rest)).
Proof.
  intros Hst Hls. cbn [tokens].
  replace (match ls with
           | AfterCR => if CR =? LF then [] else [None]
           | _ => []
           end) with (@nil (option char)) by (destruct ls; congruence).
  destruct Hst as [->|[->| ->]]; reflexivity.
Qed.

(** One field as the writer emits it. *)
Lemma read_field f st flds ls :
  len f <= FIELD_LIMIT ->
  st = START_RECORD \/ st = START_FIELD -> ls <> AfterCR ->
  exists st' ls',
    ls' <> AfterCR /\
    (st' = QUOTE_IN_QUOTED_FIELD \/ st' = IN_FIELD \/
     (st' = st /\ csv_field f = [])) /\
    forall rest,
      feed (rd st [] flds) (tokens ls (csv_field f ++ rest)) =
      feed (rd st' (rev f) flds) (tokens ls' rest).
Proof.
  intros Hlen Hst Hls. unfold csv_field.
  destruct (existsb special f) eqn:Esp.
  - exists QUOTE_IN_QUOTED_FIELD, Mid. split; [discriminate|].
    split; [now left|]. intro rest.
    cbn [app tokens].
    replace (match ls with
             | AfterCR => if QUOTE =? LF then [] else [None]
             | _ => []
             end) with (@nil (option char)) by (destruct ls; congruence).
    change (QUOTE =? LF) with false. change (QUOTE =? CR) with false.
    cbv iota. cbn [app feed].
    assert (Hstep : parse_process_char (rd st [] flds) (Some QUOTE)
                    = Some (rd IN_QUOTED_FIELD [] flds))
      by (destruct Hst as [->| ->]; reflexivity).
    rewrite Hstep, <- app_assoc. cbn [app].
    rewrite quoted_body, app_nil_r by exact Hlen. reflexivity.
  - destruct f as [|x f'].
    + exists st, ls. split; [exact Hls|]. split; [right; right; now split|].
      intro rest. reflexivity.
    + exists IN_FIELD, Mid. split; [discriminate|]. split; [right; now left|].
      intro rest.
      rewrite (unquoted_body (x :: f') st [] flds ls rest Hlen Esp);
        [|discriminate | destruct Hst; auto | exact Hls].
      rewrite app_nil_r. reflexivity.
Qed.

Lemma row_rest fs : forall flds ls rest,
  Forall (fun f => len f <= FIELD_LIMIT) fs ->
  fs <> [] -> ls <> AfterCR ->
  feed (rd START_FIELD [] flds)
       (tokens ls (join_fields fs ++ CR :: LF :: rest)) =
  push (rev flds ++ fs) (feed parse_reset (tokens AtStart rest)).
Proof.
  induction fs as [|f fs IH]; intros flds ls rest Hlim Hne Hls; [congruence|].
  inversion Hlim as [|? ? Hf Hfs]; subst.
  destruct (read_field f START_FIELD flds ls Hf (or_intror eq_refl) Hls)
    as (st' & ls' & Hls' & Hst' & Hfeed).
  destruct fs as [|f2 more].
  - cbn [join_fields]. rewrite Hfeed, crlf_after.
    + cbn [rev]. rewrite rev_involutive. reflexivity.
    + destruct Hst' as [->|[->|[-> _]]]; auto.
    + exact Hls'.
  - change (join_fields (f :: f2 :: more))
      with (csv_field f ++ COMMA :: join_fields (f2 :: more)).
    rewrite <- app_assoc. cbn [app]. rewrite Hfeed, comma_after.
    + rewrite rev_involutive, IH by (assumption || discriminate).
      cbn [rev]. rewrite <- app_assoc. reflexivity.
    + destruct Hst' as [->|[->|[-> _]]]; auto.
    + exact Hls'.
Qed.

(** One line of the file gives back the fields of its row. *)
Lemma row_first fs rest :
  Forall (fun f => len f <= FIELD_LIMIT) fs ->
  fs <> [] ->
  feed parse_reset (tokens AtStart (csv_writerow fs ++ rest)) =
  push fs (feed parse_reset (tokens AtStart rest)).
Proof.
  intros Hlim Hne. destruct fs as [|f fs]; [congruence|].
  inversion Hlim as [|? ? Hf Hfs]; subst.
  destruct (read_field f START_RECORD [] AtStart Hf (or_introl eq_refl))
    as (st' & ls' & Hls' & Hst' & Hfeed); [discriminate|].
  rewrite rd_reset at 1.
  destruct fs as [|f2 more].
  - destruct f as [|x f'].
    + reflexivity.
    + match goal with
      | |- context [csv_writerow ?l] =>
          assert (Hw : csv_writerow l = csv_field (x :: f') ++ [CR; LF])
      end.
      { unfold csv_writerow. cbn [join_fields]. unfold csv_field.
        destruct (existsb special (x :: f')); reflexivity. }
      rewrite Hw, <- app_assoc. cbn [app]. rewrite Hfeed, crlf_after.
      * rewrite rev_involutive. reflexivity.
      * destruct Hst' as [->|[->|[_ E]]]; auto.
        unfold csv_field in E. destruct (existsb special (x :: f'));
          discriminate.
      * exact Hls'.
  - match goal with
    | |- context [csv_writerow ?l] =>
        assert (Hw : csv_writerow l =
                     csv_field f ++ COMMA
                       :: join_fields (f2 :: more) ++ [CR; LF])
    end.
    { unfold csv_writerow.
      change (join_fields (f :: f2 :: more))
        with (csv_field f ++ COMMA :: join_fields (f2 :: more)).
      destruct (csv_field f); cbn [app]; rewrite <- ?app_assoc; reflexivity. }
    rewrite Hw, <- !app_assoc. cbn [app].
    rewrite Hfeed, comma_after.
    + rewrite rev_involutive, <- app_assoc.
      change ([CR; LF] ++ rest) with (CR :: LF :: rest).
      apply (row_rest (f2 :: more) [f] Mid rest); [exact Hfs| |];
        discriminate.
    + destruct Hst' as [->|[->|[-> _]]]; auto.
    + exact Hls'.
Qed.

Lemma rows_roundtrip (rows : list (list str)) :
  Forall (fun row => row <> []) rows ->
  Forall (Forall (fun f => len f <= FIELD_LIMIT)) rows ->
  read_rows parse_reset (file_lines (List.concat (List.map csv_writerow rows)))
  = (rows, true).
Proof.
  intros H Hlim. rewrite read_rows_tokens.
  induction H as [|row rows Hrow _ IH]; [reflexivity|].
  inversion Hlim as [|? ? Hr Hrs]; subst.
  cbn [List.map List.concat]. rewrite row_first by assumption.
  rewrite IH by exact Hrs. reflexivity.
Qed.


(** ** C4 *)

Lemma expense_of_written_row (e : Expense) :
  expense_of_row (dict_zip fieldnames (row_fields e) []) =
    Ok (Some (stored_record e)).
Proof.
  unfold expense_of_row, row_fields.
  change (cell (dict_zip fieldnames
                  [date e; category e; description e;
                   fmt_fixed2 false (amount e)] []) (lit "date"))
    with (Ok (Some (date e))).
  change (cell (dict_zip fieldnames
                  [date e; category e; description e;
                   fmt_fixed2 false (amount e)] []) (lit "category"))
    with (Ok (Some (category e))).
  change (cell (dict_zip fieldnames
                  [date e; category e; description e;
                   fmt_fixed2 false (amount e)] []) (lit "description"))
    with (Ok (Some (description e))).
  change (cell (dict_zip fieldnames
                  [date e; category e; description e;
                   fmt_fixed2 false (amount e)] []) (lit "amount"))
    with (Ok (Some (fmt_fixed2 false (amount e)))).
  cbn [bind float_of_cell]. rewrite float_of_fmt_stored. reflexivity.
Qed.

Lemma mapM_map_ok {A B C} (f : B -> result C) (h : A -> B) (g : A -> C) l :
  (forall a, In a l -> f (h a) = Ok (g a)) ->
  mapM f (List.map h l) = Ok (List.map g l).
Proof.
  induction l as [|a l IH]; intro H; cbn [List.map mapM]; [reflexivity|].
  rewrite (H a (or_introl eq_refl)). cbn [bind].
  rewrite IH by (intros; apply H; now right). reflexivity.
Qed.

Lemma all_records_map {A} (g : A -> Expense) (l : list A) :
  all_records (List.map (fun a => Some (g a)) l) = Some (List.map g l).
Proof.
  induction l as [|a l IH]; [reflexivity|].
  cbn [List.map all_records]. now rewrite IH.
Qed.

Lemma plain_text_len (s : str) : plain_text s = true -> len s <= FIELD_LIMIT.
Proof.
  unfold plain_text. intro H. apply andb_true_iff in H as [H _].
  now apply N.leb_le.
Qed.

Lemma plain_fields (fs : list str) :
  forallb plain_text fs = true -> Forall (fun f => len f <= FIELD_LIMIT) fs.
Proof.
  intro H. apply Forall_forall. intros f Hf. apply plain_text_len.
  rewrite forallb_forall in H. now apply H.
Qed.

Lemma fieldnames_fit : Forall (fun f => len f <= FIELD_LIMIT) fieldnames.
Proof. apply plain_fields. reflexivity. Qed.

(** Loading a saved file gives the saved records, the amounts as they were
    written with two decimals. *)
Lemma load_saved (t : ExpenseTracker) (es : list Expense) :
  forallb plain_record es = true ->
  load_expenses t (Some (file_text es)) =
    Ok {| filename := filename t; expenses := List.map stored_record es |}.
Proof.
  intro Hplain. unfold load_expenses.
  assert (Ht : file_text es =
               List.concat (List.map csv_writerow
                                     (fieldnames :: List.map row_fields es))).
  { unfold file_text, header_text. cbn [List.map List.concat].
    now rewrite map_map. }
  rewrite Ht, rows_roundtrip.
  - cbn [fst snd]. unfold dict_reader.
    assert (Hf : filter (fun row : list str =>
                           match row with [] => false | _ :: _ => true end)
                        (List.map row_fields es) = List.map row_fields es).
    { clear. induction es as [|e es IH]; [reflexivity|].
      cbn [List.map filter row_fields]. now rewrite IH. }
    rewrite Hf, map_map.
    rewrite (mapM_map_ok expense_of_row
               (fun e => dict_zip fieldnames (row_fields e) [])
               (fun e => Some (stored_record e))).
    + cbn [bind]. now rewrite all_records_map.
    + intros e _. apply expense_of_written_row.
  - constructor; [discriminate|].
    apply Forall_forall. intros row Hrow.
    apply in_map_iff in Hrow as (e & <- & _). discriminate.
  - constructor; [exact fieldnames_fit|].
    apply Forall_forall. intros row Hrow.
    apply in_map_iff in Hrow as (e & <- & He). apply plain_fields.
    rewrite forallb_forall in Hplain. now apply Hplain.
Qed.

Lemma append_all_ok (es : list Expense) : forall t f,
  forallb encodable_record (expenses t ++ es) = true ->
  append_all t f es =
    Ok ({| filename := filename t; expenses := expenses t ++ es |},
        match es with
        | [] => f
        | _ :: _ => Some (file_text (expenses t ++ es))
        end).
Proof.
  induction es as [|e es IH]; intros t f Henc.
  - cbn [append_all]. rewrite app_nil_r. destruct t; reflexivity.
  - cbn [append_all]. unfold add_expense. cbv zeta.
    assert (Hpre : forallb encodable_record (expenses t ++ [e]) = true).
    { rewrite forallb_app in *. apply andb_true_iff in Henc as [H1 H2].
      cbn [forallb] in *. apply andb_true_iff in H2 as [H2 _].
      now rewrite H1, H2. }
    rewrite save_expenses_ok by exact Hpre.
    cbn [bind fst snd expenses]. rewrite IH; cbn [filename expenses];
      rewrite <- app_assoc; cbn [app]; [|exact Henc].
    destruct es; reflexivity.
Qed.

(** C4 (as the code has it): for records whose texts can be encoded and
    are within the limits of the reader, appending [n] records to a new
    ledger and loading the file gives [n] records in the same order with
    the same date, category and description; the amount of each is the
    original amount rounded to the two decimals that were written.  When
    every amount has at most two decimals the records are the originals. *)
Theorem C4_append_then_load (name : str) (es : list Expense) :
  forallb encodable_record es = true ->
  forallb plain_record es = true ->
  exists t' f',
    append_all {| filename := name; expenses := [] |} None es = Ok (t', f') /\
    expenses t' = es /\
    new_tracker name f' =
      Ok {| filename := name; expenses := List.map stored_record es |} /\
    List.length (List.map stored_record es) = List.length es /\
    (Forall (fun e => stored (amount e) = amount e) es ->
     new_tracker name f' = Ok {| filename := name; expenses := es |}).
Proof.
  intros Henc Hplain.
  eexists _, _. split; [apply append_all_ok; exact Henc|].
  cbn [expenses filename app].
  split; [reflexivity|].
  assert (Hload : new_tracker name
                    match es with
                    | [] => None
                    | _ :: _ => Some (file_text es)
                    end =
                  Ok {| filename := name;
                        expenses := List.map stored_record es |}).
  { unfold new_tracker. destruct es as [|e es']; [reflexivity|].
    now apply load_saved. }
  split; [exact Hload|]. split; [apply length_map|].
  intro H. rewrite Hload. do 2 f_equal. clear Hload Henc Hplain.
  induction H as [|e es' He _ IH]; [reflexivity|].
  cbn [List.map]. rewrite IH. f_equal.
  unfold stored_record. rewrite He. destruct e; reflexivity.
Qed.


(** * Further properties of the script *)

(** ** The file follows the ledger *)

Lemma add_expense_inv (t t' : ExpenseTracker) (e : Expense) (f' : disk) :
  add_expense t e = Ok (t', f') ->
  t' = {| filename := filename t; expenses := expenses t ++ [e] |} /\
  f' = Some (file_text (expenses t ++ [e])).
Proof.
  unfold add_expense. cbv zeta. rewrite save_expenses_cases. cbn [expenses].
  destruct (forallb encodable_record (expenses t ++ [e])); [|discriminate].
  cbn [bind]. intros [= <- <-]. now split.
Qed.

(** X1: for records whose texts can be encoded and are within the limits of
    the reader, after [add_expense] the ledger has the new record at its
    end and the file, loaded again, gives the records of the ledger in
    order, each amount as it is written with two decimals. *)
Theorem add_expense_reload (t : ExpenseTracker) (e : Expense) :
  forallb encodable_record (expenses t ++ [e]) = true ->
  forallb plain_record (expenses t ++ [e]) = true ->
  exists t' f',
    add_expense t e = Ok (t', f') /\
    expenses t' = expenses t ++ [e] /\
    filename t' = filename t /\
    load_expenses t' f' =
      Ok {| filename := filename t';
            expenses := List.map stored_record (expenses t') |}.
Proof.
  intros Henc Hplain.
  unfold add_expense. cbv zeta. rewrite save_expenses_ok by exact Henc.
  cbn [bind expenses].
  eexists _, _. split; [reflexivity|]. cbn [expenses filename].
  split; [reflexivity|]. split; [reflexivity|].
  apply (load_saved {| filename := filename t; expenses := expenses t ++ [e] |}).
  exact Hplain.
Qed.

Lemma forallb_del_at {A} (P : A -> bool) (i : nat) (l : list A) :
  forallb P l = true -> forallb P (del_at i l) = true.
Proof.
  unfold del_at. revert l.
  induction i as [|i IH]; intros [|x l] H; try reflexivity;
    cbn [firstn skipn app forallb] in *;
    apply andb_true_iff in H as [Hx Hl].
  - exact Hl.
  - rewrite Hx. now apply IH.
Qed.

(** X2: for records whose texts can be encoded and are within the limits of
    the reader, after a successful [delete_entry] the position was in range
    and the file, loaded again, gives the records that are left in the
    ledger; a refused [delete_entry] touches neither the ledger nor the
    file. *)
Theorem delete_entry_reload (t : ExpenseTracker) (f : disk) (p : Z) :
  forallb encodable_record (expenses t) = true ->
  forallb plain_record (expenses t) = true ->
  exists ok t' f',
    delete_entry t f p = Ok (ok, t', f') /\
    if ok : bool
    then (1 <= p <= Z.of_nat (List.length (expenses t)))%Z /\
         load_expenses t' f' =
           Ok {| filename := filename t';
                 expenses := List.map stored_record (expenses t') |}
    else t' = t /\ f' = f.
Proof.
  intros Henc Hplain.
  unfold delete_entry.
  destruct ((p <? 1) || (p >? Z.of_nat (List.length (expenses t))))%Z eqn:E.
  - exists false, t, f. split; [reflexivity|]. split; reflexivity.
  - cbv zeta. rewrite save_expenses_ok
      by (cbn [expenses]; apply forallb_del_at, Henc).
    cbn [bind expenses].
    eexists true, _, _. split; [reflexivity|]. split.
    + apply orb_false_iff in E as [E1 E2].
      apply Z.ltb_ge in E1. rewrite Z.gtb_ltb in E2. apply Z.ltb_ge in E2.
      lia.
    + cbn [filename expenses].
      apply (load_saved
               {| filename := filename t;
                  expenses := del_at (Z.to_nat (p - 1)) (expenses t) |}).
      apply forallb_del_at, Hplain.
Qed.

(** ** Searching *)

Lemma print_results_snoc (l : list Expense) (e : Expense) :
  print_results (l ++ [e]) = List.map Expense_str l ++ [Expense_str e].
Proof.
  unfold print_results. rewrite map_app. cbn [List.map].
  destruct (l ++ [e]) eqn:E; [now destruct l|]. now rewrite app_nil_r.
Qed.

(** X3: once [add_expense] has added a record, [search_by_date] for its
    date prints the title, the lines of the records found before and the
    line of the new record, and not the notice that nothing was found; for
    any other date it prints what it printed before. *)
Theorem search_by_date_add_expense (t t' : ExpenseTracker) (e : Expense)
    (f' : disk) :
  add_expense t e = Ok (t', f') ->
  search_by_date t' (date e) =
    (LF :: lit "Expenses on date '" ++ date e ++ lit "':")
      :: List.map Expense_str (date_matches t (date e)) ++ [Expense_str e] /\
  forall day, day <> date e -> search_by_date t' day = search_by_date t day.
Proof.
  intro H. apply add_expense_inv in H as [-> _].
  unfold search_by_date, date_matches. cbn [expenses]. split.
  - rewrite filter_app. cbn [filter]. rewrite str_eqb_refl.
    now rewrite print_results_snoc.
  - intros day Hd. rewrite filter_app. cbn [filter].
    replace (str_eqb (date e) day) with false
      by (symmetry; apply str_eqb_neq; congruence).
    now rewrite app_nil_r.
Qed.

(** X4: [search_by_category] does not look at letter case: once
    [add_expense] has added a record, a search for any name whose
    lower-case form is that of the record's category prints the records
    found before and then the new record; a search for a name with another
    lower-case form prints what it printed before. *)
Theorem search_by_category_add_expense (t t' : ExpenseTracker) (e : Expense)
    (f' : disk) :
  add_expense t e = Ok (t', f') ->
  (forall name, str_lower name = str_lower (category e) ->
     search_by_category t' name =
       (LF :: lit "Expenses in category '" ++ name ++ lit "':")
         :: List.map Expense_str (category_matches t name)
         ++ [Expense_str e]) /\
  (forall name, str_lower name <> str_lower (category e) ->
     search_by_category t' name = search_by_category t name).
Proof.
  intro H. apply add_expense_inv in H as [-> _].
  unfold search_by_category, category_matches. cbn [expenses]. split.
  - intros name Hn. rewrite filter_app. cbn [filter].
    rewrite Hn, str_eqb_refl. now rewrite print_results_snoc.
  - intros name Hn. rewrite filter_app. cbn [filter].
    replace (str_eqb (str_lower (category e)) (str_lower name)) with false
      by (symmetry; apply str_eqb_neq; congruence).
    now rewrite app_nil_r.
Qed.

(** ** Lengths of the printed lines *)

Lemma len_ljust (w : N) (s : str) : len (ljust w s) = N.max w (len s).
Proof. unfold ljust. rewrite len_app, len_repeat. lia. Qed.

Lemma len_rjust (w : N) (s : str) : len (rjust w s) = N.max w (len s).
Proof. unfold rjust. rewrite len_app, len_repeat. lia. Qed.

(** X5: the line of a record is never cut: it is as long as the date, the
    category in 15 columns or more, the description in 30 columns or more,
    the amount in 8 columns or more, and the 10 characters between them. *)
Theorem Expense_str_length (e : Expense) :
  len (Expense_str e) =
    len (date e) + N.max 15 (len (category e))
      + N.max 30 (len (description e))
      + N.max 8 (len (fmt_fixed2 false (amount e))) + 10 /\
  exists pad1 pad2 pad3,
    Expense_str e =
      date e ++ lit " | " ++ category e ++ repeat SPACE pad1 ++ lit " | "
        ++ description e ++ repeat SPACE pad2 ++ lit " | $"
        ++ repeat SPACE pad3 ++ fmt_fixed2 false (amount e).
Proof.
  split.
  - unfold Expense_str. rewrite !len_app, !len_ljust, len_rjust.
    change (len (lit " | ")) with 3. change (len (lit " | $")) with 4. lia.
  - unfold Expense_str, ljust, rjust. eexists _, _, _.
    rewrite <- !app_assoc. reflexivity.
Qed.


(** ** The table of [view_expenses] *)

Lemma max_default_bound (h d : N) (l : list N) :
  l <> [] ->
  h <= N.max h (max_default d l) /\
  forall x, In x l -> x <= N.max h (max_default d l).
Proof.
  intro Hl. destruct (max_default_is_max h d l Hl) as [_ Hub]. split.
  - apply Hub. now left.
  - intros x Hx. apply Hub. now right.
Qed.

Lemma view_widths_bounds (t : ExpenseTracker) (w : widths) :
  view_widths t = Some w ->
  len (lit "Nr.") <= nr_w w /\ len (lit "Datum") <= date_w w /\
  len (lit "Kategorie") <= cat_w w /\ len (lit "Beschreibung") <= desc_w w /\
  len (lit "Betrag") <= amt_w w /\
  total_width w = nr_w w + 3 + date_w w + 3 + cat_w w + 3 + desc_w w + 3 + amt_w w /\
  (forall i, 1 <= i <= N.of_nat (List.length (expenses t)) ->
             len (str_of_N i) <= nr_w w) /\
  (forall e, In e (expenses t) ->
             len (date e) <= date_w w /\ len (category e) <= cat_w w /\
             len (description e) <= desc_w w /\
             len (format_amount (amount e)) <= amt_w w) /\
  len (format_amount (get_total t)) <= amt_w w.
Proof.
  unfold view_widths. destruct (expenses t) as [|e0 es] eqn:E; [discriminate|].
  intros [= <-]. cbn [nr_w date_w cat_w desc_w amt_w total_width].
  set (l := e0 :: es) in *.
  assert (Hl : forall (A : Type) (g : Expense -> A), List.map g l <> [])
    by (intros; discriminate).
  destruct (max_default_bound 10 10 _ (Hl _ (fun e => len (date e))))
    as [Hd0 Hd].
  destruct (max_default_bound (len (lit "Kategorie")) 8 _
              (Hl _ (fun e => len (category e)))) as [Hc0 Hc].
  destruct (max_default_bound (len (lit "Beschreibung")) 30 _
              (Hl _ (fun e => len (description e)))) as [Hs0 Hs].
  assert (Hal : List.map len (List.map (fun e => format_amount (amount e)) l
                                ++ [format_amount (get_total t)]) <> []).
  { rewrite map_app. intro H. apply app_eq_nil in H as [_ H]. discriminate. }
  destruct (max_default_bound (len (lit "Betrag")) 12 _ Hal) as [Ha0 Ha].
  refine (conj _ (conj _ (conj Hc0 (conj Hs0 (conj Ha0 (conj eq_refl
            (conj _ (conj _ _)))))))).
  - lia.
  - change (len (lit "Datum")) with 5. lia.
  - intros i Hi.
    etransitivity; [apply (str_of_N_len_mono i (N.of_nat (List.length l)))|].
    + apply Hi.
    + apply N.le_max_r.
  - intros e He. refine (conj _ (conj _ (conj _ _))).
    + apply Hd. apply in_map_iff. now exists e.
    + apply Hc. apply in_map_iff. now exists e.
    + apply Hs. apply in_map_iff. now exists e.
    + apply Ha. apply in_map_iff. exists (format_amount (amount e)).
      split; [reflexivity|]. apply in_or_app. left.
      apply in_map_iff. now exists e.
  - apply Ha. apply in_map_iff. exists (format_amount (get_total t)).
    split; [reflexivity|]. apply in_or_app. right. now left.
Qed.

Lemma map_enumerate_length {A B} (f : N -> A -> B) (l : list A) (i : N) :
  List.length (map_enumerate f i l) = List.length l.
Proof.
  revert i; induction l as [|a l IH]; intro i; cbn; [reflexivity|].
  now rewrite IH.
Qed.

Lemma map_enumerate_Forall {A B} (f : N -> A -> B) (Q : B -> Prop)
    (l : list A) (i : N) :
  (forall k a, i <= k < i + N.of_nat (List.length l) -> In a l -> Q (f k a)) ->
  Forall Q (map_enumerate f i l).
Proof.
  revert i; induction l as [|a l IH]; intros i H; cbn [map_enumerate];
    constructor.
  - apply H; [cbn [List.length]; lia | now left].
  - apply IH. intros k b Hk Hb. apply H; [cbn [List.length]; lia | now right].
Qed.

(** X6: the table of a ledger that is not empty is aligned: the header and
    the two rules have [total_width] characters, there is one line per
    record, and every record line has [total_width] characters besides its
    colour sequences; the total line has two characters less. *)
Theorem view_expenses_aligned (t : ExpenseTracker) :
  expenses t <> [] ->
  exists w header rows total,
    view_widths t = Some w /\
    view_expenses t =
      [LF :: header; repeat MINUS (N.to_nat (total_width w))]
        ++ rows ++ [repeat MINUS (N.to_nat (total_width w)); total] /\
    len header = total_width w /\
    List.length rows = List.length (expenses t) /\
    Forall (fun row =>
              len row =
                total_width w + (2 * len PURPLE + len GREEN + len BLUE
                                 + len ORANGE + 5 * len RESET)) rows /\
    len total + 2 = total_width w + (len YELLOW + len ORANGE + 2 * len RESET).
Proof.
  intro Hne. unfold view_expenses.
  destruct (view_widths t) as [w|] eqn:Hw.
  2:{ unfold view_widths in Hw. destruct (expenses t); [congruence|discriminate]. }
  destruct (view_widths_bounds t w Hw)
    as (Hn & Hd & Hc & Hs & Ha & Htw & Hi & He & Ht).
  eexists w, _, _, _. split; [reflexivity|]. split; [reflexivity|].
  change (len (lit "Nr.")) with 3 in Hn. change (len (lit "Datum")) with 5 in Hd.
  change (len (lit "Kategorie")) with 9 in Hc.
  change (len (lit "Beschreibung")) with 12 in Hs.
  change (len (lit "Betrag")) with 6 in Ha.
  split; [|split; [|split]].
  - rewrite !len_app, !len_ljust, len_rjust. unfold SEP.
    change (len (lit " | ")) with 3. change (len (lit "Nr.")) with 3.
    change (len (lit "Datum")) with 5. change (len (lit "Kategorie")) with 9.
    change (len (lit "Beschreibung")) with 12.
    change (len (lit "Betrag")) with 6. lia.
  - apply map_enumerate_length.
  - apply map_enumerate_Forall. intros k e Hk Hin.
    destruct (He e Hin) as (H1 & H2 & H3 & H4).
    specialize (Hi k ltac:(lia)).
    unfold view_row. rewrite !len_app, !len_ljust, len_rjust. unfold SEP.
    change (len (lit " | ")) with 3. lia.
  - rewrite !len_app, len_ljust, len_rjust, len_cons.
    change (len (lit "Gesamteinahmen:")) with 15. change (len []) with 0. lia.
Qed.


(** ** Typing a hidden text *)

Lemma plain_key_inv windows ch :
  plain_key windows ch = true ->
  (ch =? CR) || (ch =? LF) = false /\ (ch =? 3) = false /\
  is_erase windows ch = false.
Proof.
  unfold plain_key. rewrite negb_true_iff, !orb_false_iff.
  intros (((H1 & H2) & H3) & H4). now rewrite H1, H2.
Qed.

Lemma read_password_plain windows (w : str) : forall acc keys,
  Forall (fun ch => plain_key windows ch = true) w ->
  read_password windows acc (w ++ keys) =
  read_password windows (rev w ++ acc) keys.
Proof.
  induction w as [|x w IH]; intros acc keys H; [reflexivity|].
  inversion H as [|? ? Hx Hw]; subst.
  apply plain_key_inv in Hx as (H1 & H2 & H3).
  cbn [app read_password]. rewrite H1, H2, H3.
  rewrite (IH _ _ Hw). cbn [rev]. now rewrite <- app_assoc.
Qed.

(** X7: the characters typed before Enter are returned in order and the
    keys after Enter are left; an erase key takes back the character
    typed before it, and does nothing when no character is there. *)
Theorem get_password_masked_typed (windows : bool) (w : str) :
  Forall (fun ch => plain_key windows ch = true) w ->
  (forall rest,
     get_password_masked windows (w ++ CR :: rest) = Entered w rest /\
     get_password_masked windows (w ++ LF :: rest) = Entered w rest) /\
  (forall x b keys,
     plain_key windows x = true -> is_erase windows b = true ->
     get_password_masked windows (w ++ x :: b :: keys) =
     get_password_masked windows (w ++ keys)) /\
  (forall b keys,
     is_erase windows b = true ->
     get_password_masked windows (b :: keys) =
     get_password_masked windows keys).
Proof.
  intro Hw. unfold get_password_masked.
  assert (Herase : forall b, is_erase windows b = true ->
                     (b =? CR) || (b =? LF) = false /\ (b =? 3) = false).
  { intros b Hb. unfold is_erase in Hb.
    destruct windows;
      [|apply orb_true_iff in Hb as [Hb|Hb]]; apply N.eqb_eq in Hb; subst b;
      split; reflexivity. }
  split; [|split].
  - intro rest. rewrite !(read_password_plain windows w [] _ Hw).
    cbn [read_password]. rewrite app_nil_r, rev_involutive.
    split; reflexivity.
  - intros x b keys Hx Hb.
    rewrite !(read_password_plain windows w [] _ Hw).
    apply plain_key_inv in Hx as (H1 & H2 & H3).
    destruct (Herase b Hb) as [H4 H5].
    cbn [read_password]. rewrite H1, H2, H3, H4, H5, Hb. reflexivity.
  - intros b keys Hb. destruct (Herase b Hb) as [H4 H5].
    cbn [read_password]. rewrite H4, H5, Hb. reflexivity.
Qed.

Lemma read_password_clean windows (keys : list char) : forall acc pw rest,
  Forall (fun ch => plain_key windows ch = true) acc ->
  read_password windows acc keys = Entered pw rest ->
  Forall (fun ch => plain_key windows ch = true) pw /\
  exists used, keys = used ++ rest /\ used <> [].
Proof.
  induction keys as [|ch keys IH]; intros acc pw rest Hacc H;
    [discriminate|].
  cbn [read_password] in H.
  destruct ((ch =? CR) || (ch =? LF)) eqn:E1.
  - injection H as <- <-. split; [now apply Forall_rev|].
    exists [ch]. split; [reflexivity | discriminate].
  - destruct (ch =? 3) eqn:E2; [discriminate|].
    assert (Hnext : forall acc',
              Forall (fun ch => plain_key windows ch = true) acc' ->
              read_password windows acc' keys = Entered pw rest ->
              Forall (fun ch => plain_key windows ch = true) pw /\
              exists used, ch :: keys = used ++ rest /\ used <> []).
    { intros acc' Hacc' H'. destruct (IH acc' pw rest Hacc' H')
        as (Hpw & used & -> & _).
      split; [exact Hpw|]. exists (ch :: used).
      split; [reflexivity | discriminate]. }
    destruct (is_erase windows ch) eqn:E3.
    + destruct acc as [|a acc']; [now apply (Hnext [])|].
      inversion Hacc; subst. now apply (Hnext acc').
    + apply (Hnext (ch :: acc)); [|exact H].
      constructor; [|exact Hacc].
      unfold plain_key. now rewrite E1, E2, E3.
Qed.

(** X8: the text [get_password_masked] returns holds no Enter, Ctrl-C or
    erase key, and at least the Enter key was taken from the keys. *)
Theorem get_password_masked_clean (windows : bool) (keys : list char)
    (pw : str) (rest : list char) :
  get_password_masked windows keys = Entered pw rest ->
  Forall (fun ch => plain_key windows ch = true) pw /\
  exists used, keys = used ++ rest /\ used <> [].
Proof.
  apply read_password_clean. constructor.
Qed.

(** ** Login *)



(** ** The menu *)

(** X10: choice "7" changes the ledger or the file only when the typed
    text is the one it compares with, the typed number consists of digits
    and is a position of the ledger; then exactly the record at that
    position is removed and the file is rewritten. *)
Theorem menu_delete_gate (t t' : ExpenseTracker) (f f' : disk)
    (num_input pw : str) :
  menu_delete t f num_input pw = Ok (t', f') ->
  (t', f') <> (t, f) ->
  pw = DELETE_KEY /\ str_isdigit (strip num_input) = true /\
  exists p,
    int_of_str (strip num_input) = Ok p /\
    (1 <= p <= Z.of_nat (List.length (expenses t)))%Z /\
    expenses t' = del_at (Z.to_nat (p - 1)) (expenses t) /\
    filename t' = filename t /\
    f' = Some (file_text (expenses t')).
Proof.
  unfold menu_delete. intros H Hne.
  destruct (str_isdigit (strip num_input)) eqn:Ed; cbn [negb] in H;
    [|injection H as <- <-; congruence].
  destruct (int_of_str (strip num_input)) as [p|] eqn:Ei; [|discriminate].
  cbn [bind] in H.
  destruct (str_eqb pw DELETE_KEY) eqn:Ep; cbn [negb] in H;
    [|injection H as <- <-; congruence].
  apply str_eqb_eq in Ep. split; [exact Ep|]. split; [reflexivity|].
  exists p. split; [reflexivity|].
  unfold delete_entry in H.
  destruct ((p <? 1) || (p >? Z.of_nat (List.length (expenses t))))%Z eqn:E.
  - cbn in H. injection H as <- <-. congruence.
  - cbv zeta in H. rewrite save_expenses_cases in H. cbn [expenses] in H.
    destruct (forallb encodable_record
                (del_at (Z.to_nat (p - 1)) (expenses t))); [|discriminate].
    cbn in H. injection H as <- <-.
    apply orb_false_iff in E as [E1 E2].
    apply Z.ltb_ge in E1. rewrite Z.gtb_ltb in E2. apply Z.ltb_ge in E2.
    repeat split; try lia.
Qed.

Lemma never_positive (m : float) : fgt (fneg (fabs m)) fzero = false.
Proof. destruct m as [s|s| |s m e]; reflexivity. Qed.

Lemma never_negative (m : float) : SFltb (fabs m) fzero = false.
Proof. destruct m as [s|s| |s m e]; reflexivity. Qed.

(** X11: choice "1" either leaves the ledger and the file as they are, or
    appends exactly one record and rewrites the file; the record holds the
    typed date, category and description without the white space around
    them, and its amount is the parsed amount without its sign, negated
    for "-": an entry of type "-" is never greater than zero and an entry
    of type "+" is never less than zero. *)
Theorem menu_add_effect (t t' : ExpenseTracker) (f f' : disk)
    (d c ds a sign : str) :
  menu_add t f d c ds a sign = Ok (t', f') ->
  (t' = t /\ f' = f) \/
  exists e m,
    expenses t' = expenses t ++ [e] /\ filename t' = filename t /\
    f' = Some (file_text (expenses t')) /\
    date e = strip d /\ category e = strip c /\ description e = strip ds /\
    parse_amount (Some (strip a)) = Ok m /\
    ((strip sign = lit "-" /\ amount e = fneg (fabs m) /\
      fgt (amount e) fzero = false) \/
     (strip sign = lit "+" /\ amount e = fabs m /\
      SFltb (amount e) fzero = false)).
Proof.
  unfold menu_add. intro H.
  destruct (valid_date (strip d)); cbn [negb] in H;
    [|left; now injection H as <- <-].
  destruct (parse_amount (Some (strip a))) as [m|] eqn:Ea;
    [|left; now injection H as <- <-].
  right.
  assert (Hs : exists x, entry_amount m sign = Ok x /\
            ((strip sign = lit "-" /\ x = fneg (fabs m)) \/
             (strip sign = lit "+" /\ x = fabs m))).
  { unfold entry_amount.
    destruct (str_eqb (strip sign) (lit "-")) eqn:Em.
    - rewrite orb_true_r. simpl. rewrite Em. apply str_eqb_eq in Em.
      eexists. split; [reflexivity|]. left. now split.
    - destruct (str_eqb (strip sign) (lit "+")) eqn:Ep.
      + simpl. rewrite Em. apply str_eqb_eq in Ep.
        eexists. split; [reflexivity|]. right. now split.
      + unfold entry_amount in H. rewrite Em, Ep in H. discriminate. }
  destruct Hs as (x & Hx & Hcase). rewrite Hx in H. cbn [bind] in H.
  apply add_expense_inv in H as [-> ->].
  eexists _, m. cbn [expenses filename date category description amount].
  repeat split; try reflexivity.
  destruct Hcase as [[Hsg ->]|[Hsg ->]]; [left | right];
    repeat split; auto; cbn [amount];
    [apply never_positive | apply never_negative].
Qed.


(** ** The reader accepts every file that is not too long *)

Lemma snd_push (row : list str) (p : rows_read) : snd (push row p) = snd p.
Proof. reflexivity. Qed.

Lemma fst_push (row : list str) (p : rows_read) :
  fst (push row p) = row :: fst p.
Proof. reflexivity. Qed.

Lemma step_char (r : reader) (c : char) :
  state r <> EAT_CRNL -> field_len r < FIELD_LIMIT ->
  exists r', parse_process_char r (Some c) = Some r' /\
             (is_nl c = false -> state r' <> EAT_CRNL) /\
             field_len r' <= field_len r + 1.
Proof.
  intros H Hroom. destruct r as [st fld n flds].
  cbn [state field_len] in *.
  assert (Hadd : forall st',
            parse_add_char {| state := st; field := fld; field_len := n;
                              fields := flds |} c st' =
            Some {| state := st'; field := c :: fld; field_len := n + 1;
                    fields := flds |}).
  { intro st'. unfold parse_add_char. cbn [field field_len fields].
    destruct (FIELD_LIMIT <=? n) eqn:E; [|reflexivity].
    apply N.leb_le in E. lia. }
  unfold parse_process_char, start_field. cbn [state].
  destruct st; try congruence;
    destruct (is_nl c) eqn:En; destruct (c =? QUOTE) eqn:Eq;
    destruct (c =? COMMA) eqn:Ec;
    rewrite ?Hadd;
    eexists; (split; [reflexivity|]);
    (split; [intros; cbn; discriminate|]);
    cbn [field_len parse_save_field set_state]; lia.
Qed.

Lemma step_mark (r : reader) :
  exists r', parse_process_char r None = Some r' /\ state r' <> EAT_CRNL /\
             field_len r' <= field_len r.
Proof.
  destruct r as [st fld n flds]. unfold parse_process_char, start_field.
  cbn [state]. destruct st; eexists; (split; [reflexivity|]);
    (split; [cbn; discriminate|]);
    cbn [field_len parse_save_field set_state]; lia.
Qed.

Lemma step_lf_eat (r : reader) :
  state r = EAT_CRNL -> parse_process_char r (Some LF) = Some r.
Proof.
  intro H. unfold parse_process_char. rewrite H. reflexivity.
Qed.

Lemma end_of_input_ends (r : reader) : snd (end_of_input r) = true.
Proof.
  unfold end_of_input. destruct (field r), (state r); reflexivity.
Qed.

Lemma feed_mark_fits (ts : list (option char)) (n : N) :
  (forall r, state r <> EAT_CRNL -> field_len r + n <= FIELD_LIMIT ->
             snd (feed r ts) = true) ->
  forall r, field_len r + n <= FIELD_LIMIT ->
            snd (feed r (None :: ts)) = true.
Proof.
  intros H r Hr. cbn [feed]. destruct (step_mark r) as (r' & -> & Hs & Hl).
  destruct (state r') eqn:E; try (apply H; [congruence | lia]).
  rewrite snd_push. apply H; [discriminate|].
  change (field_len parse_reset) with 0. lia.
Qed.

Lemma feed_fits (text : str) : forall r ls,
  (state r = EAT_CRNL -> ls = AfterCR) ->
  field_len r + len text <= FIELD_LIMIT ->
  snd (feed r (tokens ls text)) = true.
Proof.
  induction text as [|c s IH]; intros r ls Hinv Hlen.
  - cbn [tokens]. destruct ls; try apply end_of_input_ends;
      apply (feed_mark_fits [] 0); try lia; intros; apply end_of_input_ends.
  - rewrite len_cons in Hlen.
    assert (Hstart : forall r', state r' <> EAT_CRNL ->
              field_len r' + len s <= FIELD_LIMIT ->
              snd (feed r' (tokens AtStart s)) = true)
      by (intros r' Hr' Hl; apply IH; [congruence | exact Hl]).
    assert (Hmid : forall r', state r' <> EAT_CRNL ->
              field_len r' + len s <= FIELD_LIMIT ->
              snd (feed r' (tokens Mid s)) = true)
      by (intros r' Hr' Hl; apply IH; [congruence | exact Hl]).
    assert (Hcr : forall r', field_len r' + len s <= FIELD_LIMIT ->
              snd (feed r' (tokens AfterCR s)) = true)
      by (intros r' Hl; apply IH; [reflexivity | exact Hl]).
    assert (HA : forall r', state r' <> EAT_CRNL ->
              field_len r' + (1 + len s) <= FIELD_LIMIT ->
              snd (feed r' (Some c :: (if c =? LF then None :: tokens AtStart s
                                       else if c =? CR then tokens AfterCR s
                                       else tokens Mid s))) = true).
    { intros r' Hr' Hl. cbn [feed].
      destruct (step_char r' c Hr') as (r2 & -> & Hnl & Hl2); [lia|].
      destruct (c =? LF) eqn:El;
        [apply (feed_mark_fits _ (len s)); [exact Hstart | lia]|].
      destruct (c =? CR) eqn:Ec; [apply Hcr; lia|].
      apply Hmid; [|lia]. apply Hnl. unfold is_nl. now rewrite El, Ec. }
    cbn [tokens]. destruct ls.
    + apply HA; [|exact Hlen]. intro E. specialize (Hinv E). discriminate.
    + apply HA; [|exact Hlen]. intro E. specialize (Hinv E). discriminate.
    + destruct (c =? LF) eqn:El.
      * cbn [app]. destruct (state r) eqn:Es;
          try (apply HA; [congruence | exact Hlen]).
        cbn [feed]. apply N.eqb_eq in El. subst c.
        rewrite (step_lf_eat r Es).
        apply (feed_mark_fits _ (len s)); [exact Hstart | lia].
      * cbn [app]. apply (feed_mark_fits _ (1 + len s)); [|exact Hlen].
        intros r' Hr' Hl. exact (HA r' Hr' Hl).
Qed.

(** A file of at most [FIELD_LIMIT] characters is read to its end. *)
Lemma read_rows_fits (text : str) :
  len text <= FIELD_LIMIT ->
  snd (read_rows parse_reset (file_lines text)) = true.
Proof.
  intro H. rewrite read_rows_tokens. apply feed_fits; [discriminate|].
  change (field_len parse_reset) with 0. lia.
Qed.

Lemma float_of_str_raise (a : str) (e : exn) :
  float_of_str a = Raise e -> e = ValueError.
Proof.
  unfold float_of_str.
  repeat match goal with
         | |- context [match ?x with _ => _ end] => destruct x
         end; congruence.
Qed.

Lemma add_user_names (rs : list (dict (option str))) : forall users,
  Forall (fun kv : str * str => fst kv <> []) users ->
  NoDup (List.map fst users) ->
  Forall (fun kv : str * str => fst kv <> []) (fold_left add_user rs users) /\
  NoDup (List.map fst (fold_left add_user rs users)).
Proof.
  induction rs as [|r rs IH]; intros users Hne Hnd; [now split|].
  cbn [fold_left]. apply IH.
  - unfold add_user.
    destruct (strip (get_or_empty r (lit "username"))) as [|c u] eqn:E;
      [exact Hne|].
    clear - Hne. induction users as [|[k v] users IHu]; cbn [dict_set].
    + repeat constructor. discriminate.
    + inversion Hne; subst. destruct (str_eqb (c :: u) k);
        constructor; auto.
  - unfold add_user.
    destruct (strip (get_or_empty r (lit "username"))); [exact Hnd|].
    now apply dict_set_NoDup.
Qed.

(** X12: on a file that holds a text within the limits of the reader
    [load_users] does not fail, whatever the text is.  A file that exists
    is left as it is; a missing file is created with the two accounts
    "admin" and "user", which are then the table.  No user of the table
    has an empty name and no name occurs twice. *)
Theorem load_users_total (f : disk) :
  plain_file f = true ->
  exists users,
    load_users f =
      Ok (users,
          Some (match f with
                | Some text => text
                | None => default_users_text
                end)) /\
    Forall (fun kv : str * str => fst kv <> []) users /\
    NoDup (List.map fst users) /\
    load_users None =
      Ok ([(lit "admin", lit "1234"); (lit "user", lit "userpass")],
          Some default_users_text).
Proof.
  intro Hplain.
  unfold load_users at 1. cbv zeta.
  rewrite read_rows_fits.
  - eexists. split; [reflexivity|].
    match goal with
    | |- context [fold_left add_user ?rs []] =>
        destruct (add_user_names rs [])
          as [Hne Hnd]; [constructor | constructor |]
    end.
    split; [exact Hne|]. split; [exact Hnd|].
    vm_compute. reflexivity.
  - destruct f as [text|]; [now apply plain_text_len|].
    apply plain_text_len. reflexivity.
Qed.

(** X13: on a file that holds a text within the limits of the reader
    [load_expenses] never ends with [csv.Error]: without a file it leaves
    the ledger as it is, and with a file it loads records, or raises
    [KeyError] for a column the header lacks, [TypeError] for an amount
    cell that a short row lacks, or [ValueError] for an amount that is no
    number, or it goes on with a record that holds [None] for a text cell
    that a short row lacks. *)
Theorem load_expenses_errors (t : ExpenseTracker) (f : disk) :
  plain_file f = true ->
  load_expenses t None = Ok t /\
  ((exists es, load_expenses t f =
                 Ok {| filename := filename t; expenses := es |}) \/
   load_expenses t f = Raise KeyError \/
   load_expenses t f = Raise TypeError \/
   load_expenses t f = Raise ValueError \/
   load_expenses t f = Raise NoneText).
Proof.
  intro Hplain. split; [reflexivity|].
  unfold load_expenses. destruct f as [text|].
  2:{ left. exists (expenses t). now destruct t. }
  cbv zeta. rewrite read_rows_fits by (now apply plain_text_len).
  assert (Hrow : forall r, (exists e, expense_of_row r = Ok e) \/
                           expense_of_row r = Raise KeyError \/
                           expense_of_row r = Raise TypeError \/
                           expense_of_row r = Raise ValueError).
  { intro r. unfold expense_of_row, cell.
    repeat match goal with
           | |- context [dict_get ?k r] =>
               destruct (dict_get k r) as [?|]; cbn [bind]; auto
           end.
    match goal with
    | |- context [float_of_cell ?a] =>
        destruct a as [a|]; cbn [float_of_cell bind]; auto;
        destruct (float_of_str a) as [x|e] eqn:E; cbn [bind]; eauto
    end.
    rewrite (float_of_str_raise _ _ E). auto. }
  assert (Hall : forall rs,
            (exists es, mapM expense_of_row rs = Ok es) \/
            mapM expense_of_row rs = Raise KeyError \/
            mapM expense_of_row rs = Raise TypeError \/
            mapM expense_of_row rs = Raise ValueError).
  { induction rs as [|r rs IH]; cbn [mapM]; [left; now exists []|].
    destruct (Hrow r) as [[e ->]|[->|[->| ->]]]; cbn [bind]; auto.
    destruct IH as [[es ->]|[->|[->| ->]]]; cbn [bind]; eauto. }
  match goal with
  | |- context [mapM expense_of_row ?rs] =>
      destruct (Hall rs) as [[es ->]|[->|[->| ->]]]; cbn [bind]; auto
  end.
  destruct (all_records es) as [es'|]; eauto 6.
Qed.


(** ** Loading is all or nothing *)


Lemma expense_of_raw_row (r : raw_row) :
  expense_of_row (dict_zip fieldnames (raw_fields r) []) =
    if is_float (raw_amount r) then Ok (Some (expense_of_raw r))
    else Raise ValueError.
Proof.
  unfold expense_of_row, raw_fields.
  change (cell (dict_zip fieldnames
                  [raw_date r; raw_category r; raw_description r;
                   raw_amount r] []) (lit "date"))
    with (Ok (Some (raw_date r))).
  change (cell (dict_zip fieldnames
                  [raw_date r; raw_category r; raw_description r;
                   raw_amount r] []) (lit "category"))
    with (Ok (Some (raw_category r))).
  change (cell (dict_zip fieldnames
                  [raw_date r; raw_category r; raw_description r;
                   raw_amount r] []) (lit "description"))
    with (Ok (Some (raw_description r))).
  change (cell (dict_zip fieldnames
                  [raw_date r; raw_category r; raw_description r;
                   raw_amount r] []) (lit "amount"))
    with (Ok (Some (raw_amount r))).
  cbn [bind float_of_cell]. unfold is_float, expense_of_raw.
  destruct (float_of_str (raw_amount r)) as [x|e] eqn:E; cbn [bind].
  - reflexivity.
  - now rewrite (float_of_str_raise _ _ E).
Qed.

(** X14: loading a file of four-column rows, the cells within the limits
    of the reader, is all or nothing: when every amount cell is a float,
    the records are the rows in order with the amounts read; when one
    amount cell is no float the load stops with [ValueError] and no row is
    loaded, none is skipped. *)
Theorem load_expenses_all_or_nothing (t : ExpenseTracker)
    (rows : list raw_row) :
  forallb plain_row rows = true ->
  load_expenses t (Some (raw_file rows)) =
    if forallb (fun r => is_float (raw_amount r)) rows
    then Ok {| filename := filename t;
               expenses := List.map expense_of_raw rows |}
    else Raise ValueError.
Proof.
  intro Hplain.
  unfold load_expenses.
  assert (Ht : raw_file rows =
               List.concat (List.map csv_writerow
                                     (fieldnames :: List.map raw_fields rows))).
  { unfold raw_file, header_text. cbn [List.map List.concat].
    now rewrite map_map. }
  rewrite Ht, rows_roundtrip.
  - cbn [fst snd]. unfold dict_reader.
    assert (Hf : filter (fun row : list str =>
                           match row with [] => false | _ :: _ => true end)
                        (List.map raw_fields rows) = List.map raw_fields rows).
    { clear. induction rows as [|r rows IH]; [reflexivity|].
      cbn [List.map filter raw_fields]. now rewrite IH. }
    rewrite Hf, !map_map.
    rewrite <- (map_map (fun r => dict_zip fieldnames (raw_fields r) [])
                        (fun d => d)), map_id.
    assert (Hm : mapM expense_of_row
                   (List.map (fun r => dict_zip fieldnames (raw_fields r) [])
                             rows) =
                 mapM (fun r => expense_of_row
                                  (dict_zip fieldnames (raw_fields r) []))
                      rows).
    { clear. induction rows as [|r rows IH]; [reflexivity|].
      cbn [List.map mapM]. now rewrite IH. }
    rewrite Hm.
    rewrite (mapM_all_or_nothing _ (fun r => is_float (raw_amount r))
               (fun r => Some (expense_of_raw r)) ValueError rows
               expense_of_raw_row).
    destruct (forallb (fun r => is_float (raw_amount r)) rows);
      [|reflexivity].
    cbn [bind]. now rewrite all_records_map.
  - constructor; [discriminate|].
    apply Forall_forall. intros row Hrow.
    apply in_map_iff in Hrow as (r & <- & _). discriminate.
  - constructor; [exact fieldnames_fit|].
    apply Forall_forall. intros row Hrow.
    apply in_map_iff in Hrow as (r & <- & Hr). apply plain_fields.
    rewrite forallb_forall in Hplain. now apply Hplain.
Qed.

(** ** Formatted amounts *)

(** X15: the text of a finite amount is an optional minus sign, the digits
    before the comma in groups of three with periods between them, the
    comma, two digits and the currency sign; read without the grouping and
    with a point for the comma, the digits are the amount rounded to two
    decimals. *)
Theorem format_amount_shape (x : float) :
  isfinite x = true ->
  exists ip d1 d0,
    format_amount x =
      (if fsign x then [MINUS] else [])
        ++ rev (group3_le DOT ip) ++ [COMMA; d1; d0; EURO] /\
    ip <> [] /\
    forallb is_digit ip = true /\ is_digit d1 = true /\ is_digit d0 = true /\
    float_of_str ((if fsign x then [MINUS] else [])
                    ++ rev ip ++ [DOT; d1; d0]) = Ok (round2 x).
Proof.
  intro H.
  exists (int_digits x), (digit_char ((cents x mod 100) / 10)),
         (digit_char (cents x mod 10)).
  destruct (cents_split (cents x)) as (H1 & H0 & _).
  destruct (digits_of_spec (cents x / 100)) as (_ & _ & Hn).
  split; [|split; [|split; [|split; [|split]]]].
  - rewrite format_amount_text by exact H.
    unfold sign_text, frac_digits. rewrite <- !app_assoc. reflexivity.
  - unfold int_digits. intro E. apply map_eq_nil in E. contradiction.
  - apply forallb_forall. intros c Hc.
    pose proof (int_digits_digits x) as Hd. rewrite Forall_forall in Hd.
    now apply Hd.
  - now apply is_digit_digit_char.
  - now apply is_digit_digit_char.
  - rewrite <- (float_of_fmt_fixed2 x H), (fmt_fixed2_finite false x H).
    reflexivity.
Qed.


(** ** Amounts without digits, and the decimal comma *)

Lemma Forall_dropwhile (P : char -> Prop) (p : char -> bool) (s : str) :
  Forall P s -> Forall P (dropwhile p s).
Proof.
  induction 1 as [|x s Hx Hs IH]; cbn [dropwhile]; [constructor|].
  destruct (p x); [exact IH | now constructor].
Qed.

Lemma Forall_rstrip (P : char -> Prop) (p : char -> bool) (s : str) :
  Forall P s -> Forall P (rstrip_by p s).
Proof.
  intro H. unfold rstrip_by. apply Forall_rev, Forall_dropwhile.
  now apply Forall_rev.
Qed.

Lemma Forall_replace_nil (P : char -> Prop) (c : char) (s : str) :
  Forall P s -> Forall P (replace c [] s).
Proof.
  unfold replace. induction 1 as [|x s Hx Hs IH]; cbn [flat_map];
    [constructor|].
  destruct (x =? c); cbn [app]; [exact IH | now constructor].
Qed.

Lemma blank_without_euro (s : str) :
  Forall (fun c => blank_char c = true) s ->
  Forall (fun c => isspace c = true) (replace EURO [] s).
Proof.
  unfold replace. induction 1 as [|x s Hx Hs IH]; cbn [flat_map];
    [constructor|].
  destruct (x =? EURO) eqn:E; cbn [app]; [exact IH|].
  constructor; [|exact IH].
  unfold blank_char in Hx. rewrite E, orb_false_r in Hx. exact Hx.
Qed.

Lemma Forall_count_zero (P : char -> Prop) (c : char) (s : str) :
  ~ P c -> Forall P s -> count c s = 0%nat.
Proof.
  intros Hc. induction 1 as [|x s Hx Hs IH]; [reflexivity|].
  rewrite count_cons, IH. destruct (x =? c) eqn:E; [|reflexivity].
  apply N.eqb_eq in E. subst x. contradiction.
Qed.

Lemma ascii_space_cases (c : char) :
  isspace c = true -> c < 128 ->
  c = 9 \/ c = 10 \/ c = 11 \/ c = 12 \/ c = 13 \/
  c = 28 \/ c = 29 \/ c = 30 \/ c = 31 \/ c = 32.
Proof.
  unfold isspace. intros H Hc.
  repeat rewrite orb_true_iff in H. repeat rewrite andb_true_iff in H.
  repeat rewrite N.leb_le in H. repeat rewrite N.eqb_eq in H. lia.
Qed.

Lemma strtod_space (c : char) (s : str) :
  isspace c = true -> c < 128 -> strtod (c :: s) = None.
Proof.
  intros H Hc.
  destruct (ascii_space_cases c H Hc)
    as [->|[->|[->|[->|[->|[->|[->|[->|[->| ->]]]]]]]]]; reflexivity.
Qed.

Lemma to_ascii_spaces (s : str) :
  Forall (fun c => isspace c = true) s ->
  Forall (fun c => isspace c = true /\ c < 128) (to_ascii s).
Proof.
  induction 1 as [|x s Hx Hs IH]; cbn [to_ascii]; [constructor|].
  destruct (x <? 127) eqn:E.
  - apply N.ltb_lt in E. constructor; [split; [exact Hx | lia] | exact IH].
  - rewrite Hx. constructor; [split; [reflexivity | reflexivity] | exact IH].
Qed.

Lemma float_of_str_spaces (s : str) :
  Forall (fun c => isspace c = true) s -> float_of_str s = Raise ValueError.
Proof.
  intro H.
  assert (Ha : Forall (fun c => isspace c = true /\ c < 128)
                      (transform_decimal_and_space s)).
  { unfold transform_decimal_and_space.
    destruct (forallb (fun c => c <? 128) s) eqn:E;
      [|now apply to_ascii_spaces].
    rewrite forallb_forall in E. rewrite Forall_forall in *.
    intros c Hin. split; [now apply H|]. apply N.ltb_lt. now apply E. }
  unfold float_of_str. cbv zeta.
  set (t := rstrip_by c_isspace
              (lstrip_by c_isspace (transform_decimal_and_space s))).
  assert (Ht : Forall (fun c => isspace c = true /\ c < 128) t)
    by (apply Forall_rstrip, Forall_dropwhile, Ha).
  assert (Hu : contains UNDERSCORE t = false).
  { apply contains_false_count.
    apply (Forall_count_zero (fun c => isspace c = true /\ c < 128));
      [|exact Ht].
    intros [Hu _]. discriminate. }
  rewrite Hu. clearbody t. destruct Ht as [|c t [Hc Hlt] _]; [reflexivity|].
  now rewrite (strtod_space c t Hc Hlt).
Qed.

(** X16: a text of white space and currency signs only, the empty text
    included, is no amount: [parse_amount] raises [ValueError], also when
    white space other than the space is left between two currency
    signs. *)
Theorem parse_amount_blank (s : str) :
  Forall (fun c => blank_char c = true) s ->
  parse_amount (Some s) = Raise ValueError.
Proof.
  intro H. rewrite parse_amount_unfold.
  assert (Hc : Forall (fun c => isspace c = true) (clean s)).
  { unfold clean. apply Forall_replace_nil, Forall_replace_nil.
    apply blank_without_euro. unfold strip, lstrip_by.
    now apply Forall_rstrip, Forall_dropwhile. }
  destruct (clean s) as [|c r] eqn:E; [reflexivity|].
  assert (Hd : contains DOT (c :: r) = false).
  { apply contains_false_count.
    apply (Forall_count_zero (fun c => isspace c = true)); [|exact Hc].
    discriminate. }
  assert (Hk : contains COMMA (c :: r) = false).
  { apply contains_false_count.
    apply (Forall_count_zero (fun c => isspace c = true)); [|exact Hc].
    discriminate. }
  rewrite Hd, Hk. cbn [andb]. now apply float_of_str_spaces.
Qed.

Lemma dropwhile_map (p : char -> bool) (f : char -> char) (s : str) :
  (forall x, p (f x) = p x) ->
  dropwhile p (List.map f s) = List.map f (dropwhile p s).
Proof.
  intro H. induction s as [|x s IH]; [reflexivity|].
  cbn [List.map dropwhile]. rewrite H. destruct (p x); [exact IH|reflexivity].
Qed.

Lemma strip_map (f : char -> char) (s : str) :
  (forall x, isspace (f x) = isspace x) ->
  strip (List.map f s) = List.map f (strip s).
Proof.
  intro H. unfold strip, rstrip_by, lstrip_by.
  rewrite (dropwhile_map _ _ _ H), <- map_rev, (dropwhile_map _ _ _ H).
  now rewrite map_rev.
Qed.

Lemma replace_nil_map (d : char) (f : char -> char) (s : str) :
  (forall x, (f x =? d) = (x =? d)) ->
  replace d [] (List.map f s) = List.map f (replace d [] s).
Proof.
  intro H. unfold replace. induction s as [|x s IH]; [reflexivity|].
  cbn [List.map flat_map]. rewrite H, IH.
  destruct (x =? d); reflexivity.
Qed.

Lemma sub_comma_keeps (P : char -> bool) :
  P DOT = P COMMA -> forall x, P (sub_char COMMA DOT x) = P x.
Proof.
  intros H x. unfold sub_char. destruct (x =? COMMA) eqn:E; [|reflexivity].
  apply N.eqb_eq in E. now subst x.
Qed.

Lemma clean_comma_point (s : str) :
  clean (replace COMMA [DOT] s) = replace COMMA [DOT] (clean s).
Proof.
  rewrite !replace_one_map. unfold clean.
  rewrite (strip_map _ _ (sub_comma_keeps isspace eq_refl)).
  rewrite (replace_nil_map EURO _ _
             (sub_comma_keeps (fun x => x =? EURO) eq_refl)).
  rewrite (replace_nil_map SPACE _ _
             (sub_comma_keeps (fun x => x =? SPACE) eq_refl)).
  rewrite (replace_nil_map NBSP _ _
             (sub_comma_keeps (fun x => x =? NBSP) eq_refl)).
  reflexivity.
Qed.

Lemma count_clean (c : char) (s : str) :
  isspace c = false -> c <> EURO ->
  count c (clean s) = count c s.
Proof.
  intros Hs He. unfold clean.
  assert (c <> SPACE) by (intros ->; discriminate).
  assert (c <> NBSP) by (intros ->; discriminate).
  rewrite !count_replace_other by (try assumption; reflexivity).
  unfold strip, lstrip_by.
  now rewrite count_rstrip, count_dropwhile.
Qed.

(** X17: in a text without a period the comma is the decimal point:
    [parse_amount] gives the same result, a number or the same error, as
    for the text with every comma replaced by a period. *)
Theorem parse_amount_comma_is_point (s : str) :
  contains DOT s = false ->
  parse_amount (Some s) = parse_amount (Some (replace COMMA [DOT] s)).
Proof.
  intro H. rewrite !parse_amount_unfold, clean_comma_point.
  assert (Hd : contains DOT (clean s) = false).
  { apply contains_false_count. rewrite count_clean; [|reflexivity|discriminate].
    now apply contains_false_count. }
  assert (Hk : contains COMMA (replace COMMA [DOT] (clean s)) = false).
  { apply contains_false_count. now apply count_replace_gone. }
  rewrite Hd, Hk, andb_false_r. cbn [andb negb]. rewrite andb_true_r.
  destruct (clean s) as [|c r] eqn:E; [reflexivity|].
  assert (Hne : exists c' r', replace COMMA [DOT] (c :: r) = c' :: r').
  { rewrite replace_one_map. cbn [List.map]. eauto. }
  destruct Hne as (c' & r' & Hr). rewrite Hr, <- Hr.
  destruct (contains COMMA (c :: r)) eqn:Ec; [reflexivity|].
  apply contains_false_count in Ec.
  now rewrite (replace_absent COMMA [DOT] (c :: r) Ec).
Qed.


(** ** The boxes of the login screen and of the menu *)

Lemma len_center (w : N) (s : str) : len (center w s) = N.max w (len s).
Proof.
  unfold center. destruct (w <=? len s) eqn:E.
  - apply N.leb_le in E. lia.
  - apply N.leb_gt in E. cbv zeta. rewrite !len_app, !len_repeat.
    set (marg := w - len s).
    assert (Hm : marg = w - len s) by reflexivity.
    assert (Hq : 2 * (marg / 2) <= marg) by (apply N.Div0.mul_div_le).
    assert (Hb : N.land (N.land marg w) 1 < 2).
    { change 1 with (N.ones 1). rewrite N.land_ones.
      apply N.mod_lt. discriminate. }
    set (q := marg / 2) in *. set (b := N.land (N.land marg w) 1) in *.
    clearbody q b marg. lia.
Qed.

Lemma max_default_upper (h d x : N) (l : list N) :
  In x l -> x <= N.max h (max_default d l).
Proof.
  intro Hx. apply (max_default_bound h d l); [|exact Hx].
  intros ->. contradiction.
Qed.

Lemma login_box_aligned (title login_user login_pw : str)
    (attempts : option Z) :
  exists width rows,
    login_box title login_user login_pw attempts =
      (LF :: login_border width) :: rows ++ [login_border width] /\
    68 <= width /\
    List.length rows =
      match attempts with Some _ => 6%nat | None => 5%nat end /\
    len (login_border width) = width + 2 + (len CYAN + len RESET) /\
    Forall (fun row => len row = width + 2 + 2 * (len CYAN + len RESET)) rows.
Proof.
  unfold login_box. cbv zeta.
  set (lines := login_lines title login_user login_pw attempts).
  set (width := N.max 60 (max_default 0 (List.map len lines)) + 8).
  exists width, (List.map (login_row width) lines).
  assert (Hw : 68 <= width) by (unfold width; lia).
  split; [reflexivity|]. split; [exact Hw|]. split.
  { rewrite length_map. unfold lines, login_lines.
    destruct attempts; reflexivity. }
  split.
  { unfold login_border. rewrite !len_app, len_repeat.
    change (len (lit "+")) with 1. lia. }
  apply Forall_forall. intros row Hrow.
  apply in_map_iff in Hrow as (l & <- & Hl).
  assert (Hlen : len l <= N.max 60 (max_default 0 (List.map len lines)))
    by (apply max_default_upper, in_map, Hl).
  fold width in Hlen.
  unfold login_row. rewrite !len_app, len_center.
  change (len (lit "|")) with 1. change (len (lit " ")) with 1.
  unfold width in *. lia.
Qed.

Lemma both_unknown (lang de en : str) :
  known_lang lang = false -> dict_get lang (both de en) = None.
Proof.
  unfold known_lang, both. intro H. apply orb_false_iff in H as [H1 H2].
  cbn [dict_get]. now rewrite H1, H2.
Qed.

Lemma title_unknown (lang : str) :
  known_lang lang = false -> message (lit "title") lang = Raise KeyError.
Proof.
  intro H. unfold message.
  change (texts (lit "title")) with (Ok tt). cbn [bind].
  change (dict_get (lit "title") MESSAGES)
    with (Some (both (lit "Personal Expense Tracker")
                     (lit "Personal Expense Tracker"))).
  cbv beta iota. now rewrite both_unknown.
Qed.

Lemma known_lang_cases (lang : str) :
  known_lang lang = true -> lang = lit "de" \/ lang = lit "en".
Proof.
  unfold known_lang. intro H. apply orb_true_iff in H as [H|H];
    apply str_eqb_eq in H; auto.
Qed.

(** X18: for the languages "de" and "en" the login box is aligned: the
    two borders are equal, every line between them is as long as a border
    without its colour codes, plus the colour codes of the line, and the
    box is at least 68 dashes wide whatever the number of attempts; for
    another language [show_login_screen] raises [KeyError]. *)
Theorem show_login_screen_aligned (lang : str) (attempts : option Z) :
  if known_lang lang
  then
    exists width rows,
      show_login_screen lang attempts =
        Ok ((LF :: login_border width) :: rows ++ [login_border width]) /\
      68 <= width /\
      List.length rows =
        match attempts with Some _ => 6%nat | None => 5%nat end /\
      len (login_border width) = width + 2 + (len CYAN + len RESET) /\
      Forall (fun row => len row = width + 2 + 2 * (len CYAN + len RESET))
             rows
  else show_login_screen lang attempts = Raise KeyError.
Proof.
  destruct (known_lang lang) eqn:E.
  - destruct (known_lang_cases lang E) as [-> | ->].
    + destruct (login_box_aligned (lit "Personal Expense Tracker")
                  (lit "Benutzername:") (lit "Passwort:") attempts)
        as (width & rows & H & Hrest).
      exists width, rows. split; [|exact Hrest].
      rewrite <- H. reflexivity.
    + destruct (login_box_aligned (lit "Personal Expense Tracker")
                  (lit "Username:") (lit "Password:") attempts)
        as (width & rows & H & Hrest).
      exists width, rows. split; [|exact Hrest].
      rewrite <- H. reflexivity.
  - unfold show_login_screen. now rewrite (title_unknown lang E).
Qed.

Lemma option_row_length (width : N) (nt : str * str) :
  replace_str RESET []
    (replace_str GREEN []
       (lit "  " ++ GREEN ++ fst nt ++ RESET ++ lit ". " ++ snd nt))
    = option_text nt ->
  len (option_text nt) <= width ->
  len (option_row width nt) =
    width + 2 + 2 * (len MAGENTA + len RESET) + (len GREEN + len RESET).
Proof.
  intros H Hk. unfold option_row. cbv zeta. rewrite H.
  unfold menu_row. rewrite !len_app, len_repeat.
  unfold option_text in *. rewrite !len_app in *.
  change (len (lit "|")) with 1. lia.
Qed.

Lemma menu_box_aligned (title : str) (options : list (str * str))
    (user : option str) :
  Forall (fun nt =>
            replace_str RESET []
              (replace_str GREEN []
                 (lit "  " ++ GREEN ++ fst nt ++ RESET ++ lit ". " ++ snd nt))
              = option_text nt) options ->
  exists width frame rows,
    menu_box title options user =
      (LF :: menu_border width) :: frame ++ rows /\
    List.length frame =
      match logged_in user with Some _ => 4%nat | None => 2%nat end /\
    List.length rows = List.length options /\
    len (menu_border width) = width + 2 + (len MAGENTA + len RESET) /\
    Forall (fun row => len row = width + 2 + 2 * (len MAGENTA + len RESET))
           frame /\
    Forall (fun row =>
              len row = width + 2 + 2 * (len MAGENTA + len RESET)
                        + (len GREEN + len RESET)) rows.
Proof.
  intro Hopt. unfold menu_box. cbv zeta.
  set (width := menu_width title options user).
  assert (Ht : len title <= width) by (unfold width, menu_width; lia).
  assert (Hu : forall l, logged_in user = Some l -> len l <= width).
  { intros l Hl. unfold width, menu_width. rewrite Hl. lia. }
  assert (Ho : forall nt, In nt options -> len (option_text nt) <= width).
  { intros nt Hin. unfold width, menu_width.
    assert (H : len (option_text nt) <=
                N.max 0 (max_default 0
                           (List.map (fun nt => len (option_text nt)) options)))
      by (apply max_default_upper;
          apply (in_map (fun nt => len (option_text nt))), Hin).
    lia. }
  assert (Hrow : forall inner, len inner = width ->
            len (menu_row inner) = width + 2 + 2 * (len MAGENTA + len RESET)).
  { intros inner Hi. unfold menu_row. rewrite !len_app, Hi.
    change (len (lit "|")) with 1. lia. }
  assert (Hc : forall s, len s <= width -> len (center width s) = width)
    by (intros s Hs; rewrite len_center; lia).
  exists width,
    ([menu_row (center width title);
      menu_row (repeat MINUS (N.to_nat width))]
       ++ match logged_in user with
          | Some l => [menu_row (center width l);
                       menu_row (repeat MINUS (N.to_nat width))]
          | None => []
          end),
    (List.map (option_row width) options).
  split; [now rewrite <- app_assoc|].
  split; [destruct (logged_in user); reflexivity|].
  split; [apply length_map|].
  split.
  { unfold menu_border. rewrite !len_app, len_repeat.
    change (len (lit "+")) with 1. lia. }
  split.
  - destruct (logged_in user) as [l|] eqn:El; cbn [app];
      repeat (apply Forall_cons); try apply Forall_nil;
      apply Hrow; try apply len_repeat; apply Hc; auto.
  - apply Forall_forall. intros row Hin.
    apply in_map_iff in Hin as (nt & <- & Hnt).
    apply option_row_length; [|now apply Ho].
    rewrite Forall_forall in Hopt. now apply Hopt.
Qed.

(** X19: for the languages "de" and "en" the menu box is aligned, with or
    without a user name and however long the name is: the title line, the
    rules and the line of the user are as long as the border without its
    colour codes, plus their own colour codes, and so are the seven lines
    of the options; for another language [show_main_menu] raises
    [KeyError].  No closing border is printed. *)
Theorem show_main_menu_aligned (user : option str) (lang : str) :
  if known_lang lang
  then
    exists width frame rows,
      show_main_menu user lang =
        Ok ((LF :: menu_border width) :: frame ++ rows) /\
      List.length frame =
        match logged_in user with Some _ => 4%nat | None => 2%nat end /\
      List.length rows = 7%nat /\
      len (menu_border width) = width + 2 + (len MAGENTA + len RESET) /\
      Forall (fun row => len row = width + 2 + 2 * (len MAGENTA + len RESET))
             frame /\
      Forall (fun row =>
                len row = width + 2 + 2 * (len MAGENTA + len RESET)
                          + (len GREEN + len RESET)) rows
  else show_main_menu user lang = Raise KeyError.
Proof.
  destruct (known_lang lang) eqn:E.
  - assert (H : exists title options,
               show_main_menu user lang = Ok (menu_box title options user) /\
               List.length options = 7%nat /\
               Forall (fun nt =>
                         replace_str RESET []
                           (replace_str GREEN []
                              (lit "  " ++ GREEN ++ fst nt ++ RESET
                                 ++ lit ". " ++ snd nt))
                         = option_text nt) options).
    { destruct (known_lang_cases lang E) as [-> | ->];
        eexists _, _; (split; [reflexivity|]);
        (split; [reflexivity|]); repeat constructor. }
    destruct H as (title & options & -> & Hn & Hopt).
    destruct (menu_box_aligned title options user Hopt)
      as (width & frame & rows & H1 & H2 & H3 & H4 & H5 & H6).
    exists width, frame, rows. rewrite H1, H3, Hn.
    repeat (split; [first [reflexivity | assumption]|]). assumption.
  - unfold show_main_menu. now rewrite (title_unknown lang E).
Qed.


(** ** The attempts of the login *)




End PyFloat.

(** * Instances of the theorems, and inputs on which the specification's
      wording fails *)

(** C2, instance: "1.234,50". *)
Lemma C2_both_separators_witness :
  contains DOT (clean (lit "1.234,50")) = true /\
  contains COMMA (clean (lit "1.234,50")) = true /\
  parse_amount ascii_digits_only (Some (lit "1.234,50")) =
    float_of_str ascii_digits_only
      (replace COMMA [DOT] (replace DOT [] (clean (lit "1.234,50")))).
Proof.
  split; [reflexivity|]. split; [reflexivity|].
  apply (C2_both_separators ascii_digits_only (lit "1.234,50")); reflexivity.
Defined.

(** C2 as stated fails: "1.234,567,89" has both separators and two commas;
    the rule of the specification reads it as 1234567.89, [parse_amount]
    rejects it. *)
Lemma C2_counterexample :
  ~ (forall todecimal s,
       contains DOT (clean s) = true ->
       contains COMMA (clean s) = true ->
       parse_amount todecimal (Some s) =
         float_of_str todecimal (spec_both (clean s))).
Proof.
  intro H.
  specialize (H ascii_digits_only (lit "1.234,567,89") eq_refl eq_refl).
  vm_compute in H. discriminate.
Qed.

(** C3, instance: 1234.5. *)
Lemma C3_parse_format_witness :
  isfinite F1234_5 = true /\
  parse_amount ascii_digits_only (Some (format_amount F1234_5)) = Ok (round2 F1234_5).
Proof.
  split; [reflexivity|].
  apply (C3_parse_format ascii_digits_only F1234_5). reflexivity.
Defined.

(** C4 as stated fails: the amount 1.234 is written as "1.23". *)
Lemma C4_counterexample :
  ~ (forall todecimal name es,
       exists t' f',
         append_all {| filename := name; expenses := [] |} None es
           = Ok (t', f') /\
         new_tracker todecimal name f'
           = Ok {| filename := name; expenses := es |}).
Proof.
  intro H.
  destruct (H ascii_digits_only (lit "expenses.csv")
              (expenses (one_record "2024-01-05" "Food" "Lunch"
                                    (dec2float false 1234 (-3)))))
    as (t' & f' & H1 & H2).
  vm_compute in H1. injection H1 as <- <-.
  vm_compute in H2. discriminate.
Qed.



(** C6, instance: one income of 1.5 in "Food" is charted. *)
Lemma C6_plot_summary_witness :
  let t := one_record "2024-01-05" "Food" "Lunch" F1_5 in
  charted t (lit "Food") F1_5 <->
  survives (expenses t) (lit "Food") /\
  F1_5 = cat_sum (lit "Food") (expenses t).
Proof.
  intro t. apply (C6_plot_summary t).
Defined.

(** C6 as stated fails: a category whose sum is infinite is charted. *)
Lemma C6_counterexample :
  ~ (forall t c v,
       charted t c v <->
       survives (expenses t) c /\ v = cat_sum c (expenses t) /\
       isfinite v = true).
Proof.
  intro H.
  destruct (H (one_record "2024-01-05" "Food" "Bonus" (S754_infinity false))
              (lit "Food") (S754_infinity false)) as [H1 _].
  destruct H1 as (_ & _ & Hf); [|discriminate].
  exists [S754_infinity false], [lit "Food"].
  split; [reflexivity | now left].
Qed.

(** C7, instance: a ledger of one record. *)
Lemma C7_view_widths_witness :
  let t := one_record "2024-01-05" "Food" "Lunch" F1_5 in
  expenses t <> [] /\
  exists w, view_widths t = Some w /\
            is_max (date_w w)
              (10 :: List.map (fun e => len (date e)) (expenses t)).
Proof.
  intro t. split; [discriminate|].
  destruct (C7_view_widths t) as (w & Hw & _ & Hd & _); [discriminate|].
  exists w. split; [exact Hw | exact Hd].
Defined.

(** C7 as stated fails: with the date "2024-1-5" the longest entry of the
    date column has 8 characters and its label "Datum" has 5, yet the
    column is 10 wide. *)
Lemma C7_counterexample :
  ~ (forall t,
       expenses t <> [] ->
       exists w,
         view_widths t = Some w /\
         is_max (nr_w w)
           (len (lit "Nr.")
              :: List.map len (nr_cells (List.length (expenses t)))) /\
         is_max (date_w w)
           (len (lit "Datum")
              :: List.map (fun e => len (date e)) (expenses t)) /\
         is_max (cat_w w)
           (len (lit "Kategorie")
              :: List.map (fun e => len (category e)) (expenses t)) /\
         is_max (desc_w w)
           (len (lit "Beschreibung")
              :: List.map (fun e => len (description e)) (expenses t)) /\
         is_max (amt_w w)
           (len (lit "Betrag") :: List.map len (amount_cells t))).
Proof.
  intro H.
  destruct (H (one_record "2024-1-5" "Food" "Lunch" F1_5))
    as (w & Hw & _ & [Hin _] & _); [discriminate|].
  vm_compute in Hw. injection Hw as <-.
  vm_compute in Hin. destruct Hin as [Hin|[Hin|[]]]; discriminate.
Qed.

(** C8, the failing input: the amount "1,50" with the answer "x" to the
    "+ / -" prompt ends choice "1" with [KeyError]. *)
Lemma C8_invalid_sign_example :
  entry_amount F1_5 (lit "x") = Raise KeyError /\
  menu_add ascii_digits_only (fun _ => true)
    {| filename := lit "expenses.csv"; expenses := [] |} None
    (lit "2024-01-05") (lit "Food") (lit "Lunch") (lit "1,50") (lit "x")
  = Raise KeyError.
Proof. split; vm_compute; reflexivity. Qed.

(** C9, instance: "1,2,3". *)
Lemma C9_multi_comma_rejected_witness :
  (2 <= count COMMA (clean (lit "1,2,3")))%nat /\
  contains DOT (clean (lit "1,2,3")) = false /\
  parse_amount ascii_digits_only (Some (lit "1,2,3")) = Raise ValueError.
Proof.
  split; [vm_compute; lia|]. split; [reflexivity|].
  apply (C9_multi_comma_rejected ascii_digits_only (lit "1,2,3")); [vm_compute; lia|].
  reflexivity.
Defined.

(** C10, instance: "1.234,50". *)
Lemma C10_leading_minus_witness :
  starts_with_digit (lit "1.234,50") = true /\
  parse_amount ascii_digits_only (Some (lit "1.234,50")) = Ok F1234_5 /\
  parse_amount ascii_digits_only (Some (MINUS :: lit "1.234,50")) = Ok (fneg F1234_5).
Proof.
  split; [reflexivity|]. split; [vm_compute; reflexivity|].
  apply (C10_leading_minus ascii_digits_only (lit "1.234,50") F1234_5);
    [reflexivity | vm_compute; reflexivity].
Defined.

(** X6, instance: a ledger of one record. *)
Lemma view_expenses_aligned_witness :
  let t := one_record "2024-01-05" "Food" "Lunch" F1_5 in
  expenses t <> [] /\
  exists w header rows total,
    view_widths t = Some w /\
    view_expenses t =
      [LF :: header; repeat MINUS (N.to_nat (total_width w))]
        ++ rows ++ [repeat MINUS (N.to_nat (total_width w)); total] /\
    len header = total_width w /\
    List.length rows = List.length (expenses t) /\
    Forall (fun row =>
              len row =
                total_width w + (2 * len PURPLE + len GREEN + len BLUE
                                 + len ORANGE + 5 * len RESET)) rows /\
    len total + 2 = total_width w + (len YELLOW + len ORANGE + 2 * len RESET).
Proof.
  intro t. split; [discriminate|].
  apply (view_expenses_aligned t). discriminate.
Defined.

(** X7, instance: the keys "a", "b" and Enter. *)
Lemma get_password_masked_typed_witness :
  Forall (fun ch => plain_key false ch = true) (lit "ab") /\
  (forall rest,
     get_password_masked false (lit "ab" ++ CR :: rest)
       = Entered (lit "ab") rest /\
     get_password_masked false (lit "ab" ++ LF :: rest)
       = Entered (lit "ab") rest).
Proof.
  assert (H : Forall (fun ch => plain_key false ch = true) (lit "ab"))
    by (repeat constructor).
  split; [exact H|].
  exact (proj1 (get_password_masked_typed false (lit "ab") H)).
Defined.

(** X8, instance: "a", "x", the erase key, "b", Enter and one more key. *)
Lemma get_password_masked_clean_witness :
  let keys := lit "ax" ++ [127] ++ lit "b" ++ [LF] ++ lit "z" in
  get_password_masked false keys = Entered (lit "ab") (lit "z") /\
  Forall (fun ch => plain_key false ch = true) (lit "ab") /\
  exists used, keys = used ++ lit "z" /\ used <> [].
Proof.
  intro keys. split; [reflexivity|].
  apply (get_password_masked_clean false keys (lit "ab") (lit "z")).
  reflexivity.
Defined.

(** X10, instance: the number "1" and the right text on a ledger of one
    record, with ASCII digits read as a number. *)
Lemma menu_delete_gate_witness :
  let t := one_record "2024-01-05" "Food" "Lunch" F1_5 in
  let t' := {| filename := filename t; expenses := [] |} in
  let f' := Some (file_text []) in
  let atoi :=
    fun s : str =>
      Ok (Z.of_N (digits_val (List.map (fun c => c - 48) s))) in
  menu_delete is_digit atoi t None (lit "1") DELETE_KEY = Ok (t', f') /\
  (t', f') <> (t, None) /\
  DELETE_KEY = DELETE_KEY /\
  str_isdigit is_digit (strip (lit "1")) = true /\
  exists p,
    atoi (strip (lit "1")) = Ok p /\
    (1 <= p <= Z.of_nat (List.length (expenses t)))%Z /\
    expenses t' = del_at (Z.to_nat (p - 1)) (expenses t) /\
    filename t' = filename t /\
    f' = Some (file_text (expenses t')).
Proof.
  intros t t' f' atoi.
  assert (H1 : menu_delete is_digit atoi t None (lit "1") DELETE_KEY
               = Ok (t', f')) by (vm_compute; reflexivity).
  assert (H2 : (t', f') <> (t, None)) by discriminate.
  split; [exact H1|]. split; [exact H2|].
  exact (menu_delete_gate is_digit atoi t t' None f' (lit "1") DELETE_KEY
           H1 H2).
Defined.

(** X11, instance: an expense of "1,50" entered into an empty ledger. *)
Lemma menu_add_effect_witness :
  let t := {| filename := lit "expenses.csv"; expenses := [] |} in
  let e0 := {| date := lit "2024-01-05"; category := lit "Food";
               description := lit "Lunch"; amount := fneg F1_5 |} in
  let t' := {| filename := lit "expenses.csv"; expenses := [e0] |} in
  let f' := Some (file_text [e0]) in
  menu_add ascii_digits_only (fun _ => true) t None
    (lit "2024-01-05") (lit " Food") (lit "Lunch ") (lit "1,50") (lit "-")
    = Ok (t', f') /\
  ((t' = t /\ f' = None) \/
   exists e m,
     expenses t' = expenses t ++ [e] /\ filename t' = filename t /\
     f' = Some (file_text (expenses t')) /\
     date e = strip (lit "2024-01-05") /\ category e = strip (lit " Food") /\
     description e = strip (lit "Lunch ") /\
     parse_amount ascii_digits_only (Some (strip (lit "1,50"))) = Ok m /\
     ((strip (lit "-") = lit "-" /\ amount e = fneg (fabs m) /\
       fgt (amount e) fzero = false) \/
      (strip (lit "-") = lit "+" /\ amount e = fabs m /\
       SFltb (amount e) fzero = false))).
Proof.
  intros t e0 t' f'.
  assert (H : menu_add ascii_digits_only (fun _ => true) t None
                (lit "2024-01-05") (lit " Food") (lit "Lunch ") (lit "1,50")
                (lit "-") = Ok (t', f')) by (vm_compute; reflexivity).
  split; [exact H|].
  exact (menu_add_effect ascii_digits_only (fun _ => true) t t' None f'
           (lit "2024-01-05") (lit " Food") (lit "Lunch ") (lit "1,50")
           (lit "-") H).
Defined.

(** X15, instance: 1234.5. *)
Lemma format_amount_shape_witness :
  isfinite F1234_5 = true /\
  exists ip d1 d0,
    format_amount F1234_5 =
      (if fsign F1234_5 then [MINUS] else [])
        ++ rev (group3_le DOT ip) ++ [COMMA; d1; d0; EURO] /\
    ip <> [] /\
    forallb is_digit ip = true /\ is_digit d1 = true /\ is_digit d0 = true /\
    float_of_str ascii_digits_only
      ((if fsign F1234_5 then [MINUS] else []) ++ rev ip ++ [DOT; d1; d0])
      = Ok (round2 F1234_5).
Proof.
  split; [reflexivity|].
  apply (format_amount_shape ascii_digits_only F1234_5). reflexivity.
Defined.

(** X16, instance: a currency sign, a space, a tab and a currency sign. *)
Lemma parse_amount_blank_witness :
  Forall (fun c => blank_char c = true) [EURO; SPACE; 9; EURO] /\
  parse_amount ascii_digits_only (Some [EURO; SPACE; 9; EURO])
    = Raise ValueError.
Proof.
  assert (H : Forall (fun c => blank_char c = true) [EURO; SPACE; 9; EURO])
    by (repeat constructor).
  split; [exact H|].
  exact (parse_amount_blank ascii_digits_only [EURO; SPACE; 9; EURO] H).
Defined.

(** X17, instance: "1,50". *)
Lemma parse_amount_comma_is_point_witness :
  contains DOT (lit "1,50") = false /\
  parse_amount ascii_digits_only (Some (lit "1,50")) =
    parse_amount ascii_digits_only (Some (replace COMMA [DOT] (lit "1,50"))).
Proof.
  split; [reflexivity|].
  apply (parse_amount_comma_is_point ascii_digits_only (lit "1,50")).
  reflexivity.
Defined.

(** C4, instance: two records, one with a comma in its category. *)
Lemma C4_append_then_load_witness :
  let es := [ {| date := lit "2024-01-05"; category := lit "Food";
                 description := lit "Lunch"; amount := F1_5 |};
              {| date := lit "2024-01-06"; category := lit "Rent, flat";
                 description := lit "May"; amount := fneg F1234_5 |} ] in
  let name := lit "expenses.csv" in
  forallb encodable_record es = true /\
  forallb plain_record es = true /\
  exists t' f',
    append_all {| filename := name; expenses := [] |} None es = Ok (t', f') /\
    expenses t' = es /\
    new_tracker ascii_digits_only name f' =
      Ok {| filename := name; expenses := List.map stored_record es |} /\
    List.length (List.map stored_record es) = List.length es /\
    (Forall (fun e => stored (amount e) = amount e) es ->
     new_tracker ascii_digits_only name f' =
       Ok {| filename := name; expenses := es |}).
Proof.
  intros es name.
  assert (H1 : forallb encodable_record es = true)
    by (vm_compute; reflexivity).
  assert (H2 : forallb plain_record es = true) by (vm_compute; reflexivity).
  split; [exact H1|]. split; [exact H2|].
  exact (C4_append_then_load ascii_digits_only name es H1 H2).
Defined.

(** X1, instance: a second record added to a ledger of one record. *)
Lemma add_expense_reload_witness :
  let t := one_record "2024-01-05" "Food" "Lunch" F1_5 in
  let e := {| date := lit "2024-01-06"; category := lit "Rent, flat";
              description := lit "May"; amount := fneg F1234_5 |} in
  forallb encodable_record (expenses t ++ [e]) = true /\
  forallb plain_record (expenses t ++ [e]) = true /\
  exists t' f',
    add_expense t e = Ok (t', f') /\
    expenses t' = expenses t ++ [e] /\
    filename t' = filename t /\
    load_expenses ascii_digits_only t' f' =
      Ok {| filename := filename t';
            expenses := List.map stored_record (expenses t') |}.
Proof.
  intros t e.
  assert (H1 : forallb encodable_record (expenses t ++ [e]) = true)
    by (vm_compute; reflexivity).
  assert (H2 : forallb plain_record (expenses t ++ [e]) = true)
    by (vm_compute; reflexivity).
  split; [exact H1|]. split; [exact H2|].
  exact (add_expense_reload ascii_digits_only t e H1 H2).
Defined.

(** X2, instance: position 1 of a ledger of one record. *)
Lemma delete_entry_reload_witness :
  let t := one_record "2024-01-05" "Food" "Lunch" F1_5 in
  forallb encodable_record (expenses t) = true /\
  forallb plain_record (expenses t) = true /\
  exists ok t' f',
    delete_entry t None 1 = Ok (ok, t', f') /\
    if ok : bool
    then (1 <= 1 <= Z.of_nat (List.length (expenses t)))%Z /\
         load_expenses ascii_digits_only t' f' =
           Ok {| filename := filename t';
                 expenses := List.map stored_record (expenses t') |}
    else t' = t /\ f' = None.
Proof.
  intro t.
  assert (H1 : forallb encodable_record (expenses t) = true)
    by (vm_compute; reflexivity).
  assert (H2 : forallb plain_record (expenses t) = true)
    by (vm_compute; reflexivity).
  split; [exact H1|]. split; [exact H2|].
  exact (delete_entry_reload ascii_digits_only t None 1%Z H1 H2).
Defined.

(** X3, instance: a second record of the same date. *)
Lemma search_by_date_add_expense_witness :
  let t := one_record "2024-01-05" "Food" "Lunch" F1_5 in
  let e := {| date := lit "2024-01-05"; category := lit "Rent";
              description := lit "May"; amount := fneg F1234_5 |} in
  let t' := {| filename := filename t; expenses := expenses t ++ [e] |} in
  let f' := Some (file_text (expenses t ++ [e])) in
  add_expense t e = Ok (t', f') /\
  search_by_date t' (date e) =
    (LF :: lit "Expenses on date '" ++ date e ++ lit "':")
      :: List.map Expense_str (date_matches t (date e)) ++ [Expense_str e] /\
  forall day, day <> date e -> search_by_date t' day = search_by_date t day.
Proof.
  intros t e t' f'.
  assert (H : add_expense t e = Ok (t', f')) by (vm_compute; reflexivity).
  split; [exact H|].
  exact (search_by_date_add_expense t t' e f' H).
Defined.

(** X4, instance: a second record, searched in capital letters with a
    lower-case function for the letters A to Z. *)
Lemma search_by_category_add_expense_witness :
  let t := one_record "2024-01-05" "Food" "Lunch" F1_5 in
  let e := {| date := lit "2024-01-06"; category := lit "Rent";
              description := lit "May"; amount := fneg F1234_5 |} in
  let t' := {| filename := filename t; expenses := expenses t ++ [e] |} in
  let f' := Some (file_text (expenses t ++ [e])) in
  let low := List.map lower in
  add_expense t e = Ok (t', f') /\
  search_by_category low t' (lit "RENT") =
    (LF :: lit "Expenses in category '" ++ lit "RENT" ++ lit "':")
      :: List.map Expense_str (category_matches low t (lit "RENT"))
      ++ [Expense_str e].
Proof.
  intros t e t' f' low.
  assert (H : add_expense t e = Ok (t', f')) by (vm_compute; reflexivity).
  split; [exact H|].
  apply (proj1 (search_by_category_add_expense low t t' e f' H)).
  vm_compute. reflexivity.
Defined.

(** X12, instance: the file that [load_users] creates. *)
Lemma load_users_total_witness :
  plain_file (Some default_users_text) = true /\
  exists users,
    load_users (Some default_users_text) =
      Ok (users, Some default_users_text) /\
    Forall (fun kv : str * str => fst kv <> []) users /\
    NoDup (List.map fst users).
Proof.
  assert (H : plain_file (Some default_users_text) = true)
    by (vm_compute; reflexivity).
  split; [exact H|].
  destruct (load_users_total (Some default_users_text) H)
    as (users & H1 & H2 & H3 & _).
  exists users. split; [exact H1|]. split; [exact H2 | exact H3].
Defined.

(** X13, instance: a file whose header has the amount first and whose row
    lacks the description. *)
Lemma load_expenses_errors_witness :
  let t := {| filename := lit "expenses.csv"; expenses := [] |} in
  let f := Some (lit "amount,date,category,description" ++ [CR; LF]
                   ++ lit "1.5,2024-01-05,Food" ++ [CR; LF]) in
  plain_file f = true /\
  ((exists es, load_expenses ascii_digits_only t f =
                 Ok {| filename := filename t; expenses := es |}) \/
   load_expenses ascii_digits_only t f = Raise KeyError \/
   load_expenses ascii_digits_only t f = Raise TypeError \/
   load_expenses ascii_digits_only t f = Raise ValueError \/
   load_expenses ascii_digits_only t f = Raise NoneText).
Proof.
  intros t f.
  assert (H : plain_file f = true) by (vm_compute; reflexivity).
  split; [exact H|].
  exact (proj2 (load_expenses_errors ascii_digits_only t f H)).
Defined.

(** Rows that are too short: without the description the record holds
    [None] and the load goes on; without the amount [float] raises
    [TypeError]; a first row with a wrong amount comes before both. *)
Lemma short_row_examples :
  let t := {| filename := lit "expenses.csv"; expenses := [] |} in
  load_expenses ascii_digits_only t
    (Some (lit "amount,date,category,description" ++ [CR; LF]
             ++ lit "1.5,2024-01-05,Food" ++ [CR; LF])) = Raise NoneText /\
  load_expenses ascii_digits_only t
    (Some (lit "date,category,description,amount" ++ [CR; LF]
             ++ lit "2024-01-05,Food,Lunch" ++ [CR; LF])) = Raise TypeError /\
  load_expenses ascii_digits_only t
    (Some (lit "amount,date,category,description" ++ [CR; LF]
             ++ lit "abc,2024-01-05,Food,Lunch" ++ [CR; LF]
             ++ lit "1.5,2024-01-05,Food" ++ [CR; LF])) = Raise ValueError.
Proof. intro t. repeat split; vm_compute; reflexivity. Qed.

(** X14, instance: a row with the amount "1.50" and a row with the amount
    "abc". *)
Lemma load_expenses_all_or_nothing_witness :
  let t := {| filename := lit "expenses.csv"; expenses := [] |} in
  let rows :=
    [ {| raw_date := lit "2024-01-05"; raw_category := lit "Food";
         raw_description := lit "Lunch"; raw_amount := lit "1.50" |};
      {| raw_date := lit "2024-01-06"; raw_category := lit "Food";
         raw_description := lit "Dinner"; raw_amount := lit "abc" |} ] in
  forallb plain_row rows = true /\
  load_expenses ascii_digits_only t (Some (raw_file rows)) =
    if forallb (fun r => is_float ascii_digits_only (raw_amount r)) rows
    then Ok {| filename := filename t;
               expenses := List.map (expense_of_raw ascii_digits_only) rows |}
    else Raise ValueError.
Proof.
  intros t rows.
  assert (H : forallb plain_row rows = true) by (vm_compute; reflexivity).
  split; [exact H|].
  exact (load_expenses_all_or_nothing ascii_digits_only t rows H).
Defined.
